(** * alx_polly: the poll operations, their validation and the vote path

    A shallow embedding of [src/lib/poll-actions.ts], of the validation
    and error-handling helpers it imports, of the in-memory vote route and
    of the connection registry of the live-update channel, followed by the
    properties stated about them.

    Conventions.
    - Strings are [string]; the runtime's [trim] and [toLowerCase] are given
      on ASCII text.
    - Timestamps (ISO strings in the source, [timestamptz] columns in the
      store) are represented by their epoch value in [Z]; the current time
      [new Date()] is an explicit argument [now].
    - Vote counts are JS numbers holding integers; they are [Z].
    - The datastore is external: its tables are lists of rows and every
      request can fail with an error of the store, supplied by a fault
      schedule.  Every [await] on the store is one atomic request. *)

From Stdlib Require Import ZArith String Ascii List Lia Bool.
From stdpp Require Import base decidable option list sorting gmap sets strings pretty.

Local Open Scope string_scope.
Local Open Scope Z_scope.

(* ===================================================================== *)
(** * Part I: definitions *)
(* ===================================================================== *)

(** ** The string runtime used by the validators *)

(** ASCII part of the WhiteSpace and LineTerminator productions:
    TAB, LF, VT, FF, CR and SPACE. *)
Definition isWhiteSpace (c : ascii) : bool :=
  let n := nat_of_ascii c in
  Nat.eqb n 32 || (Nat.leb 9 n && Nat.leb n 13).

Fixpoint trimStart (s : string) : string :=
  match s with
  | EmptyString => EmptyString
  | String c s' => if isWhiteSpace c then trimStart s' else s
  end.

Fixpoint trimEnd (s : string) : string :=
  match s with
  | EmptyString => EmptyString
  | String c s' =>
      match trimEnd s' with
      | EmptyString => if isWhiteSpace c then EmptyString else String c EmptyString
      | t => String c t
      end
  end.

(** [String.prototype.trim] *)
Definition trim (s : string) : string := trimEnd (trimStart s).

Definition lowerChar (c : ascii) : ascii :=
  let n := nat_of_ascii c in
  if Nat.leb 65 n && Nat.leb n 90 then ascii_of_nat (n + 32) else c.

(** [String.prototype.toLowerCase] *)
Fixpoint toLowerCase (s : string) : string :=
  match s with
  | EmptyString => EmptyString
  | String c s' => String (lowerChar c) (toLowerCase s')
  end.

(** Truthiness of a string: only the empty string is falsy. *)
Definition truthy (s : string) : bool :=
  match s with EmptyString => false | _ => true end.

(** [s.length] *)
Definition strlen (s : string) : Z := Z.of_nat (String.length s).

(** ** [lib/error-handling]: form errors *)

(** ['validation' | 'api' | 'network' | 'general'] *)
Inductive ErrorType := Validation | Api | Network | General.

#[global] Instance ErrorType_eq_dec : EqDecision ErrorType.
Proof. solve_decision. Defined.

Record FormError := mkFormError {
  field : option string;
  message : string;
  type : ErrorType
}.

(** The values that reach [parseApiError] (typed [any]): an object that may
    carry an HTTP [response] (its status, and the server's message
    [data.message || data.error] if any), a [request], a [message] and a
    [code]. *)
Record ErrorValue := mkErrorValue {
  ev_response : option (Z * option string);
  ev_request : bool;
  ev_message : option string;
  ev_code : option string
}.

(** [a || b] on optional strings: the first defined, non-empty one. *)
Definition orElse (a : option string) (b : string) : string :=
  match a with
  | Some s => if truthy s then s else b
  | None => b
  end.

Definition parseApiError (error : ErrorValue) : FormError :=
  match ev_response error with
  | Some (status, srv) =>
      let message := orElse srv "Server error occurred" in
      if status =? 400 then mkFormError None "Invalid request. Please check your input." Api
      else if status =? 401 then mkFormError None "Authentication required. Please sign in." Api
      else if status =? 403 then mkFormError None "You don't have permission to perform this action." Api
      else if status =? 404 then mkFormError None "The requested resource was not found." Api
      else if status =? 409 then mkFormError None "Conflict occurred. The resource may already exist." Api
      else if status =? 422 then mkFormError None message Validation
      else if status =? 429 then mkFormError None "Too many requests. Please wait a moment and try again." Api
      else if status =? 500 then mkFormError None "Server error occurred. Please try again later." Api
      else mkFormError None message Api
  | None =>
      if ev_request error
      then mkFormError None "Network error. Please check your connection and try again." Network
      else mkFormError None (orElse (ev_message error) "An unexpected error occurred.") General
  end.

(** [createFormError(message, type)], the third argument left out. *)
Definition createFormError (message : string) (type : ErrorType) : FormError :=
  mkFormError None message type.

(** A [FormError] seen as a value of type [any]: it has a [message] and
    neither [response] nor [request] nor [code]. *)
Definition ofFormError (e : FormError) : ErrorValue :=
  mkErrorValue None false (Some (message e)) None.

(** ** [lib/validation] *)

Record ValidationResult := mkValidationResult {
  isValid : bool;
  reason : option string   (* the field [error] of the source *)
}.

Definition valid : ValidationResult := mkValidationResult true None.
Definition invalid (msg : string) : ValidationResult := mkValidationResult false (Some msg).

Definition validatePollTitle (title : string) : ValidationResult :=
  if negb (truthy (trim title)) then invalid "Poll title is required"
  else if strlen (trim title) <? 3 then invalid "Poll title must be at least 3 characters long"
  else if 200 <? strlen (trim title) then invalid "Poll title must be less than 200 characters"
  else valid.

Definition validatePollDescription (description : string) : ValidationResult :=
  if truthy description && (1000 <? strlen description)
  then invalid "Description must be less than 1000 characters"
  else valid.

Definition validatePollOption (option : string) : ValidationResult :=
  if negb (truthy (trim option)) then invalid "Option text is required"
  else if strlen (trim option) <? 1 then invalid "Option text must be at least 1 character long"
  else if 100 <? strlen (trim option) then invalid "Option text must be less than 100 characters"
  else valid.

(** The [for] loop of [validatePollOptions], from index [i] on. *)
Fixpoint validateEachOption (i : nat) (options : list string) : ValidationResult :=
  match options with
  | [] => valid
  | o :: rest =>
      let result := validatePollOption o in
      if negb (isValid result)
      then invalid ("Option " ++ pretty (i + 1)%nat ++ ": " ++ default "undefined" (reason result))
      else validateEachOption (S i) rest
  end.

Definition validatePollOptions (options : list string) : ValidationResult :=
  if (length options <? 2)%nat then invalid "At least 2 options are required"
  else if (10 <? length options)%nat then invalid "Maximum 10 options allowed"
  else
    let trimmedOptions := map (fun opt => toLowerCase (trim opt)) options in
    let uniqueOptions : gset string := list_to_set trimmedOptions in
    if negb (size uniqueOptions =? length trimmedOptions)%nat
    then invalid "Duplicate options are not allowed"
    else validateEachOption 0 options.

(** ** The datastore: tables [polls] and [poll_options]

    The store is reached through the Supabase client and is not part of the
    repository.  Its tables follow the schema the module expects
    ([README-poll-actions]): [polls(id, title, description, created_by,
    created_at, updated_at, expires_at, is_active)] and [poll_options(id,
    poll_id references polls on delete cascade, text, votes, order_index)],
    with [id] assigned by the store on insert. *)

Record PollRow := mkPollRow {
  row_id : string;
  row_title : string;
  row_description : option string;
  row_created_by : string;
  row_created_at : Z;
  row_updated_at : Z;
  row_expires_at : option Z;
  row_is_active : bool
}.

(** A row of [poll_options]; it is also the [PollOption] handed back inside
    a [Poll]. *)
Record PollOption := mkPollOption {
  opt_id : string;
  opt_poll_id : string;
  text : string;
  votes : Z;
  order_index : Z
}.

#[global] Instance PollRow_eq_dec : EqDecision PollRow.
Proof. solve_decision. Defined.

#[global] Instance PollOption_eq_dec : EqDecision PollOption.
Proof. solve_decision. Defined.

Record DB := mkDB {
  polls : list PollRow;
  poll_options : list PollOption;
  next_id : nat          (* source of the identifiers the store assigns *)
}.

(** The error object of a failed request. *)
Record DbError := mkDbError {
  code : string;
  db_message : string
}.

Definition ofDbError (e : DbError) : ErrorValue :=
  mkErrorValue None false (Some (db_message e)) (Some (code e)).

(** [.single()] fails with PGRST116 unless exactly one row is selected. *)
Definition PGRST116 : DbError :=
  mkDbError "PGRST116" "JSON object requested, multiple (or no) rows returned".

Definition single {A} (rows : list A) : DbError + A :=
  match rows with
  | [r] => inr r
  | _ => inl PGRST116
  end.

(** A request that the store may refuse: [fault] is the error the store
    answers with, if any; a refused request changes nothing. *)
Definition request {A} (fault : option DbError) (answer : DbError + A) : DbError + A :=
  match fault with
  | Some e => inl e
  | None => answer
  end.

(** The identifier the store assigns to its [n]-th new row. *)
Definition gen_id (n : nat) : string := pretty n.

(** [from('polls').select(..).eq('id', pollId)] and variants *)
Definition pollsById (pollId : string) (db : DB) : list PollRow :=
  filter (fun p => row_id p = pollId) (polls db).

Definition activePollsById (pollId : string) (db : DB) : list PollRow :=
  filter (fun p => row_id p = pollId /\ row_is_active p = true) (polls db).

(** [from('poll_options').select('*').eq('id', optionId).eq('poll_id', pollId)] *)
Definition optionsByIdAndPoll (optionId pollId : string) (db : DB) : list PollOption :=
  filter (fun o => opt_id o = optionId /\ opt_poll_id o = pollId) (poll_options db).

(** The embedded resource [poll_options] of a poll, and
    [from('poll_options').select('*').eq('poll_id', pollId)]. *)
Definition optionsOfPoll (pollId : string) (db : DB) : list PollOption :=
  filter (fun o => opt_poll_id o = pollId) (poll_options db).

(** [from('poll_options').update({ votes: v }).eq('id', optionId)] *)
Definition setVotes (optionId : string) (v : Z) (db : DB) : DB :=
  mkDB (polls db)
       (map (fun o => if decide (opt_id o = optionId)
                      then mkPollOption (opt_id o) (opt_poll_id o) (text o) v (order_index o)
                      else o) (poll_options db))
       (next_id db).

(** [from('poll_options').delete().eq('poll_id', pollId)] *)
Definition deleteOptionsOfPoll (pollId : string) (db : DB) : DB :=
  mkDB (polls db)
       (filter (fun o => opt_poll_id o <> pollId) (poll_options db))
       (next_id db).

(** [from('polls').delete().eq('id', pollId)]; the options go with the poll
    (on delete cascade). *)
Definition deletePollRow (pollId : string) (db : DB) : DB :=
  mkDB (filter (fun p => row_id p <> pollId) (polls db))
       (filter (fun o => opt_poll_id o <> pollId) (poll_options db))
       (next_id db).

(** The rows to insert into [poll_options]: [{ poll_id, text, votes,
    order_index }]. *)
Record OptionInsert := mkOptionInsert {
  ins_poll_id : string;
  ins_text : string;
  ins_votes : Z;
  ins_order_index : Z
}.

(** The store gives the [k]-th inserted row the identifier [gen_id (n + k)]. *)
Fixpoint assignIds (n : nat) (rows : list OptionInsert) : list PollOption :=
  match rows with
  | [] => []
  | r :: rest =>
      mkPollOption (gen_id n) (ins_poll_id r) (ins_text r) (ins_votes r) (ins_order_index r)
      :: assignIds (S n) rest
  end.

(** Foreign key of [poll_options.poll_id]: error 23503 when a row refers to
    no poll. *)
Definition FK_VIOLATION : DbError :=
  mkDbError "23503" "insert or update on table violates foreign key constraint".

Definition pollExists (pollId : string) (db : DB) : bool :=
  bool_decide (pollId ∈ map row_id (polls db)).

(** [from('poll_options').insert(rows).select()] *)
Definition insertOptions (rows : list OptionInsert) (db : DB)
  : DbError + (list PollOption * DB) :=
  if forallb (fun r => pollExists (ins_poll_id r) db) rows
  then
    let created := assignIds (next_id db) rows in
    inr (created,
         mkDB (polls db) (poll_options db ++ created) (next_id db + length rows)%nat)
  else inl FK_VIOLATION.

(** The record [createPoll] inserts into [polls]. *)
Record PollInsert := mkPollInsert {
  ins_title : string;
  ins_description : option string;
  ins_created_by : string;
  ins_expires_at : option Z;
  ins_is_active : bool
}.

(** [from('polls').insert(record).select().single()]: the store fills in
    [id], [created_at] and [updated_at]. *)
Definition insertPoll (now : Z) (r : PollInsert) (db : DB) : PollRow * DB :=
  let row := mkPollRow (gen_id (next_id db)) (ins_title r) (ins_description r)
                       (ins_created_by r) now now (ins_expires_at r) (ins_is_active r) in
  (row, mkDB (polls db ++ [row]) (poll_options db) (S (next_id db))).

(** ** [lib/poll-actions]: types *)

Record Poll := mkPoll {
  id : string;
  title : string;
  description : option string;
  options : list PollOption;
  total_votes : Z;
  created_by : string;
  created_at : Z;
  updated_at : Z;
  expires_at : option Z;
  is_active : bool
}.

(** [expires_at] is carried as the instant the string denotes: [None]
    when there is no expiry to compare (see [Passed] for the data as the
    caller passes it). *)
Record CreatePollData := mkCreatePollData {
  new_title : string;
  new_description : option string;
  new_options : list string;
  new_expires_at : option Z
}.

(** Every field is optional; [None] is [undefined]. *)
Record UpdatePollData := mkUpdatePollData {
  upd_title : option string;
  upd_description : option string;
  upd_options : option (list string);
  upd_expires_at : option Z;
  upd_is_active : option bool
}.

Record VoteData := mkVoteData {
  poll_id : string;
  option_id : string
}.

Record PollOperationResult (T : Type) := mkResult {
  success : bool;
  data : option T;
  error : option FormError;
  validationErrors : option (gmap string string)
}.
Arguments mkResult {T}.
Arguments success {T}.
Arguments data {T}.
Arguments error {T}.
Arguments validationErrors {T}.

Record PollListResult := mkPollListResult {
  list_polls : list Poll;
  total : Z;
  page : Z;
  limit : Z
}.

(** The authenticated user of the session, as far as the module reads it. *)
Record User := mkUser { user_id : string }.

(** What a call finds around it: the session ([None] when
    [auth.getUser()] yields no user) and the clock. *)
Record Env := mkEnv {
  session : option User;
  now : Z
}.

(** The faults of the store during one call: [faults k] is the error that
    answers the call's [k]-th request, if any. *)
Definition Faults := nat -> option DbError.
Definition no_faults : Faults := fun _ => None.

(** ** [lib/poll-actions]: session *)

(** [getAuthenticatedClient]: throws the form error when there is no user. *)
Definition getAuthenticatedClient (env : Env) : FormError + User :=
  match session env with
  | Some user => inr user
  | None => inl (createFormError "Authentication required" Api)
  end.

(** [getCurrentUser] *)
Definition getCurrentUser (env : Env) : FormError + User :=
  getAuthenticatedClient env.

(** ** [lib/poll-actions]: standard responses *)

Definition createErrorResponse {T} (error : ErrorValue) : PollOperationResult T :=
  mkResult false None (Some (parseApiError error)) None.

Definition createSuccessResponse {T} (data : T) : PollOperationResult T :=
  mkResult true (Some data) None None.

Definition handleDatabaseError {T} (error : DbError) : PollOperationResult T :=
  if String.eqb (code error) "PGRST116"
  then createErrorResponse (ofFormError (createFormError "Resource not found" Api))
  else if String.eqb (code error) "23505"
  then createErrorResponse (ofFormError (createFormError "Resource already exists" Api))
  else if String.eqb (code error) "23503"
  then createErrorResponse (ofFormError (createFormError "Referenced resource not found" Api))
  else createErrorResponse (ofDbError error).

(** ** [lib/poll-actions]: input validation *)

(** [if (!r.isValid && r.error) validationErrors[key] = r.error] *)
Definition addError (key : string) (r : ValidationResult)
    (errs : gmap string string) : gmap string string :=
  match reason r with
  | Some e => if negb (isValid r) && truthy e then <[key := e]> errs else errs
  | None => errs
  end.

(** [if (expiresAt <= now) validationErrors.expires_at = ...] *)
Definition addExpiry (now : Z) (expires : option Z)
    (errs : gmap string string) : gmap string string :=
  match expires with
  | Some t => if t <=? now
              then <["expires_at" := "Expiration date must be in the future"]> errs
              else errs
  | None => errs
  end.

(** The common tail of the three validators. *)
Definition validationOutcome {T} (validationErrors : gmap string string)
  : PollOperationResult T :=
  let hasErrors := negb (bool_decide (validationErrors = ∅)) in
  mkResult (negb hasErrors) None
           (if hasErrors then Some (createFormError "Validation failed" Validation) else None)
           (if hasErrors then Some validationErrors else None).

Definition validateCreatePollData {T} (now : Z) (data : CreatePollData)
  : PollOperationResult T :=
  let e1 := addError "title" (validatePollTitle (new_title data)) ∅ in
  let e2 := match new_description data with
            | Some d => if truthy d
                        then addError "description" (validatePollDescription d) e1
                        else e1
            | None => e1
            end in
  let e3 := addError "options" (validatePollOptions (new_options data)) e2 in
  let e4 := addExpiry now (new_expires_at data) e3 in
  validationOutcome e4.

Definition validateUpdatePollData {T} (now : Z) (data : UpdatePollData)
  : PollOperationResult T :=
  let e1 := match upd_title data with
            | Some t => addError "title" (validatePollTitle t) ∅
            | None => ∅
            end in
  let e2 := match upd_description data with
            | Some d => addError "description" (validatePollDescription d) e1
            | None => e1
            end in
  let e3 := match upd_options data with
            | Some os => addError "options" (validatePollOptions os) e2
            | None => e2
            end in
  let e4 := addExpiry now (upd_expires_at data) e3 in
  validationOutcome e4.

Definition validateVoteData {T} (data : VoteData) : PollOperationResult T :=
  let e1 := if negb (truthy (poll_id data)) || negb (truthy (trim (poll_id data)))
            then <["poll_id" := "Poll ID is required"]> (∅ : gmap string string)
            else ∅ in
  let e2 := if negb (truthy (option_id data)) || negb (truthy (trim (option_id data)))
            then <["option_id" := "Option ID is required"]> e1
            else e1 in
  validationOutcome e2.

(** ** [lib/poll-actions]: poll operations *)

(** [{ ...poll, options, total_votes }] *)
Definition completePoll (poll : PollRow) (options : list PollOption) (total_votes : Z) : Poll :=
  mkPoll (row_id poll) (row_title poll) (row_description poll) options total_votes
         (row_created_by poll) (row_created_at poll) (row_updated_at poll)
         (row_expires_at poll) (row_is_active poll).

(** [x || 0] on a number *)
Definition orZero (x : Z) : Z := if x =? 0 then 0 else x.

(** [poll_options?.reduce((sum, option) => sum + option.votes, 0) || 0] *)
Definition totalVotesOf (poll_options : list PollOption) : Z :=
  orZero (fold_left (fun sum o => sum + votes o) poll_options 0).

(** [description?.trim() || null] *)
Definition trimOrNull (description : option string) : option string :=
  match description with
  | Some d => if truthy (trim d) then Some (trim d) else None
  | None => None
  end.

(** [createPoll].  Requests: 0 inserts the poll, 1 inserts its options,
    2 removes the poll again when the options could not be inserted. *)
Definition createPoll (env : Env) (faults : Faults) (pollData : CreatePollData) (db : DB)
  : DB * PollOperationResult Poll :=
  let checked : PollOperationResult Poll := validateCreatePollData (now env) pollData in
  if negb (success checked) then (db, checked)
  else
    match getAuthenticatedClient env with
    | inl thrown => (db, createErrorResponse (ofFormError thrown))
    | inr user =>
        let pollRecord :=
          mkPollInsert (trim (new_title pollData)) (trimOrNull (new_description pollData))
                       (user_id user) (new_expires_at pollData) true in
        match request (faults 0%nat) (inr (insertPoll (now env) pollRecord db)) with
        | inl pollError => (db, handleDatabaseError pollError)
        | inr (poll, db1) =>
            let optionsData :=
              imap (fun index text => mkOptionInsert (row_id poll) (trim text) 0 (Z.of_nat index))
                   (new_options pollData) in
            match request (faults 1%nat) (insertOptions optionsData db1) with
            | inl optionsError =>
                let db2 := match request (faults 2%nat) (inr (deletePollRow (row_id poll) db1)) with
                           | inl _ => db1
                           | inr cleaned => cleaned
                           end in
                (db2, handleDatabaseError optionsError)
            | inr (options, db2) =>
                (db2, createSuccessResponse (completePoll poll options 0))
            end
        end
    end.

(** [getPoll]: one request, which reads the poll with its options. *)
Definition getPoll (fault : option DbError) (pollId : string) (db : DB)
  : PollOperationResult Poll :=
  match request fault (single (pollsById pollId db)) with
  | inl pollError => handleDatabaseError pollError
  | inr poll =>
      let poll_options := optionsOfPoll (row_id poll) db in
      let totalVotes := totalVotesOf poll_options in
      createSuccessResponse (completePoll poll poll_options totalVotes)
  end.

(** [.order('created_at', { ascending: false })] *)
Definition notOlder (a b : PollRow) : Prop := row_created_at b <= row_created_at a.

#[global] Instance notOlder_dec a b : Decision (notOlder a b).
Proof. unfold notOlder. apply _. Defined.

Definition newestFirst (rows : list PollRow) : list PollRow :=
  merge_sort notOlder rows.

(** [.range(from, to)]: rows [from .. to] of the selection. *)
Definition range {A} (from to : Z) (rows : list A) : list A :=
  take (Z.to_nat (to - from + 1)) (drop (Z.to_nat from) rows).

(** [getPolls(page, limit, userId)] *)
Definition getPolls (fault : option DbError) (page limit : Z) (userId : option string)
    (db : DB) : PollOperationResult PollListResult :=
  let offset := (page - 1) * limit in
  let selected :=
    match userId with
    | Some u => if truthy u then filter (fun p => row_created_by p = u) (polls db) else polls db
    | None => polls db
    end in
  match request fault (inr (range offset (offset + limit - 1) (newestFirst selected),
                            Z.of_nat (length selected))) with
  | inl error => handleDatabaseError error
  | inr (rows, count) =>
      let processedPolls :=
        map (fun poll =>
               let poll_options := optionsOfPoll (row_id poll) db in
               completePoll poll poll_options (totalVotesOf poll_options)) rows in
      createSuccessResponse (mkPollListResult processedPolls (orZero count) page limit)
  end.

(** The value [checkPollOwnership] binds to [user]: the [userId] string it
    was given, or the user object of the session. *)
Inductive OwnerRef :=
| OwnerString (userId : string)
| OwnerUser (user : User).

(** [await getCurrentUser()], bound to [user] *)
Definition currentOwner (env : Env) : FormError + OwnerRef :=
  match getCurrentUser env with
  | inl thrown => inl thrown
  | inr user => inr (OwnerUser user)
  end.

(** [checkPollOwnership(pollId, userId)]: one request.  [user.id] is read
    from [user] whatever it is; on a string that property is undefined and
    equals no [created_by]. *)
Definition checkPollOwnership (env : Env) (fault : option DbError)
    (pollId : string) (userId : option string) (db : DB) : FormError + bool :=
  let user :=
    match userId with
    | Some u => if truthy u then inr (OwnerString u) else currentOwner env
    | None => currentOwner env
    end in
  match user with
  | inl thrown => inl thrown
  | inr user =>
      match request fault (single (pollsById pollId db)) with
      | inl _ => inr false
      | inr poll =>
          match user with
          | OwnerString _ => inr false
          | OwnerUser u => inr (bool_decide (row_created_by poll = user_id u))
          end
      end
  end.

(** A refused request changes nothing: the store after a request that was
    meant to turn [db] into [db']. *)
Definition applied (fault : option DbError) (db db' : DB) : DB :=
  match fault with
  | Some _ => db
  | None => db'
  end.

(** The object [pollUpdate] applied to a row of [polls]. *)
Definition applyPollUpdate (now : Z) (updateData : UpdatePollData) (p : PollRow) : PollRow :=
  mkPollRow (row_id p)
            (match upd_title updateData with Some t => trim t | None => row_title p end)
            (match upd_description updateData with
             | Some d => trimOrNull (Some d)
             | None => row_description p
             end)
            (row_created_by p)
            (row_created_at p)
            now
            (match upd_expires_at updateData with Some t => Some t | None => row_expires_at p end)
            (match upd_is_active updateData with Some a => a | None => row_is_active p end).

(** [from('polls').update(pollUpdate).eq('id', pollId)] *)
Definition updatePollRows (now : Z) (updateData : UpdatePollData) (pollId : string) (db : DB) : DB :=
  mkDB (map (fun p => if decide (row_id p = pollId) then applyPollUpdate now updateData p else p)
            (polls db))
       (poll_options db) (next_id db).

(** [.order('order_index')] *)
Definition byOrderIndex (a b : PollOption) : Prop := order_index a <= order_index b.

#[global] Instance byOrderIndex_dec a b : Decision (byOrderIndex a b).
Proof. unfold byOrderIndex. apply _. Defined.

(** [createErrorResponse(createFormError(what, 'api'), ..)] *)
Definition apiError {T} (what : string) : PollOperationResult T :=
  createErrorResponse (ofFormError (createFormError what Api)).

(** [updatePoll].  Requests: 0 reads the owner, 1 updates the poll; with
    [options] given, 2 deletes the poll's options and 3 inserts the new
    ones; without, 2 reads the options. *)
Definition updatePoll (env : Env) (faults : Faults) (pollId : string)
    (updateData : UpdatePollData) (db : DB) : DB * PollOperationResult Poll :=
  let checked : PollOperationResult Poll := validateUpdatePollData (now env) updateData in
  if negb (success checked) then (db, checked)
  else
    match getAuthenticatedClient env with
    | inl thrown => (db, createErrorResponse (ofFormError thrown))
    | inr user =>
        match checkPollOwnership env (faults 0%nat) pollId (Some (user_id user)) db with
        | inl thrown => (db, createErrorResponse (ofFormError thrown))
        | inr false => (db, apiError "You can only update your own polls")
        | inr true =>
            let db1 := applied (faults 1%nat) db (updatePollRows (now env) updateData pollId db) in
            match request (faults 1%nat) (single (pollsById pollId db1)) with
            | inl pollError => (db1, handleDatabaseError pollError)
            | inr poll =>
                match upd_options updateData with
                | Some newOptions =>
                    match faults 2%nat with
                    | Some deleteError => (db1, handleDatabaseError deleteError)
                    | None =>
                        let db2 := deleteOptionsOfPoll pollId db1 in
                        let optionsData :=
                          imap (fun index text =>
                                  mkOptionInsert pollId (trim text) 0 (Z.of_nat index))
                               newOptions in
                        match request (faults 3%nat) (insertOptions optionsData db2) with
                        | inl optionsError => (db2, handleDatabaseError optionsError)
                        | inr (options, db3) =>
                            (db3, createSuccessResponse
                                    (completePoll poll options (totalVotesOf options)))
                        end
                    end
                | None =>
                    let options :=
                      match request (faults 2%nat)
                              (inr (merge_sort byOrderIndex (optionsOfPoll pollId db1))) with
                      | inl _ => []
                      | inr rows => rows
                      end in
                    (db1, createSuccessResponse (completePoll poll options (totalVotesOf options)))
                end
            end
        end
    end.

(** [deletePoll].  Requests: 0 reads the owner, 1 deletes the poll. *)
Definition deletePoll (env : Env) (faults : Faults) (pollId : string) (db : DB)
  : DB * PollOperationResult unit :=
  match getAuthenticatedClient env with
  | inl thrown => (db, createErrorResponse (ofFormError thrown))
  | inr user =>
      match checkPollOwnership env (faults 0%nat) pollId (Some (user_id user)) db with
      | inl thrown => (db, createErrorResponse (ofFormError thrown))
      | inr false => (db, apiError "You can only delete your own polls")
      | inr true =>
          match faults 1%nat with
          | Some error => (db, handleDatabaseError error)
          | None => (deletePollRow pollId db, mkResult true None None None)
          end
      end
  end.

(** [poll.expires_at && new Date(poll.expires_at) < new Date()] *)
Definition isExpired (now : Z) (expires_at : option Z) : bool :=
  match expires_at with
  | Some t => t <? now
  | None => false
  end.

(** [voteOnPoll].  Requests: 0 reads the active poll, 1 reads the option,
    2 writes the incremented count, 3 is [getPoll].  This is the call run
    alone: its requests follow each other with no request of another call
    in between.  Calls in flight together are followed from one [await] to
    the next by [voteStep] below. *)
Definition voteOnPoll (env : Env) (faults : Faults) (voteData : VoteData) (db : DB)
  : DB * PollOperationResult Poll :=
  let checked : PollOperationResult Poll := validateVoteData voteData in
  if negb (success checked) then (db, checked)
  else
    match getAuthenticatedClient env with
    | inl thrown => (db, createErrorResponse (ofFormError thrown))
    | inr _ =>
        match request (faults 0%nat) (single (activePollsById (poll_id voteData) db)) with
        | inl _ => (db, apiError "Poll not found or inactive")
        | inr poll =>
            if isExpired (now env) (row_expires_at poll)
            then (db, apiError "This poll has expired")
            else
              match request (faults 1%nat)
                      (single (optionsByIdAndPoll (option_id voteData) (poll_id voteData) db)) with
              | inl _ => (db, apiError "Invalid option")
              | inr opt =>
                  match faults 2%nat with
                  | Some storeError => (db, handleDatabaseError storeError)
                  | None =>
                      let db' := setVotes (option_id voteData) (votes opt + 1) db in
                      (db', getPoll (faults 3%nat) (poll_id voteData) db')
                  end
              end
        end
    end.

(** ** [voteOnPoll] between its [await]s

    A call in flight is a task; each step runs the call up to its next
    [await] on the store, so that the requests of several calls can be
    interleaved.  The option row read by request 1 is carried along: the
    count written by request 2 is computed from it. *)

Inductive VoteTask :=
| VoteCalled (voteData : VoteData)
| VoteAwaitsPoll (voteData : VoteData)
| VoteAwaitsOption (voteData : VoteData)
| VoteAwaitsUpdate (voteData : VoteData) (opt : PollOption)
| VoteAwaitsSnapshot (voteData : VoteData)
| VoteReturned (result : PollOperationResult Poll).

Definition voteStep (env : Env) (fault : option DbError) (task : VoteTask) (db : DB)
  : DB * VoteTask :=
  match task with
  | VoteCalled voteData =>
      let checked : PollOperationResult Poll := validateVoteData voteData in
      if negb (success checked) then (db, VoteReturned checked)
      else
        match getAuthenticatedClient env with
        | inl thrown => (db, VoteReturned (createErrorResponse (ofFormError thrown)))
        | inr _ => (db, VoteAwaitsPoll voteData)
        end
  | VoteAwaitsPoll voteData =>
      match request fault (single (activePollsById (poll_id voteData) db)) with
      | inl _ => (db, VoteReturned (apiError "Poll not found or inactive"))
      | inr poll =>
          if isExpired (now env) (row_expires_at poll)
          then (db, VoteReturned (apiError "This poll has expired"))
          else (db, VoteAwaitsOption voteData)
      end
  | VoteAwaitsOption voteData =>
      match request fault
              (single (optionsByIdAndPoll (option_id voteData) (poll_id voteData) db)) with
      | inl _ => (db, VoteReturned (apiError "Invalid option"))
      | inr opt => (db, VoteAwaitsUpdate voteData opt)
      end
  | VoteAwaitsUpdate voteData opt =>
      match fault with
      | Some storeError => (db, VoteReturned (handleDatabaseError storeError))
      | None => (setVotes (option_id voteData) (votes opt + 1) db, VoteAwaitsSnapshot voteData)
      end
  | VoteAwaitsSnapshot voteData =>
      (db, VoteReturned (getPoll fault (poll_id voteData) db))
  | VoteReturned result => (db, VoteReturned result)
  end.

(** One call run alone: the step before the first request, then the four
    requests with their faults. *)
Definition runAlone (env : Env) (faults : Faults) (voteData : VoteData) (db : DB)
  : DB * VoteTask :=
  let '(db0, t0) := voteStep env None (VoteCalled voteData) db in
  let '(db1, t1) := voteStep env (faults 0%nat) t0 db0 in
  let '(db2, t2) := voteStep env (faults 1%nat) t1 db1 in
  let '(db3, t3) := voteStep env (faults 2%nat) t2 db2 in
  voteStep env (faults 3%nat) t3 db3.

(** Several calls in flight over one store.  A schedule names, step by
    step, the call that proceeds; the store answers every request. *)
Definition stepTask (env : Env) (i : nat) (st : DB * list VoteTask) : DB * list VoteTask :=
  match snd st !! i with
  | Some task =>
      let '(db', task') := voteStep env None task (fst st) in
      (db', <[i := task']> (snd st))
  | None => st
  end.

Definition runSchedule (env : Env) (schedule : list nat) (st : DB * list VoteTask)
  : DB * list VoteTask :=
  fold_left (fun st i => stepTask env i st) schedule st.

Definition returnedSuccess (task : VoteTask) : bool :=
  match task with
  | VoteReturned result => success result
  | _ => false
  end.

(** The count of an option in the store ([None] when it has no such row). *)
Definition votesOf (optionId : string) (db : DB) : option Z :=
  votes <$> head (filter (fun o => opt_id o = optionId) (poll_options db)).

(** ** The in-memory vote route ([POST /api/polls/:id/vote])

    The route keeps its polls in a module-level object keyed by poll id and
    increments the count in place.  Everything after [await request.json()]
    runs without suspension. *)

Record MemOption := mkMemOption {
  mo_id : string;
  mo_text : string;
  mo_votes : Z
}.

Record MemPoll := mkMemPoll {
  mp_id : string;
  mp_title : string;
  mp_options : list MemOption
}.

Inductive RouteResponse :=
| Ok200 (poll : MemPoll)            (* [{ success: true, poll }] *)
| NotFound404 (error : string)
| BadRequest400 (error : string).

(** [poll.options.find(opt => opt.id === optionId)] followed by
    [option.votes += 1] on the element found. *)
Fixpoint incrementFound (optionId : string) (opts : list MemOption)
  : option (list MemOption) :=
  match opts with
  | [] => None
  | o :: rest =>
      if decide (mo_id o = optionId)
      then Some (mkMemOption (mo_id o) (mo_text o) (mo_votes o + 1) :: rest)
      else cons o <$> incrementFound optionId rest
  end.

(** A socket of the server's [clients] set. *)
Record Client := mkClient {
  client : nat;
  readyState : Z
}.

Record VoteUpdate := mkVoteUpdate {
  msg_pollId : string;
  msg_poll : MemPoll
}.

(** The [VOTE_UPDATE] sends: one to every client whose [readyState] is
    OPEN (1); none when there is no server. *)
Definition broadcast (wss : option (list Client)) (pollId : string) (poll : MemPoll)
  : list (nat * VoteUpdate) :=
  match wss with
  | Some clients =>
      map (fun c => (client c, mkVoteUpdate pollId poll))
          (filter (fun c => readyState c = 1) clients)
  | None => []
  end.

(** The names every plain object inherits from [Object.prototype].  The
    route keeps its polls in a plain object, so that [polls[pollId]] finds
    a value under these names too, one that is no poll and has no
    [options]. *)
Definition objectPrototypeKeys : list string :=
  [ "constructor"; "hasOwnProperty"; "isPrototypeOf"; "propertyIsEnumerable";
    "toLocaleString"; "toString"; "valueOf"; "__proto__";
    "__defineGetter__"; "__defineSetter__"; "__lookupGetter__"; "__lookupSetter__" ].

(** The [POST] handler; [body] is the [optionId] of the request body,
    [None] when the body does not parse (a body without [optionId] fares
    as one whose [optionId] matches no option).  [polls] holds the
    properties of the object itself.  Under an inherited name the lookup
    finds a value without [options]: [poll.options.find] throws, and the
    [catch] answers 400.  A socket that is OPEN takes the message ([send]
    returns). *)
Definition POST (wss : option (list Client)) (pollId : string) (body : option string)
    (polls : gmap string MemPoll)
  : gmap string MemPoll * list (nat * VoteUpdate) * RouteResponse :=
  match body with
  | None => (polls, [], BadRequest400 "Invalid request")
  | Some optionId =>
      match polls !! pollId with
      | None =>
          if bool_decide (pollId ∈ objectPrototypeKeys)
          then (polls, [], BadRequest400 "Invalid request")
          else (polls, [], NotFound404 "Poll not found")
      | Some poll =>
          match incrementFound optionId (mp_options poll) with
          | None => (polls, [], NotFound404 "Option not found")
          | Some opts =>
              let poll' := mkMemPoll (mp_id poll) (mp_title poll) opts in
              (<[pollId := poll']> polls, broadcast wss pollId poll', Ok200 poll')
          end
      end
  end.

(** ** The Broadcast Hub *)

(** Modelled from the spec: the connection registry of the Broadcast Hub
    and its operations [register] and [unregister] (section 4.2).  The
    repository has no registry of its own: it only iterates over the
    [clients] set kept by the WebSocket server.  A connection is an opaque
    handle; the registry is the set of registered handles. *)
Definition register (connection : nat) (registry : gset nat) : gset nat :=
  {[connection]} ∪ registry.

(** Modelled from the spec: [unregister(connection)] removes a connection
    from the registry (section 4.2). *)
Definition unregister (connection : nat) (registry : gset nat) : gset nat :=
  registry ∖ {[connection]}.

(** ** Vocabulary of the statements *)

(** The sum of the [votes] fields of a list of options. *)
Fixpoint sumVotes (opts : list PollOption) : Z :=
  match opts with
  | [] => 0
  | o :: rest => votes o + sumVotes rest
  end.

(** An option text after trimming whitespace and lowercasing. *)
Definition normalized (opt : string) : string := toLowerCase (trim opt).

(** [r] is a failure whose error carries the message [msg]. *)
Definition failsWith {T} (msg : string) (r : PollOperationResult T) : Prop :=
  success r = false /\ message <$> error r = Some msg.

(** [r] is the failure the validators produce, with an entry for [key]. *)
Definition rejectedFor {T} (key : string) (r : PollOperationResult T) : Prop :=
  success r = false
  /\ error r = Some (createFormError "Validation failed" Validation)
  /\ exists errs, validationErrors r = Some errs /\ is_Some (errs !! key).

(** A blank identifier: empty, or whitespace only. *)
Definition blank (s : string) : Prop := truthy (trim s) = false.

(** The call fails with the message [msg] and leaves the store as it was. *)
Definition refusedWith (msg : string) (db : DB) (call : DB * PollOperationResult Poll) : Prop :=
  fst call = db /\ failsWith msg (snd call).

(** The primary keys of the two tables. *)
Definition uniqueIds (db : DB) : Prop :=
  NoDup (map row_id (polls db)) /\ NoDup (map opt_id (poll_options db)).

(** The [Poll] values handed out by [getPoll], [getPolls] and [createPoll]. *)
Inductive Returned : Poll -> Prop :=
| Returned_getPoll fault pollId db p :
    data (getPoll fault pollId db) = Some p -> Returned p
| Returned_getPolls fault page limit userId db r p :
    data (getPolls fault page limit userId db) = Some r ->
    p ∈ list_polls r -> Returned p
| Returned_createPoll env faults pollData db p :
    data (snd (createPoll env faults pollData db)) = Some p -> Returned p.

(** The vote [voteData] can be cast: its poll is in the store, active and
    not expired, and [o] is the option it names. *)
Definition votable (env : Env) (voteData : VoteData) (db : DB) (o : PollOption) : Prop :=
  uniqueIds db
  /\ (exists p, p ∈ polls db /\ row_id p = poll_id voteData /\ row_is_active p = true
                /\ isExpired (now env) (row_expires_at p) = false)
  /\ o ∈ poll_options db
  /\ opt_id o = option_id voteData /\ opt_poll_id o = poll_id voteData.

(** [m] calls of [voteOnPoll], each run to its end before the next starts;
    the result says whether all of them reported success. *)
Fixpoint votesInTurn (env : Env) (voteData : VoteData) (m : nat) (db : DB) : DB * bool :=
  match m with
  | O => (db, true)
  | S m' =>
      let '(db1, r) := voteOnPoll env no_faults voteData db in
      let '(db2, ok) := votesInTurn env voteData m' db1 in
      (db2, success r && ok)
  end.

(** The count of an option in the object of the in-memory route. *)
Definition memVotesOf (pollId optionId : string) (polls : gmap string MemPoll) : option Z :=
  match polls !! pollId with
  | Some poll => mo_votes <$> head (filter (fun o => mo_id o = optionId) (mp_options poll))
  | None => None
  end.

Definition isOk200 (response : RouteResponse) : bool :=
  match response with
  | Ok200 _ => true
  | _ => false
  end.

(** [m] requests to the in-memory route for the same option, handled one
    after the other as the event loop does. *)
Fixpoint postsInTurn (wss : option (list Client)) (pollId optionId : string) (m : nat)
    (polls : gmap string MemPoll) : gmap string MemPoll * bool :=
  match m with
  | O => (polls, true)
  | S m' =>
      let '(polls1, _, response) := POST wss pollId (Some optionId) polls in
      let '(polls2, ok) := postsInTurn wss pollId optionId m' polls1 in
      (polls2, isOk200 response && ok)
  end.

(** ** Sample data *)

Definition lunch : PollRow := mkPollRow "p1" "Lunch?" None "u1" 100 100 None true.
Definition closed : PollRow := mkPollRow "p2" "Dinner?" None "u1" 100 100 None false.
Definition ended : PollRow := mkPollRow "p3" "Brunch?" None "u1" 100 100 (Some 500) true.
Definition lapsed : PollRow := mkPollRow "p4" "Supper?" None "u1" 100 100 (Some 500) false.

Definition pizza (n : Z) : PollOption := mkPollOption "a" "p1" "Pizza" n 0.
Definition sushi : PollOption := mkPollOption "b" "p1" "Sushi" 0 1.
Definition toast : PollOption := mkPollOption "c" "p3" "Toast" 4 0.

(** A store in which option ["a"] of poll ["p1"] stands at [n] votes. *)
Definition store (n : Z) : DB :=
  mkDB [lunch; closed; ended; lapsed] [pizza n; sushi; toast] 0.

(** A signed-in caller at time 1000. *)
Definition alice : Env := mkEnv (Some (mkUser "u1")) 1000.

(** The store answers every request of a call but the fourth, the read of
    [getPoll]. *)
Definition last_read_fails : Faults :=
  fun k => if Nat.eqb k 3 then Some (mkDbError "08006" "connection failure") else None.

(** ** [lib/poll-actions]: the remaining operations *)

(** [isAuthenticated]: whether [getAuthenticatedClient] yields a user; the
    exception is caught. *)
Definition isAuthenticated (env : Env) : bool :=
  match getAuthenticatedClient env with
  | inr _ => true
  | inl _ => false
  end.

(** [requireAuth]: the user, or the exception of [getAuthenticatedClient];
    the test [!user] that follows is past a user that is there. *)
Definition requireAuth (env : Env) : FormError + User :=
  getAuthenticatedClient env.

Record PollStats := mkPollStats {
  total_polls : Z;
  active_polls : Z;
  stats_total_votes : Z;     (* the field [total_votes] of the source *)
  user_polls : Z
}.

(** The polls [getPolls] and [getPollStats] select: those of [userId] when
    one is given, all of them otherwise. *)
Definition pollsOf (userId : option string) (db : DB) : list PollRow :=
  match userId with
  | Some u => if truthy u then filter (fun p => row_created_by p = u) (polls db) else polls db
  | None => polls db
  end.

(** [from('poll_options').select('votes').in('poll_id', pollIds)] *)
Definition optionsIn (pollIds : list string) (db : DB) : list PollOption :=
  filter (fun o => opt_poll_id o ∈ pollIds) (poll_options db).

(** [getPollStats(userId)].  Requests: 0 reads the polls, 1 the counts of
    their options. *)
Definition getPollStats (faults : Faults) (userId : option string) (db : DB)
  : PollOperationResult PollStats :=
  match request (faults 0%nat) (inr (pollsOf userId db)) with
  | inl pollsError => handleDatabaseError pollsError
  | inr selected =>
      let pollIds := map row_id selected in
      match request (faults 1%nat) (inr (optionsIn pollIds db)) with
      | inl votesError => handleDatabaseError votesError
      | inr counted =>
          createSuccessResponse
            (mkPollStats
               (orZero (Z.of_nat (length selected)))
               (orZero (Z.of_nat (length (filter (fun p => row_is_active p = true) selected))))
               (orZero (fold_left (fun sum v => sum + votes v) counted 0))
               (match userId with
                | Some u => if truthy u then orZero (Z.of_nat (length selected)) else 0
                | None => 0
                end))
      end
  end.

(** [isPollActive(poll)], at the time [now] *)
Definition isPollActive (now : Z) (poll : Poll) : bool :=
  if negb (is_active poll) then false
  else if isExpired now (expires_at poll) then false
  else true.

(** [getPollOption(poll, optionId)]: the first option with the identifier *)
Definition getPollOption (poll : Poll) (optionId : string) : option PollOption :=
  List.find (fun o => bool_decide (opt_id o = optionId)) (options poll).

(** ** Vocabulary of the statements, continued *)

Definition emptyStore : DB := mkDB [] [] 0.

(** The identifiers the store has not handed out yet occur nowhere in it. *)
Definition freshIds (db : DB) : Prop :=
  forall k, (next_id db <= k)%nat ->
    (gen_id k ∉ map row_id (polls db))
    /\ (gen_id k ∉ map opt_id (poll_options db))
    /\ (gen_id k ∉ map opt_poll_id (poll_options db)).

(** A well-formed store: primary keys, the foreign key of the options, fresh
    identifiers to come, and no negative count. *)
Definition wellFormed (db : DB) : Prop :=
  uniqueIds db
  /\ (forall o, o ∈ poll_options db -> opt_poll_id o ∈ map row_id (polls db))
  /\ freshIds db
  /\ (forall o, o ∈ poll_options db -> 0 <= votes o).

(** The total [getPoll] reports for a poll (0 when it reports none). *)
Definition reportedTotal (pollId : string) (db : DB) : Z :=
  match data (getPoll None pollId db) with
  | Some p => total_votes p
  | None => 0
  end.

Fixpoint sumZ (l : list Z) : Z :=
  match l with
  | [] => 0
  | x :: rest => x + sumZ rest
  end.

(** ** [lib/error-handling]: the remaining helpers *)

(** [s.includes(sub)] *)
Fixpoint includes (s sub : string) : bool :=
  String.prefix sub s
  || match s with
     | EmptyString => false
     | String _ rest => includes rest sub
     end.

(** [isRetryableError] *)
Definition isRetryableError (error : FormError) : bool :=
  bool_decide (type error = Network)
  || (bool_decide (type error = Api) && includes (message error) "Server error").

(** [formatErrorMessage] *)
Definition formatErrorMessage (error : FormError) : string :=
  match field error with
  | Some f => if truthy f then f ++ ": " ++ message error else message error
  | None => message error
  end.

(** The error objects the form helpers read: what [parseApiError] reads,
    and the properties [type], [field] and [error_description]. *)
Record AnyError := mkAnyError {
  any_value : ErrorValue;
  any_type : option string;
  any_field : option string;
  any_error_description : option string
}.

(** [error.message || error.error_description || fallback] *)
Definition messageOf (error : AnyError) (fallback : string) : string :=
  orElse (ev_message (any_value error)) (orElse (any_error_description error) fallback).

(** [parseSupabaseAuthError] *)
Definition parseSupabaseAuthError (error : AnyError) : string :=
  let message := messageOf error "An error occurred" in
  if includes message "already registered" || includes message "User already registered"
  then "This email is already registered. Please sign in instead."
  else if includes message "Invalid email"
  then "Please enter a valid email address."
  else if includes message "Password should be at least"
  then "Password must be at least 6 characters long."
  else if includes message "Unable to validate email address"
  then "Unable to validate email address. Please check your email and try again."
  else if includes message "Signup is disabled"
  then "Account creation is currently disabled. Please contact support."
  else if includes message "rate limit" || includes message "too many requests"
  then "Too many attempts. Please wait a moment and try again."
  else if includes message "Invalid login credentials"
  then "Invalid email or password. Please check your credentials and try again."
  else if includes message "Email not confirmed"
  then "Please check your email and click the confirmation link before signing in."
  else if includes message "User not found"
  then "No account found with this email address. Please sign up first."
  else message.

(** The test of [handleFormError] for an authentication error of the
    backend: [error.message && (error.message.includes(..) || ..)]. *)
Definition looksLikeAuthError (error : AnyError) : bool :=
  match ev_message (any_value error) with
  | Some m =>
      truthy m
      && (includes m "already registered"
          || includes m "Invalid email"
          || includes m "Password should be at least"
          || includes m "Unable to validate email address"
          || includes m "Signup is disabled"
          || includes m "rate limit"
          || includes m "Invalid login credentials"
          || includes m "Email not confirmed"
          || includes m "User not found")
  | None => false
  end.

(** [handleFormError(error, fieldValidators)]; [withValidators] says whether
    the second argument is given.  In the first case the message is the
    error's own [message]. *)
Definition handleFormError (error : AnyError) (withValidators : bool) : FormError :=
  match any_type error, any_field error with
  | Some t, Some f =>
      if String.eqb t "validation" && truthy f && withValidators
      then mkFormError (Some f) (default "" (ev_message (any_value error))) Validation
      else if looksLikeAuthError error
      then mkFormError None (parseSupabaseAuthError error) Api
      else parseApiError (any_value error)
  | _, _ =>
      if looksLikeAuthError error
      then mkFormError None (parseSupabaseAuthError error) Api
      else parseApiError (any_value error)
  end.

(** The messages [parseSupabaseAuthError] substitutes for those of the
    backend. *)
Definition authMessages : list string :=
  [ "This email is already registered. Please sign in instead.";
    "Please enter a valid email address.";
    "Password must be at least 6 characters long.";
    "Unable to validate email address. Please check your email and try again.";
    "Account creation is currently disabled. Please contact support.";
    "Too many attempts. Please wait a moment and try again.";
    "Invalid email or password. Please check your credentials and try again.";
    "Please check your email and click the confirmation link before signing in.";
    "No account found with this email address. Please sign up first." ].

(** ** [lib/error-handling]: [withRetry] *)

Record RetryConfig := mkRetryConfig {
  maxAttempts : Z;
  delay : Z;
  backoffMultiplier : Z
}.

Definition defaultRetryConfig : RetryConfig := mkRetryConfig 3 1000 2.

(** What a run of [withRetry] does: its outcome (the value returned, or
    [lastError] thrown, which is undefined when the loop body never ran),
    the number of calls of [fn], and the delays waited, in order. *)
Record RetryRun (T : Type) := mkRetryRun {
  outcome : option ErrorValue + T;
  calls : nat;
  waits : list Z
}.
Arguments mkRetryRun {T}.
Arguments outcome {T}.
Arguments calls {T}.
Arguments waits {T}.

(** The loop of [withRetry] from the attempt numbered [attempt], with
    [remaining] iterations to go.  [fn k] is what the [k]-th call of the
    function (counting from 0) produces: a value, or the error thrown. *)
Fixpoint retryLoop {T} (fn : nat -> ErrorValue + T) (config : RetryConfig)
    (remaining : nat) (attempt : nat) (lastError : option ErrorValue) : RetryRun T :=
  match remaining with
  | O => mkRetryRun (inl lastError) 0 []
  | S rest =>
      match fn (attempt - 1)%nat with
      | inr value => mkRetryRun (inr value) 1 []
      | inl error =>
          if Z.of_nat attempt =? maxAttempts config
          then mkRetryRun (inl (Some error)) 1 []
          else if negb (isRetryableError (parseApiError error))
          then mkRetryRun (inl (Some error)) 1 []
          else
            let wait := delay config * backoffMultiplier config ^ (Z.of_nat attempt - 1) in
            let run := retryLoop fn config rest (S attempt) (Some error) in
            mkRetryRun (outcome run) (S (calls run)) (wait :: waits run)
      end
  end.

(** [withRetry(fn, config)], for a whole number of attempts *)
Definition withRetry {T} (fn : nat -> ErrorValue + T) (config : RetryConfig) : RetryRun T :=
  retryLoop fn config (Z.to_nat (maxAttempts config)) 1 None.

(** An error carrying an HTTP response with the status [status]. *)
Definition httpError (status : Z) : ErrorValue :=
  mkErrorValue (Some (status, None)) false None None.

(** A result that, when it is a failure, says so: it carries an error with a
    non-empty message, of type ['validation'] with the message "Validation
    failed" or of type ['general'], which [isRetryableError] does not class
    as one to retry. *)
Definition reported {T} (r : PollOperationResult T) : Prop :=
  success r = false ->
  exists e, error r = Some e
            /\ truthy (message e) = true
            /\ ((type e = Validation /\ message e = "Validation failed") \/ type e = General)
            /\ isRetryableError e = false.

(** ** [components/forms/NewPollForm]: the form's data and its handlers

    The component keeps [formData] in React state; each handler below is
    the state it sets from the state of the render it runs in. *)

Module NewPollForm.

Record PollFormData := mkPollFormData {
  form_title : string;
  form_description : string;
  form_options : list string
}.

(** The state the form starts in. *)
Definition initialFormData : PollFormData := mkPollFormData "" "" [""; ""].

(** The [newErrors] that [validateForm] records. *)
Definition newErrors (formData : PollFormData) : gmap string string :=
  let e1 := addError "title" (validatePollTitle (form_title formData)) ∅ in
  let e2 := addError "description" (validatePollDescription (form_description formData)) e1 in
  addError "options" (validatePollOptions (form_options formData)) e2.

(** [validateForm]: [Object.keys(newErrors).length === 0] *)
Definition validateForm (formData : PollFormData) : bool :=
  bool_decide (newErrors formData = ∅).

Definition handleTitleChange (value : string) (formData : PollFormData) : PollFormData :=
  mkPollFormData value (form_description formData) (form_options formData).

Definition handleDescriptionChange (value : string) (formData : PollFormData)
  : PollFormData :=
  mkPollFormData (form_title formData) value (form_options formData).

(** [handleOptionChange(index, value)], for the index of an existing
    option, as the inputs of the form pass it.  Beyond the end the
    assignment would leave holes in the array; this is not followed here
    and the answer is [None]. *)
Definition handleOptionChange (index : nat) (value : string) (formData : PollFormData)
  : option PollFormData :=
  if (index <? length (form_options formData))%nat
  then Some (mkPollFormData (form_title formData) (form_description formData)
                            (<[index := value]> (form_options formData)))
  else None.

Definition addOption (formData : PollFormData) : PollFormData :=
  if (length (form_options formData) <? 10)%nat
  then mkPollFormData (form_title formData) (form_description formData)
                      (form_options formData ++ [""])%list
  else formData.

(** [removeOption(index)]: [options.filter((_, i) => i !== index)] drops
    the entry at [index], if there is one. *)
Definition removeOption (index : nat) (formData : PollFormData) : PollFormData :=
  if (2 <? length (form_options formData))%nat
  then mkPollFormData (form_title formData) (form_description formData)
                      (delete index (form_options formData))
  else formData.

(** What the user does to the form. *)
Inductive FormEvent :=
| TitleChange (value : string)
| DescriptionChange (value : string)
| OptionChange (index : nat) (value : string)
| AddOption
| RemoveOption (index : nat).

Definition handleEvent (event : FormEvent) (formData : PollFormData)
  : option PollFormData :=
  match event with
  | TitleChange value => Some (handleTitleChange value formData)
  | DescriptionChange value => Some (handleDescriptionChange value formData)
  | OptionChange index value => handleOptionChange index value formData
  | AddOption => Some (addOption formData)
  | RemoveOption index => Some (removeOption index formData)
  end.

(** The form after a sequence of events, each handled in the render that
    follows the previous one. *)
Fixpoint handleEvents (events : list FormEvent) (formData : PollFormData)
  : option PollFormData :=
  match events with
  | [] => Some formData
  | event :: rest =>
      match handleEvent event formData with
      | Some formData' => handleEvents rest formData'
      | None => None
      end
  end.

(** The data the form would submit to [createPoll]. *)
Definition submitted (formData : PollFormData) : CreatePollData :=
  mkCreatePollData (form_title formData) (Some (form_description formData))
                   (form_options formData) None.

End NewPollForm.

(** ** The in-memory route: [GET] *)

Inductive GetResponse :=
| Found (poll : MemPoll)             (* status 200, [{ poll }] *)
| FoundInherited                     (* status 200, with no poll in the body *)
| Missing (error : string).          (* status 404 *)

(** The [GET] handler of the route.  Under a name inherited from
    [Object.prototype] the lookup finds a value that is not falsy, and the
    handler answers 200 with it; serialised, it holds no poll. *)
Definition GET (pollId : string) (polls : gmap string MemPoll) : GetResponse :=
  match polls !! pollId with
  | None =>
      if bool_decide (pollId ∈ objectPrototypeKeys)
      then FoundInherited
      else Missing "Poll not found"
  | Some poll => Found poll
  end.

(** ** Regular expressions

    The patterns of the validators, and [RegExp.prototype.test] on them.
    The patterns use no capture, back-reference or flag, so that [test]
    only asks whether some way of matching exists; it is computed with
    derivatives. *)

Inductive RegExp :=
| NoMatch                               (* matches nothing *)
| Epsilon                               (* matches the empty string *)
| Class (accepts : ascii -> bool)     (* one character of a class *)
| Cat (r1 r2 : RegExp)                (* [r1 r2] *)
| Or (r1 r2 : RegExp)                 (* [r1|r2] *)
| Many (r : RegExp).                  (* [r*] *)

(** [r+] *)
Definition Some1 (r : RegExp) : RegExp := Cat r (Many r).

(** Does [r] match the empty string? *)
Fixpoint nullable (r : RegExp) : bool :=
  match r with
  | NoMatch => false
  | Epsilon => true
  | Class _ => false
  | Cat r1 r2 => nullable r1 && nullable r2
  | Or r1 r2 => nullable r1 || nullable r2
  | Many _ => true
  end.

(** What is left of [r] after the character [c]. *)
Fixpoint derive (c : ascii) (r : RegExp) : RegExp :=
  match r with
  | NoMatch => NoMatch
  | Epsilon => NoMatch
  | Class accepts => if accepts c then Epsilon else NoMatch
  | Cat r1 r2 =>
      if nullable r1
      then Or (Cat (derive c r1) r2) (derive c r2)
      else Cat (derive c r1) r2
  | Or r1 r2 => Or (derive c r1) (derive c r2)
  | Many r1 => Cat (derive c r1) (Many r1)
  end.

(** [/^r$/.test(s)]: [r] matches the whole of [s]. *)
Fixpoint testWhole (r : RegExp) (s : string) : bool :=
  match s with
  | EmptyString => nullable r
  | String c rest => testWhole (derive c r) rest
  end.

(** [r] matches a prefix of [s]. *)
Fixpoint testPrefix (r : RegExp) (s : string) : bool :=
  nullable r
  || match s with
     | EmptyString => false
     | String c rest => testPrefix (derive c r) rest
     end.

(** [/(?=r)/.test(s)]: at some position of [s], [r] matches a prefix of
    what follows. *)
Fixpoint testAhead (r : RegExp) (s : string) : bool :=
  testPrefix r s
  || match s with
     | EmptyString => false
     | String _ rest => testAhead r rest
     end.

(** The strings a pattern matches. *)
Inductive Matches : RegExp -> string -> Prop :=
| Matches_Empty : Matches Epsilon ""
| Matches_Class accepts c : accepts c = true -> Matches (Class accepts) (String c "")
| Matches_Cat r1 r2 s1 s2 :
    Matches r1 s1 -> Matches r2 s2 -> Matches (Cat r1 r2) (s1 ++ s2)
| Matches_Or_l r1 r2 s : Matches r1 s -> Matches (Or r1 r2) s
| Matches_Or_r r1 r2 s : Matches r2 s -> Matches (Or r1 r2) s
| Matches_Many_nil r : Matches (Many r) ""
| Matches_Many_cons r s1 s2 :
    Matches r s1 -> Matches (Many r) s2 -> Matches (Many r) (s1 ++ s2).

(** Character classes of the patterns (ASCII). *)
Definition between (lo hi : nat) (c : ascii) : bool :=
  Nat.leb lo (nat_of_ascii c) && Nat.leb (nat_of_ascii c) hi.

(** [[a-z]], [[A-Z]], [\d] *)
Definition isLower : ascii -> bool := between 97 122.
Definition isUpper : ascii -> bool := between 65 90.
Definition isDigit : ascii -> bool := between 48 57.

(** [[@$!%*?&]] *)
Definition isSpecial (c : ascii) : bool :=
  existsb (Ascii.eqb c) ["@"; "$"; "!"; "%"; "*"; "?"; "&"]%char.

(** [.]: any character but a line terminator (LF, CR) *)
Definition isDot (c : ascii) : bool :=
  negb (Nat.eqb (nat_of_ascii c) 10 || Nat.eqb (nat_of_ascii c) 13).

(** [[^\s@]] *)
Definition isAddressChar (c : ascii) : bool :=
  negb (isWhiteSpace c || Ascii.eqb c "@").

(** [[a-zA-Z\s\-']] *)
Definition isNameChar (c : ascii) : bool :=
  isLower c || isUpper c || isWhiteSpace c || Ascii.eqb c "-" || Ascii.eqb c "'".

(** [/^[^\s@]+@[^\s@]+\.[^\s@]+$/] *)
Definition emailRegex : RegExp :=
  Cat (Some1 (Class isAddressChar))
      (Cat (Class (Ascii.eqb "@"))
           (Cat (Some1 (Class isAddressChar))
                (Cat (Class (Ascii.eqb "."))
                     (Some1 (Class isAddressChar))))).

(** [/^[a-zA-Z\s\-']+$/] *)
Definition nameRegex : RegExp := Some1 (Class isNameChar).

(** The pattern inside [/(?=.*[...])/], for a class. *)
Definition anywhere (accepts : ascii -> bool) : RegExp :=
  Cat (Many (Class isDot)) (Class accepts).

(** ** [lib/validation]: e-mail, password and name *)

Definition validateEmail (email : string) : ValidationResult :=
  if negb (truthy (trim email)) then invalid "Email is required"
  else if negb (testWhole emailRegex email) then invalid "Please enter a valid email address"
  else valid.

Definition validatePassword (password : string) : ValidationResult :=
  if negb (truthy password) then invalid "Password is required"
  else if strlen password <? 8 then invalid "Password must be at least 8 characters long"
  else if negb (testAhead (anywhere isLower) password)
  then invalid "Password must contain at least one lowercase letter"
  else if negb (testAhead (anywhere isUpper) password)
  then invalid "Password must contain at least one uppercase letter"
  else if negb (testAhead (anywhere isDigit) password)
  then invalid "Password must contain at least one number"
  else if negb (testAhead (anywhere isSpecial) password)
  then invalid "Password must contain at least one special character (@$!%*?&)"
  else valid.

Definition validateName (name : string) : ValidationResult :=
  if negb (truthy (trim name)) then invalid "Name is required"
  else if strlen (trim name) <? 2 then invalid "Name must be at least 2 characters long"
  else if 50 <? strlen (trim name) then invalid "Name must be less than 50 characters"
  else if negb (testWhole nameRegex (trim name))
  then invalid "Name can only contain letters, spaces, hyphens, and apostrophes"
  else valid.

(** ** The sign-up page: its own validators

    They answer with the message, or [undefined] ([None]) when the value
    passes. *)

Module SignUpPage.

Definition validateEmail (email : string) : option string :=
  if negb (truthy (trim email)) then Some "Email is required"
  else if negb (testWhole emailRegex email) then Some "Please enter a valid email address"
  else None.

Definition validatePassword (password : string) : option string :=
  if negb (truthy password) then Some "Password is required"
  else if strlen password <? 8 then Some "Password must be at least 8 characters long"
  else if negb (testAhead (anywhere isLower) password)
  then Some "Password must contain at least one lowercase letter"
  else if negb (testAhead (anywhere isUpper) password)
  then Some "Password must contain at least one uppercase letter"
  else if negb (testAhead (anywhere isDigit) password)
  then Some "Password must contain at least one number"
  else if negb (testAhead (anywhere isSpecial) password)
  then Some "Password must contain at least one special character (@$!%*?&)"
  else None.

Definition validateName (name : string) : option string :=
  if negb (truthy (trim name)) then Some "Name is required"
  else if strlen (trim name) <? 2 then Some "Name must be at least 2 characters long"
  else None.

End SignUpPage.

(** Some character of [s] is in the class. *)
Fixpoint contains (accepts : ascii -> bool) (s : string) : bool :=
  match s with
  | EmptyString => false
  | String c rest => accepts c || contains accepts rest
  end.

(** Every character of [s] is in the class. *)
Fixpoint allOf (accepts : ascii -> bool) (s : string) : bool :=
  match s with
  | EmptyString => true
  | String c rest => accepts c && allOf accepts rest
  end.

(** A non-empty string without whitespace and without [@]. *)
Definition addressPart (s : string) : Prop :=
  s <> "" /\ allOf isAddressChar s = true.

(** ** [lib/validation]: whole forms

    An object is given by its entries, in the order [Object.entries] lists
    them; for field names that are not array indices this is the order in
    which they were set. *)

(** [ValidationErrors]: a message, or [undefined], per field. *)
Definition ValidationErrors : Type := list (string * option string).

(** [errors[field] = value] *)
Fixpoint setError (field : string) (value : option string) (errors : ValidationErrors)
  : ValidationErrors :=
  match errors with
  | [] => [(field, value)]
  | (f, v) :: rest =>
      if String.eqb f field then (f, value) :: rest
      else (f, v) :: setError field value rest
  end.

(** [validateForm(data, validators)]; [data field] is [data[field]], which
    the type of [validators] makes a field of [data]. *)
Definition validateForm (data : string -> string)
    (validators : list (string * (string -> ValidationResult))) : ValidationErrors :=
  fold_left
    (fun errors '(field, validator) =>
       let result := validator (data field) in
       match reason result with
       | Some e => if negb (isValid result) && truthy e
                   then setError field (Some e) errors
                   else errors
       | None => errors
       end)
    validators [].

(** [Object.values(errors).some(error => error !== undefined)] *)
Definition hasValidationErrors (errors : ValidationErrors) : bool :=
  existsb (fun '(_, error) => match error with Some _ => true | None => false end) errors.

(** [getFirstErrorField]: the first field whose error is truthy. *)
Definition getFirstErrorField (errors : ValidationErrors) : option string :=
  fst <$> List.find (fun '(_, error) => match error with
                                        | Some e => truthy e
                                        | None => false
                                        end) errors.

(** What [validateForm] records for an entry of [validators]: the message
    of a refusal that has one. *)
Definition recorded (data : string -> string)
    (entry : string * (string -> ValidationResult)) : option (string * option string) :=
  let result := snd entry (data (fst entry)) in
  match reason result with
  | Some e => if negb (isValid result) && truthy e then Some (fst entry, Some e) else None
  | None => None
  end.

(** ** [lib/poll-actions]: [validateCreatePollData] on the data as passed

    [CreatePollData] above carries the expiry as the instant it denotes.
    The caller passes [expires_at] as a string, and the validator reads it
    with [new Date(..)].  [dateOf s] is the time value of that date: [None]
    for a string that is no date, whose date is invalid and whose time
    value is NaN. *)

Module Passed.

Record CreatePollData := mkCreatePollData {
  title : string;
  description : option string;
  options : list string;
  expires_at : option string
}.

(** [if (data.expires_at) { .. if (expiresAt <= now) validationErrors.expires_at = .. }]:
    an empty string is skipped, and a comparison with NaN is false. *)
Definition addExpiry (dateOf : string -> option Z) (now : Z) (expires : option string)
    (errs : gmap string string) : gmap string string :=
  match expires with
  | Some s =>
      if truthy s
      then match dateOf s with
           | Some t => if t <=? now
                       then <["expires_at" := "Expiration date must be in the future"]> errs
                       else errs
           | None => errs
           end
      else errs
  | None => errs
  end.

Definition validateCreatePollData {T} (dateOf : string -> option Z) (now : Z)
    (data : CreatePollData) : PollOperationResult T :=
  let e1 := addError "title" (validatePollTitle (title data)) ∅ in
  let e2 := match description data with
            | Some d => if truthy d
                        then addError "description" (validatePollDescription d) e1
                        else e1
            | None => e1
            end in
  let e3 := addError "options" (validatePollOptions (options data)) e2 in
  let e4 := addExpiry dateOf now (expires_at data) e3 in
  validationOutcome e4.

(** The instant the validator compares with the time of the call, if
    any. *)
Definition instant (dateOf : string -> option Z) (expires : option string) : option Z :=
  match expires with
  | Some s => if truthy s then dateOf s else None
  | None => None
  end.

End Passed.

(** The data as the rest of the development carries it. *)
Definition asRead (dateOf : string -> option Z) (data : Passed.CreatePollData)
  : CreatePollData :=
  mkCreatePollData (Passed.title data) (Passed.description data) (Passed.options data)
                   (Passed.instant dateOf (Passed.expires_at data)).

(* ===================================================================== *)
(** * Part II: properties *)
(* ===================================================================== *)

(** ** The validators *)

Lemma size_list_to_set_le (l : list string) :
  (size (list_to_set l : gset string) <= length l)%nat.
Proof.
  induction l as [|x l IH].
  - rewrite list_to_set_nil, size_empty. simpl. lia.
  - rewrite list_to_set_cons, size_union_alt, size_singleton.
    assert (size (list_to_set l ∖ {[x]} : gset string) <= size (list_to_set l : gset string))%nat
      as Hle by (apply subseteq_size; set_solver).
    simpl. lia.
Qed.

(** The size test of [validatePollOptions] detects exactly the repeated
    entries. *)
Lemma size_list_to_set_NoDup (l : list string) :
  size (list_to_set l : gset string) = length l <-> NoDup l.
Proof.
  split; [| apply size_list_to_set].
  induction l as [|x l IH]; intros Hsize; [constructor|].
  rewrite list_to_set_cons in Hsize. simpl in Hsize.
  destruct (decide (x ∈ l)) as [Hin|Hnin].
  - assert ({[x]} ∪ list_to_set l = (list_to_set l : gset string)) as Heq by set_solver.
    rewrite Heq in Hsize. pose proof (size_list_to_set_le l). lia.
  - constructor; [exact Hnin|]. apply IH.
    rewrite size_union, size_singleton in Hsize by set_solver. lia.
Qed.

Lemma repeated_not_NoDup {A} (l : list A) (i j : nat) (x : A) :
  i <> j -> l !! i = Some x -> l !! j = Some x -> ~ NoDup l.
Proof.
  intros Hij Hi Hj Hnd. apply Hij. eapply NoDup_alt; eauto.
Qed.

Lemma validateEachOption_reason (i : nat) (options : list string) :
  isValid (validateEachOption i options) = false ->
  exists e, reason (validateEachOption i options) = Some e /\ truthy e = true.
Proof.
  revert i. induction options as [|o rest IH]; intros i; simpl.
  - discriminate.
  - destruct (negb (isValid (validatePollOption o))).
    + intros _. eexists. split; [reflexivity|reflexivity].
    + apply IH.
Qed.

(** Every refusal of [validatePollOptions] comes with a non-empty message,
    so that the callers record it. *)
Lemma validatePollOptions_reason (options : list string) :
  isValid (validatePollOptions options) = false ->
  exists e, reason (validatePollOptions options) = Some e /\ truthy e = true.
Proof.
  unfold validatePollOptions.
  destruct (length options <? 2)%nat; [intros _; eexists; split; reflexivity|].
  destruct (10 <? length options)%nat; [intros _; eexists; split; reflexivity|].
  destruct (negb _); [intros _; eexists; split; reflexivity|].
  apply validateEachOption_reason.
Qed.

Lemma validatePollOptions_too_few (options : list string) :
  (length options < 2)%nat -> isValid (validatePollOptions options) = false.
Proof.
  intros H. unfold validatePollOptions.
  destruct (Nat.ltb_spec (length options) 2); [reflexivity|lia].
Qed.

Lemma validatePollOptions_too_many (options : list string) :
  (10 < length options)%nat -> isValid (validatePollOptions options) = false.
Proof.
  intros H. unfold validatePollOptions.
  destruct (length options <? 2)%nat; [reflexivity|].
  destruct (Nat.ltb_spec 10 (length options)); [reflexivity|lia].
Qed.

Lemma validatePollOptions_duplicate (options : list string) :
  ~ NoDup (map normalized options) -> isValid (validatePollOptions options) = false.
Proof.
  intros Hdup. unfold validatePollOptions.
  destruct (length options <? 2)%nat; [reflexivity|].
  destruct (10 <? length options)%nat; [reflexivity|].
  fold normalized.
  destruct (Nat.eqb_spec (size (list_to_set (map normalized options) : gset string))
                         (length (map normalized options))) as [Heq|Hne]; simpl.
  - exfalso. apply Hdup. by apply size_list_to_set_NoDup.
  - reflexivity.
Qed.

(** The cases of the repository's own tests of [validatePollOptions]. *)
Example validatePollOptions_test_valid :
  validatePollOptions ["Option 1"; "Option 2"] = valid
  /\ validatePollOptions ["A"; "B"; "C"; "D"] = valid.
Proof. split; vm_compute; reflexivity. Qed.

Example validatePollOptions_test_too_few :
  validatePollOptions ["Option 1"] = invalid "At least 2 options are required".
Proof. vm_compute. reflexivity. Qed.

Example validatePollOptions_test_too_many :
  validatePollOptions (map (fun i => "Option " ++ pretty i) (seq 1 11))
  = invalid "Maximum 10 options allowed".
Proof. vm_compute. reflexivity. Qed.

Example validatePollOptions_test_duplicate :
  validatePollOptions ["Option 1"; "Option 2"; "Option 1"]
  = invalid "Duplicate options are not allowed".
Proof. vm_compute. reflexivity. Qed.

Example validatePollOptions_test_empty :
  validatePollOptions ["Option 1"; ""] = invalid "Option 2: Option text is required".
Proof. vm_compute. reflexivity. Qed.

(** ** Validation in front of the operations *)

Lemma handleDatabaseError_failure {T} (e : DbError) :
  success (handleDatabaseError (T := T) e) = false.
Proof. unfold handleDatabaseError. by repeat destruct (String.eqb _ _). Qed.

Lemma handleDatabaseError_no_data {T} (e : DbError) :
  data (handleDatabaseError (T := T) e) = None.
Proof. unfold handleDatabaseError. by repeat destruct (String.eqb _ _). Qed.

Lemma validationOutcome_rejected {T} (errs : gmap string string) (key : string) :
  is_Some (errs !! key) -> rejectedFor key (validationOutcome (T := T) errs).
Proof.
  intros Hkey. unfold validationOutcome, rejectedFor.
  assert (bool_decide (errs = ∅) = false) as ->.
  { apply bool_decide_eq_false. intros ->. rewrite lookup_empty in Hkey.
    by destruct Hkey. }
  simpl. repeat split. eauto.
Qed.

Lemma addError_recorded (key : string) (r : ValidationResult) (errs : gmap string string) :
  isValid r = false -> (exists e, reason r = Some e /\ truthy e = true) ->
  is_Some (addError key r errs !! key).
Proof.
  intros Hinv (e & Hr & He). unfold addError. rewrite Hr, Hinv, He. simpl.
  rewrite lookup_insert_eq. eauto.
Qed.

Lemma addExpiry_keeps (now : Z) (expires : option Z) (errs : gmap string string) (key : string) :
  is_Some (errs !! key) -> is_Some (addExpiry now expires errs !! key).
Proof.
  intros Hkey. unfold addExpiry. destruct expires as [t|]; [|done].
  destruct (t <=? now); [|done].
  destruct (decide ("expires_at" = key)) as [<-|Hne].
  - rewrite lookup_insert_eq. eauto.
  - by rewrite lookup_insert_ne.
Qed.

Lemma validateCreatePollData_options {T} (now : Z) (pollData : CreatePollData) :
  isValid (validatePollOptions (new_options pollData)) = false ->
  rejectedFor "options" (validateCreatePollData (T := T) now pollData).
Proof.
  intros Hinv. unfold validateCreatePollData.
  apply validationOutcome_rejected, addExpiry_keeps, addError_recorded;
    [exact Hinv | by apply validatePollOptions_reason].
Qed.

Lemma validateUpdatePollData_options {T} (now : Z) (updateData : UpdatePollData)
    (newOptions : list string) :
  upd_options updateData = Some newOptions ->
  isValid (validatePollOptions newOptions) = false ->
  rejectedFor "options" (validateUpdatePollData (T := T) now updateData).
Proof.
  intros Hopt Hinv. unfold validateUpdatePollData. rewrite Hopt.
  apply validationOutcome_rejected, addExpiry_keeps, addError_recorded;
    [exact Hinv | by apply validatePollOptions_reason].
Qed.

(** [createPoll] gives up at the validation, before the session and the
    store are consulted. *)
Lemma createPoll_rejected (env : Env) (faults : Faults) (pollData : CreatePollData) (db : DB) :
  isValid (validatePollOptions (new_options pollData)) = false ->
  fst (createPoll env faults pollData db) = db
  /\ rejectedFor "options" (snd (createPoll env faults pollData db)).
Proof.
  intros Hinv.
  pose proof (validateCreatePollData_options (T := Poll) (now env) pollData Hinv) as Hrej.
  unfold createPoll. destruct Hrej as (Hs & He & Hv) eqn:E. clear E.
  rewrite Hs. simpl. split; [reflexivity|]. by repeat split.
Qed.

Lemma updatePoll_rejected (env : Env) (faults : Faults) (pollId : string)
    (updateData : UpdatePollData) (newOptions : list string) (db : DB) :
  upd_options updateData = Some newOptions ->
  isValid (validatePollOptions newOptions) = false ->
  fst (updatePoll env faults pollId updateData db) = db
  /\ rejectedFor "options" (snd (updatePoll env faults pollId updateData db)).
Proof.
  intros Hopt Hinv.
  pose proof (validateUpdatePollData_options (T := Poll) (now env) updateData _ Hopt Hinv) as Hrej.
  unfold updatePoll. destruct Hrej as (Hs & He & Hv).
  rewrite Hs. simpl. split; [reflexivity|]. by repeat split.
Qed.

(** C10.  [validatePollOptions] rejects every list of more than 10 entries
    and every list in which two entries are equal after trimming and
    lowercasing, whatever the original spelling; [createPoll], and
    [updatePoll] when it is given options, then fail with the validation
    error and leave the store as it was. *)
Theorem validatePollOptions_rejects_long_or_duplicate (options : list string) :
  (10 < length options)%nat
  \/ (exists i j a b, i <> j /\ options !! i = Some a /\ options !! j = Some b
                      /\ normalized a = normalized b) ->
  isValid (validatePollOptions options) = false
  /\ (forall env faults title description expires db,
        let call := createPoll env faults
                      (mkCreatePollData title description options expires) db in
        fst call = db /\ rejectedFor "options" (snd call))
  /\ (forall env faults pollId title description expires active db,
        let call := updatePoll env faults pollId
                      (mkUpdatePollData title description (Some options) expires active) db in
        fst call = db /\ rejectedFor "options" (snd call)).
Proof.
  intros Hbad.
  assert (isValid (validatePollOptions options) = false) as Hinv.
  { destruct Hbad as [Hlong | (i & j & a & b & Hij & Hi & Hj & Hab)].
    - by apply validatePollOptions_too_many.
    - apply validatePollOptions_duplicate.
      apply (repeated_not_NoDup _ i j (normalized a)); [exact Hij | |].
      + by rewrite list_lookup_fmap, Hi.
      + by rewrite list_lookup_fmap, Hj, Hab.
  }
  split; [exact Hinv|]. split.
  - intros. subst call. by apply createPoll_rejected.
  - intros. subst call. by eapply updatePoll_rejected.
Qed.

Lemma validatePollOptions_rejects_long_or_duplicate_witness :
  (exists i j a b, i <> j /\ [" Red "; "blue"; "RED"] !! i = Some a
                   /\ [" Red "; "blue"; "RED"] !! j = Some b
                   /\ normalized a = normalized b)
  /\ isValid (validatePollOptions [" Red "; "blue"; "RED"]) = false.
Proof.
  assert (exists i j a b, i <> j /\ [" Red "; "blue"; "RED"] !! i = Some a
                   /\ [" Red "; "blue"; "RED"] !! j = Some b
                   /\ normalized a = normalized b) as H.
  { exists 0%nat, 2%nat, " Red ", "RED". repeat split; try reflexivity. lia. }
  split; [exact H|].
  exact (proj1 (validatePollOptions_rejects_long_or_duplicate
                  [" Red "; "blue"; "RED"] (or_intror H))).
Defined.

(** ** [createPoll] *)

Lemma validatePollOptions_accepted (options : list string) :
  isValid (validatePollOptions options) = true ->
  (2 <= length options <= 10)%nat /\ NoDup (map normalized options).
Proof.
  intros Hok.
  destruct (Nat.lt_ge_cases (length options) 2) as [Hfew|Hfew].
  { rewrite validatePollOptions_too_few in Hok by exact Hfew. discriminate. }
  destruct (Nat.lt_ge_cases 10 (length options)) as [Hmany|Hmany].
  { rewrite validatePollOptions_too_many in Hok by exact Hmany. discriminate. }
  split; [lia|].
  destruct (decide (NoDup (map normalized options))) as [Hnd|Hdup]; [exact Hnd|].
  rewrite validatePollOptions_duplicate in Hok by exact Hdup. discriminate.
Qed.

Lemma length_assignIds (n : nat) (rows : list OptionInsert) :
  length (assignIds n rows) = length rows.
Proof. revert n. induction rows as [|r rows IH]; intros n; simpl; [|rewrite IH]; reflexivity. Qed.

Lemma assignIds_ids (n : nat) (rows : list OptionInsert) :
  map opt_id (assignIds n rows) = map gen_id (seq n (length rows)).
Proof. revert n. induction rows as [|r rows IH]; intros n; simpl; [|rewrite IH]; reflexivity. Qed.

Lemma assignIds_texts (n : nat) (rows : list OptionInsert) :
  map text (assignIds n rows) = map ins_text rows.
Proof. revert n. induction rows as [|r rows IH]; intros n; simpl; [|rewrite IH]; reflexivity. Qed.

Lemma assignIds_votes (n : nat) (rows : list OptionInsert) (o : PollOption) :
  o ∈ assignIds n rows -> exists r, r ∈ rows /\ votes o = ins_votes r.
Proof.
  revert n. induction rows as [|r rows IH]; intros n; simpl; intros Hin.
  - by apply not_elem_of_nil in Hin.
  - apply elem_of_cons in Hin as [-> | Hin].
    + exists r. split; [left|reflexivity].
    + destruct (IH _ Hin) as (r' & Hr' & Hv). exists r'. split; [by right|exact Hv].
Qed.

(** The identifiers the store assigns within one insert are distinct. *)
Lemma assignIds_NoDup (n : nat) (rows : list OptionInsert) :
  NoDup (map opt_id (assignIds n rows)).
Proof.
  rewrite assignIds_ids.
  assert (Inj (=) (=) gen_id) by (unfold gen_id; apply _).
  apply (NoDup_fmap_2 gen_id), NoDup_seq.
Qed.

Lemma insertOptions_created (rows : list OptionInsert) (db db' : DB) (created : list PollOption) :
  insertOptions rows db = inr (created, db') ->
  created = assignIds (next_id db) rows
  /\ polls db' = polls db
  /\ poll_options db' = (poll_options db ++ created)%list.
Proof.
  unfold insertOptions. destruct (forallb _ rows); [|discriminate].
  intros [= <- <-]. by repeat split.
Qed.

Lemma imap_texts (pollId : string) (texts : list string) :
  map ins_text (imap (fun index t => mkOptionInsert pollId (trim t) 0 (Z.of_nat index)) texts)
  = map trim texts.
Proof.
  apply list_eq. intros i.
  rewrite !list_lookup_fmap, list_lookup_imap.
  by destruct (texts !! i).
Qed.

(** What a successful [createPoll] hands back: the freshly inserted rows,
    one per option text that passed the validation. *)
Lemma createPoll_success (env : Env) (faults : Faults) (pollData : CreatePollData) (db : DB) :
  success (snd (createPoll env faults pollData db)) = true ->
  exists p n,
    data (snd (createPoll env faults pollData db)) = Some p
    /\ total_votes p = 0
    /\ options p
       = assignIds n (imap (fun index t => mkOptionInsert (id p) (trim t) 0 (Z.of_nat index))
                           (new_options pollData))
    /\ isValid (validatePollOptions (new_options pollData)) = true.
Proof.
  intros Hsucc.
  destruct (isValid (validatePollOptions (new_options pollData))) eqn:Hvalid.
  2:{ destruct (createPoll_rejected env faults pollData db Hvalid) as (_ & Hf & _).
      congruence. }
  revert Hsucc. unfold createPoll.
  destruct (success (validateCreatePollData (now env) pollData)) eqn:Hchk; cbn [negb].
  2:{ cbn [snd]. rewrite Hchk. discriminate. }
  destruct (getAuthenticatedClient env) as [thrown|user]; [discriminate|].
  destruct (faults 0%nat); cbn [request insertPoll].
  { cbn [snd]. by rewrite handleDatabaseError_failure. }
  match goal with |- context [insertOptions ?rows ?d] =>
    destruct (insertOptions rows d) as [e|[created db2]] eqn:Hins end.
  { destruct (faults 1%nat); cbn [request snd]; by rewrite handleDatabaseError_failure. }
  destruct (faults 1%nat) as [e|]; cbn [request snd].
  { by rewrite handleDatabaseError_failure. }
  intros _. apply insertOptions_created in Hins as (-> & _ & _).
  eexists _, _. repeat split.
Qed.

(** C7.  A poll accepted by [createPoll] has at least 2 options, and the
    identifiers of its options are pairwise distinct (as are their texts,
    compared in lower case); an input with fewer than 2 options, or with
    two options equal after trimming and lowercasing, is refused with the
    validation error and the store is left as it was. *)
Theorem createPoll_options_invariant (env : Env) (faults : Faults)
    (pollData : CreatePollData) (db : DB) :
  (success (snd (createPoll env faults pollData db)) = true ->
   exists p, data (snd (createPoll env faults pollData db)) = Some p
             /\ (2 <= length (options p))%nat
             /\ NoDup (map opt_id (options p))
             /\ NoDup (map (fun o => toLowerCase (text o)) (options p)))
  /\ ((length (new_options pollData) < 2)%nat
      \/ (exists i j a b, i <> j /\ new_options pollData !! i = Some a
                          /\ new_options pollData !! j = Some b
                          /\ normalized a = normalized b) ->
      fst (createPoll env faults pollData db) = db
      /\ rejectedFor "options" (snd (createPoll env faults pollData db))).
Proof.
  split.
  - intros Hsucc.
    destruct (createPoll_success _ _ _ _ Hsucc) as (p & n & Hdata & _ & Hopts & Hvalid).
    apply validatePollOptions_accepted in Hvalid as (Hlen & Hnd).
    exists p. split; [exact Hdata|]. rewrite Hopts. repeat split.
    + rewrite length_assignIds, length_imap. lia.
    + apply assignIds_NoDup.
    + rewrite <- (map_map text toLowerCase), assignIds_texts, imap_texts, map_map.
      exact Hnd.
  - intros Hbad. apply createPoll_rejected.
    destruct Hbad as [Hfew | (i & j & a & b & Hij & Hi & Hj & Hab)].
    + by apply validatePollOptions_too_few.
    + apply validatePollOptions_duplicate.
      apply (repeated_not_NoDup _ i j (normalized a)); [exact Hij | |].
      * by rewrite list_lookup_fmap, Hi.
      * by rewrite list_lookup_fmap, Hj, Hab.
Qed.

Lemma createPoll_options_invariant_witness :
  (success (snd (createPoll alice no_faults
                   (mkCreatePollData "Dessert?" None ["Cake"; "Fruit"] None) (store 0))) = true
   /\ exists p, data (snd (createPoll alice no_faults
                   (mkCreatePollData "Dessert?" None ["Cake"; "Fruit"] None) (store 0))) = Some p
             /\ (2 <= length (options p))%nat
             /\ NoDup (map opt_id (options p))
             /\ NoDup (map (fun o => toLowerCase (text o)) (options p)))
  /\ ((length (new_options (mkCreatePollData "Dessert?" None ["Cake"] None)) < 2)%nat
      /\ fst (createPoll alice no_faults
                (mkCreatePollData "Dessert?" None ["Cake"] None) (store 0)) = store 0).
Proof.
  split.
  - assert (success (snd (createPoll alice no_faults
                   (mkCreatePollData "Dessert?" None ["Cake"; "Fruit"] None) (store 0))) = true)
      as H by (vm_compute; reflexivity).
    split; [exact H|].
    exact (proj1 (createPoll_options_invariant alice no_faults
                    (mkCreatePollData "Dessert?" None ["Cake"; "Fruit"] None) (store 0)) H).
  - assert (length (new_options (mkCreatePollData "Dessert?" None ["Cake"] None)) < 2)%nat
      as H by (simpl; lia).
    split; [exact H|].
    exact (proj1 (proj2 (createPoll_options_invariant alice no_faults
                    (mkCreatePollData "Dessert?" None ["Cake"] None) (store 0)) (or_introl H))).
Defined.

(** ** The total of a returned poll *)

Lemma orZero_id (x : Z) : orZero x = x.
Proof. unfold orZero. destruct (Z.eqb_spec x 0); congruence. Qed.

Lemma fold_left_votes (opts : list PollOption) (acc : Z) :
  fold_left (fun sum o => sum + votes o) opts acc = acc + sumVotes opts.
Proof.
  revert acc. induction opts as [|o opts IH]; intros acc; simpl.
  - lia.
  - rewrite IH. lia.
Qed.

(** The [reduce] of the source computes the sum of the counts. *)
Lemma totalVotesOf_sum (opts : list PollOption) : totalVotesOf opts = sumVotes opts.
Proof. unfold totalVotesOf. rewrite orZero_id, fold_left_votes. lia. Qed.

Lemma sumVotes_zero (opts : list PollOption) :
  (forall o, o ∈ opts -> votes o = 0) -> sumVotes opts = 0.
Proof.
  induction opts as [|o opts IH]; intros Hz; simpl; [reflexivity|].
  rewrite (Hz o) by left. rewrite IH; [reflexivity|].
  intros o' Ho'. apply Hz. by right.
Qed.

Lemma getPoll_data (fault : option DbError) (pollId : string) (db : DB) (p : Poll) :
  data (getPoll fault pollId db) = Some p ->
  exists row, request fault (single (pollsById pollId db)) = inr row
              /\ p = completePoll row (optionsOfPoll (row_id row) db)
                       (totalVotesOf (optionsOfPoll (row_id row) db)).
Proof.
  unfold getPoll.
  destruct (request fault (single (pollsById pollId db))) as [e|row].
  - by rewrite handleDatabaseError_no_data.
  - intros [= <-]. by exists row.
Qed.

(** C9.  Every [Poll] handed out by [getPoll], [getPolls] or [createPoll]
    has [total_votes] equal to the sum of the [votes] of its options (0 for
    an empty list). *)
Theorem total_votes_is_sum_of_votes (p : Poll) :
  Returned p -> total_votes p = sumVotes (options p).
Proof.
  intros [fault pollId db p' Hdata | fault page limit userId db r p' Hdata Hin
         | env faults pollData db p' Hdata].
  - apply getPoll_data in Hdata as (row & _ & ->). simpl. apply totalVotesOf_sum.
  - revert Hdata. unfold getPolls.
    destruct (request fault _) as [e|[rows count]].
    + by rewrite handleDatabaseError_no_data.
    + intros [= <-]. simpl in Hin.
      apply list_elem_of_fmap in Hin as (row & -> & _). simpl. apply totalVotesOf_sum.
  - assert (success (snd (createPoll env faults pollData db)) = true) as Hsucc.
    { revert Hdata. unfold createPoll.
      destruct (success (validateCreatePollData (now env) pollData)) eqn:Hchk; cbn [negb].
      2:{ cbn [snd]. unfold validateCreatePollData, validationOutcome. discriminate. }
      destruct (getAuthenticatedClient env); [discriminate|].
      destruct (faults 0%nat); cbn [request insertPoll].
      { cbn [snd]. by rewrite handleDatabaseError_no_data. }
      destruct (request (faults 1%nat) _) as [e|[created db2]].
      { cbn [snd]. by rewrite handleDatabaseError_no_data. }
      reflexivity. }
    destruct (createPoll_success _ _ _ _ Hsucc) as (q & n & Hq & Htot & Hopts & _).
    assert (q = p') as -> by congruence.
    rewrite Htot. symmetry. apply sumVotes_zero.
    intros o Ho. rewrite Hopts in Ho.
    apply assignIds_votes in Ho as (r & Hr & ->).
    apply list_elem_of_lookup in Hr as (i & Hi).
    rewrite list_lookup_imap in Hi. destruct (new_options pollData !! i); [|discriminate].
    by injection Hi as <-.
Qed.

Lemma total_votes_is_sum_of_votes_witness :
  exists p, data (getPoll None "p1" (store 7)) = Some p
            /\ total_votes p = 7 /\ total_votes p = sumVotes (options p).
Proof.
  eexists. split; [vm_compute; reflexivity|]. split; [reflexivity|].
  apply total_votes_is_sum_of_votes.
  apply (Returned_getPoll None "p1" (store 7)). vm_compute. reflexivity.
Defined.

(** ** The connection registry *)

(** C8.  [unregister] is idempotent: a second call, or a call for a
    connection that is not registered, changes nothing, and no call
    affects the registration of another connection.  The operation is a
    total function: it has no failing case. *)
Theorem unregister_idempotent (connection : nat) (registry : gset nat) :
  unregister connection (unregister connection registry) = unregister connection registry
  /\ (connection ∉ registry -> unregister connection registry = registry)
  /\ (forall other, other <> connection ->
        other ∈ unregister connection registry <-> other ∈ registry).
Proof.
  unfold unregister. repeat split.
  - set_solver.
  - intros Hnot. set_solver.
  - set_solver.
  - intros Hin. set_solver.
Qed.

Lemma unregister_idempotent_witness :
  unregister 2 (unregister 2 (register 1 (register 2 ∅))) = register 1 ∅
  /\ unregister 2 (register 1 ∅) = register 1 ∅
  /\ 1%nat ∈ unregister 2 (register 1 (register 2 ∅)).
Proof.
  destruct (unregister_idempotent 2 (register 1 (register 2 ∅))) as (Hidem & _ & Hother).
  destruct (unregister_idempotent 2 (register 1 ∅)) as (_ & Habsent & _).
  assert (unregister 2 (register 1 (register 2 ∅)) = register 1 ∅) as Hone
    by (unfold unregister, register; set_solver).
  split; [by rewrite Hidem|]. split.
  - apply Habsent. unfold register. set_solver.
  - apply Hother; [lia|]. unfold register. set_solver.
Defined.

(** ** Selections by key *)

Lemma single_inr {A} (rows : list A) (r : A) : single rows = inr r <-> rows = [r].
Proof.
  unfold single. destruct rows as [|x [|y rows]]; split; intros H; try discriminate.
  - by injection H as ->.
  - by injection H as ->.
Qed.

Lemma filter_none {A} (P : A -> Prop) `{forall x, Decision (P x)} (l : list A) :
  (forall x, x ∈ l -> ~ P x) -> filter P l = [].
Proof.
  induction l as [|y l IH]; intros Hno; [reflexivity|].
  rewrite filter_cons_False by (apply Hno; left).
  apply IH. intros x Hx. apply Hno. by right.
Qed.

(** Under a primary key, a selection on the key has at most the one row. *)
Lemma filter_key {A} (key : A -> string) (Q : A -> Prop) `{forall x, Decision (Q x)}
    (l : list A) (x : A) :
  NoDup (map key l) -> x ∈ l ->
  filter (fun y => key y = key x /\ Q y) l = if decide (Q x) then [x] else [].
Proof.
  induction l as [|y l IH]; intros Hnd Hin.
  - by apply not_elem_of_nil in Hin.
  - simpl in Hnd. apply NoDup_cons in Hnd as [Hy Hnd].
    apply elem_of_cons in Hin as [<- | Hin].
    + assert (filter (fun y => key y = key x /\ Q y) l = []) as Hrest.
      { apply filter_none. intros z Hz [Hk _]. apply Hy.
        rewrite <- Hk. by apply list_elem_of_fmap_2. }
      destruct (decide (Q x)).
      * rewrite filter_cons_True by done. by rewrite Hrest.
      * rewrite filter_cons_False by tauto. exact Hrest.
    + rewrite filter_cons_False; [by apply IH|].
      intros [Hk _]. apply Hy. rewrite Hk. by apply list_elem_of_fmap_2.
Qed.

Lemma pollsById_unique (db : DB) (p : PollRow) :
  NoDup (map row_id (polls db)) -> p ∈ polls db -> pollsById (row_id p) db = [p].
Proof.
  intros Hnd Hin. unfold pollsById.
  pose proof (filter_key row_id (fun _ => True) (polls db) p Hnd Hin) as Hf.
  simpl in Hf. rewrite <- Hf. apply list_filter_iff. tauto.
Qed.

Lemma activePollsById_unique (db : DB) (p : PollRow) :
  NoDup (map row_id (polls db)) -> p ∈ polls db ->
  activePollsById (row_id p) db = if row_is_active p then [p] else [].
Proof.
  intros Hnd Hin. unfold activePollsById.
  rewrite (filter_key row_id (fun y => row_is_active y = true) (polls db) p Hnd Hin).
  destruct (row_is_active p); by case_decide.
Qed.

Lemma activePollsById_none (db : DB) (pollId : string) :
  (forall p, p ∈ polls db -> row_id p = pollId -> row_is_active p = false) ->
  activePollsById pollId db = [].
Proof.
  intros Hno. apply filter_none. intros p Hp [Hid Hact].
  rewrite (Hno p Hp Hid) in Hact. discriminate.
Qed.

(** ** [voteOnPoll]: the refusals *)

Lemma trim_truthy (s : string) : truthy (trim s) = true -> truthy s = true.
Proof. destruct s; [discriminate|reflexivity]. Qed.

Lemma validationOutcome_empty {T} :
  validationOutcome (T := T) ∅ = mkResult true None None None.
Proof. unfold validationOutcome. by rewrite bool_decide_eq_true_2. Qed.

Lemma validateVoteData_accepts {T} (voteData : VoteData) :
  ~ blank (poll_id voteData) -> ~ blank (option_id voteData) ->
  validateVoteData (T := T) voteData = mkResult true None None None.
Proof.
  unfold blank. intros Hp%not_false_iff_true Ho%not_false_iff_true.
  unfold validateVoteData.
  rewrite Hp, Ho, (trim_truthy _ Hp), (trim_truthy _ Ho). simpl.
  apply validationOutcome_empty.
Qed.

Lemma validateVoteData_blank_option {T} (voteData : VoteData) :
  blank (option_id voteData) ->
  rejectedFor "option_id" (validateVoteData (T := T) voteData).
Proof.
  unfold blank. intros Hb. unfold validateVoteData. rewrite Hb.
  rewrite orb_true_r. apply validationOutcome_rejected.
  rewrite lookup_insert_eq. eauto.
Qed.

(** The failure built from a message: after [parseApiError] it keeps the
    message and has type ['general']. *)
Lemma apiError_failsWith {T} (msg : string) :
  truthy msg = true -> failsWith msg (apiError (T := T) msg).
Proof.
  intros Hmsg. unfold failsWith, apiError, createErrorResponse, parseApiError. simpl.
  by rewrite Hmsg.
Qed.

Section Refusals.

Variables (env : Env) (faults : Faults) (voteData : VoteData) (db : DB).

Hypothesis signed_in : is_Some (session env).
Hypothesis poll_id_given : ~ blank (poll_id voteData).
Hypothesis option_id_given : ~ blank (option_id voteData).

Lemma vote_passes_the_gate :
  voteOnPoll env faults voteData db
  = match request (faults 0%nat) (single (activePollsById (poll_id voteData) db)) with
    | inl _ => (db, apiError "Poll not found or inactive")
    | inr poll =>
        if isExpired (now env) (row_expires_at poll)
        then (db, apiError "This poll has expired")
        else
          match request (faults 1%nat)
                  (single (optionsByIdAndPoll (option_id voteData) (poll_id voteData) db)) with
          | inl _ => (db, apiError "Invalid option")
          | inr opt =>
              match faults 2%nat with
              | Some storeError => (db, handleDatabaseError storeError)
              | None =>
                  let db' := setVotes (option_id voteData) (votes opt + 1) db in
                  (db', getPoll (faults 3%nat) (poll_id voteData) db')
              end
          end
    end.
Proof.
  unfold voteOnPoll.
  rewrite (validateVoteData_accepts voteData poll_id_given option_id_given).
  cbn [success negb]. unfold getAuthenticatedClient.
  destruct signed_in as [user ->]. reflexivity.
Qed.

(** No active poll has the identifier: it does not exist, or it is
    deactivated. *)
Lemma vote_no_active_poll :
  (forall p, p ∈ polls db -> row_id p = poll_id voteData -> row_is_active p = false) ->
  voteOnPoll env faults voteData db = (db, apiError "Poll not found or inactive").
Proof.
  intros Hno. rewrite vote_passes_the_gate, (activePollsById_none _ _ Hno).
  by destruct (faults 0%nat).
Qed.

Hypothesis store_answers_0 : faults 0%nat = None.
Hypothesis poll_key : NoDup (map row_id (polls db)).

Variable p : PollRow.
Hypothesis p_in : p ∈ polls db.
Hypothesis p_id : row_id p = poll_id voteData.
Hypothesis p_active : row_is_active p = true.

Lemma vote_expired :
  isExpired (now env) (row_expires_at p) = true ->
  voteOnPoll env faults voteData db = (db, apiError "This poll has expired").
Proof.
  intros Hexp. rewrite vote_passes_the_gate, store_answers_0, <- p_id.
  rewrite (activePollsById_unique db p poll_key p_in), p_active. simpl.
  by rewrite Hexp.
Qed.

Lemma vote_invalid_option :
  isExpired (now env) (row_expires_at p) = false ->
  (forall o, o ∈ poll_options db -> opt_id o = option_id voteData ->
             opt_poll_id o <> poll_id voteData) ->
  voteOnPoll env faults voteData db = (db, apiError "Invalid option").
Proof.
  intros Hexp Hno. rewrite vote_passes_the_gate, store_answers_0, <- p_id.
  rewrite (activePollsById_unique db p poll_key p_in), p_active. simpl.
  rewrite Hexp, p_id.
  assert (optionsByIdAndPoll (option_id voteData) (poll_id voteData) db = []) as ->.
  { apply filter_none. intros o Ho [Hid Hpoll]. by apply (Hno o Ho Hid). }
  by destruct (faults 1%nat).
Qed.

End Refusals.

(** C2, as the code has it.  A vote by a signed-in caller with non-blank
    identifiers, answered by the store, fails with one of three messages:
    "Poll not found or inactive" when no active poll has the identifier,
    that is when the poll does not exist and equally when it is deactivated
    (the two cases give the same result); "This poll has expired" when the
    active poll is past its expiry; "Invalid option" when the poll is
    active and not expired and the option is not one of its options.  The
    store is left as it was in all three cases. *)
Theorem vote_failure_messages (env : Env) (faults : Faults) (voteData : VoteData) (db : DB) :
  is_Some (session env) ->
  ~ blank (poll_id voteData) -> ~ blank (option_id voteData) ->
  faults 0%nat = None ->
  NoDup (map row_id (polls db)) ->
  ((forall p, p ∈ polls db -> row_id p = poll_id voteData -> row_is_active p = false) ->
   voteOnPoll env faults voteData db = (db, apiError "Poll not found or inactive"))
  /\ (forall p, p ∈ polls db -> row_id p = poll_id voteData -> row_is_active p = true ->
        (isExpired (now env) (row_expires_at p) = true ->
         voteOnPoll env faults voteData db = (db, apiError "This poll has expired"))
        /\ (isExpired (now env) (row_expires_at p) = false ->
            (forall o, o ∈ poll_options db -> opt_id o = option_id voteData ->
                       opt_poll_id o <> poll_id voteData) ->
            voteOnPoll env faults voteData db = (db, apiError "Invalid option")))
  /\ failsWith "Poll not found or inactive" (apiError (T := Poll) "Poll not found or inactive")
  /\ failsWith "This poll has expired" (apiError (T := Poll) "This poll has expired")
  /\ failsWith "Invalid option" (apiError (T := Poll) "Invalid option").
Proof.
  intros Hs Hp Ho Hf Hkey. split; [|split].
  - by apply vote_no_active_poll.
  - intros p Hin Hid Hact. split.
    + by apply (vote_expired env faults voteData db Hs Hp Ho Hf Hkey p).
    + by apply (vote_invalid_option env faults voteData db Hs Hp Ho Hf Hkey p).
  - repeat split.
Qed.

Lemma vote_failure_messages_witness :
  voteOnPoll alice no_faults (mkVoteData "p2" "a") (store 0)
  = (store 0, apiError "Poll not found or inactive")
  /\ voteOnPoll alice no_faults (mkVoteData "p3" "c") (store 0)
     = (store 0, apiError "This poll has expired")
  /\ voteOnPoll alice no_faults (mkVoteData "p1" "c") (store 0)
     = (store 0, apiError "Invalid option").
Proof.
  assert (is_Some (session alice)) as Hs by (simpl; eauto).
  assert (NoDup (map row_id (polls (store 0)))) as Hkey by compute_done.
  assert (forall s, truthy (trim s) = true -> ~ blank s) as Hgiven
    by (unfold blank; congruence).
  split; [|split].
  - apply (vote_failure_messages alice no_faults (mkVoteData "p2" "a") (store 0));
      [exact Hs | by apply Hgiven | by apply Hgiven | reflexivity | exact Hkey |].
    intros p Hin. simpl in Hin.
    repeat (apply elem_of_cons in Hin as [-> | Hin]); simpl; try discriminate; try reflexivity.
    by apply not_elem_of_nil in Hin.
  - apply (vote_failure_messages alice no_faults (mkVoteData "p3" "c") (store 0)
             Hs (Hgiven "p3" eq_refl) (Hgiven "c" eq_refl) eq_refl Hkey) with (p := ended);
      [compute_done | reflexivity | reflexivity | reflexivity].
  - apply (vote_failure_messages alice no_faults (mkVoteData "p1" "c") (store 0)
             Hs (Hgiven "p1" eq_refl) (Hgiven "c" eq_refl) eq_refl Hkey) with (p := lunch);
      [compute_done | reflexivity | reflexivity | reflexivity |].
    intros o Hin. simpl in Hin.
    repeat (apply elem_of_cons in Hin as [-> | Hin]); simpl; try discriminate.
    by apply not_elem_of_nil in Hin.
Defined.

(** C2, as stated, fails: a vote on a poll that does not exist and a vote on
    a deactivated poll return the very same failure, so that a caller
    cannot tell the two apart. *)
Lemma missing_and_deactivated_indistinguishable :
  ("p9" ∉ map row_id (polls (store 0)))
  /\ closed ∈ polls (store 0) /\ row_is_active closed = false
  /\ snd (voteOnPoll alice no_faults (mkVoteData "p9" "a") (store 0))
     = snd (voteOnPoll alice no_faults (mkVoteData (row_id closed) "a") (store 0))
  /\ failsWith "Poll not found or inactive"
       (snd (voteOnPoll alice no_faults (mkVoteData (row_id closed) "a") (store 0))).
Proof.
  repeat split; try reflexivity; compute_done.
Qed.

(** C5, as the code has it.  For an active poll whose expiry is in the
    past, a vote by a signed-in caller, answered by the store, fails with
    "This poll has expired" for every non-blank option identifier, whether
    or not it names an option of the poll; the store is left as it was. *)
Theorem expired_poll_refuses_every_option (env : Env) (faults : Faults) (db : DB)
    (p : PollRow) (optionId : string) :
  is_Some (session env) ->
  faults 0%nat = None ->
  NoDup (map row_id (polls db)) ->
  p ∈ polls db -> ~ blank (row_id p) -> row_is_active p = true ->
  isExpired (now env) (row_expires_at p) = true ->
  ~ blank optionId ->
  refusedWith "This poll has expired" db
    (voteOnPoll env faults (mkVoteData (row_id p) optionId) db).
Proof.
  intros Hs Hf Hkey Hin Hpid Hact Hexp Hoid.
  rewrite (vote_expired env faults (mkVoteData (row_id p) optionId) db
             Hs Hpid Hoid Hf Hkey p Hin eq_refl Hact Hexp).
  split; [reflexivity|]. by apply apiError_failsWith.
Qed.

Lemma expired_poll_refuses_every_option_witness :
  refusedWith "This poll has expired" (store 0)
    (voteOnPoll alice no_faults (mkVoteData "p3" "c") (store 0))
  /\ refusedWith "This poll has expired" (store 0)
       (voteOnPoll alice no_faults (mkVoteData "p3" "no such option") (store 0)).
Proof.
  assert (forall s, truthy (trim s) = true -> ~ blank s) as Hgiven
    by (unfold blank; congruence).
  split.
  - apply (expired_poll_refuses_every_option alice no_faults (store 0) ended "c");
      first [ by apply Hgiven | compute_done | reflexivity | (simpl; eauto) ].
  - apply (expired_poll_refuses_every_option alice no_faults (store 0) ended "no such option");
      first [ by apply Hgiven | compute_done | reflexivity | (simpl; eauto) ].
Defined.

(** C5, as stated, fails on two kinds of input: a poll past its expiry that
    is also deactivated is answered "Poll not found or inactive", and a
    blank option identifier is answered by the validation failure before
    the poll is looked at. *)
Lemma expired_poll_other_failures :
  (lapsed ∈ polls (store 0)
   /\ isExpired (now alice) (row_expires_at lapsed) = true
   /\ failsWith "Poll not found or inactive"
        (snd (voteOnPoll alice no_faults (mkVoteData (row_id lapsed) "a") (store 0)))
   /\ ~ failsWith "This poll has expired"
        (snd (voteOnPoll alice no_faults (mkVoteData (row_id lapsed) "a") (store 0))))
  /\ (ended ∈ polls (store 0)
      /\ isExpired (now alice) (row_expires_at ended) = true
      /\ failsWith "Validation failed"
           (snd (voteOnPoll alice no_faults (mkVoteData (row_id ended) " ") (store 0)))
      /\ ~ failsWith "This poll has expired"
           (snd (voteOnPoll alice no_faults (mkVoteData (row_id ended) " ") (store 0)))).
Proof.
  repeat split; try reflexivity; compute_done.
Qed.

(** ** [voteOnPoll]: the successful call *)

(** A call that reports success went through every request: it found the
    active, unexpired poll and the option, wrote the count read plus one,
    and returned what [getPoll] then read. *)
Lemma voteOnPoll_success (env : Env) (faults : Faults) (voteData : VoteData)
    (db db' : DB) (r : PollOperationResult Poll) :
  voteOnPoll env faults voteData db = (db', r) -> success r = true ->
  exists poll opt,
    activePollsById (poll_id voteData) db = [poll]
    /\ isExpired (now env) (row_expires_at poll) = false
    /\ optionsByIdAndPoll (option_id voteData) (poll_id voteData) db = [opt]
    /\ faults 2%nat = None
    /\ db' = setVotes (option_id voteData) (votes opt + 1) db
    /\ r = getPoll (faults 3%nat) (poll_id voteData) db'.
Proof.
  unfold voteOnPoll.
  destruct (success (validateVoteData voteData)) eqn:Hchk; cbn [negb].
  2:{ intros [= <- <-]. congruence. }
  destruct (getAuthenticatedClient env); [intros [= <- <-]; discriminate|].
  destruct (request (faults 0%nat) _) as [e|poll] eqn:Hpoll; [intros [= <- <-]; discriminate|].
  destruct (isExpired (now env) (row_expires_at poll)) eqn:Hexp; [intros [= <- <-]; discriminate|].
  destruct (request (faults 1%nat) _) as [e|opt] eqn:Hopt; [intros [= <- <-]; discriminate|].
  destruct (faults 2%nat) as [e|] eqn:Hf2.
  { intros [= <- <-]. by rewrite handleDatabaseError_failure. }
  intros [= <- <-] _. exists poll, opt.
  unfold request in Hpoll, Hopt.
  destruct (faults 0%nat); [discriminate|]. destruct (faults 1%nat); [discriminate|].
  apply single_inr in Hpoll. apply single_inr in Hopt. by repeat split.
Qed.

Lemma setVotes_bumps (optionId : string) (v : Z) (db : DB) (o : PollOption) :
  o ∈ poll_options db -> opt_id o = optionId ->
  mkPollOption (opt_id o) (opt_poll_id o) (text o) v (order_index o)
  ∈ poll_options (setVotes optionId v db).
Proof.
  intros Hin Hid. unfold setVotes. simpl.
  apply list_elem_of_fmap. exists o. split; [|exact Hin].
  by rewrite decide_True.
Qed.

Lemma singleton_filter {A} (P : A -> Prop) `{forall x, Decision (P x)} (l : list A) (x : A) :
  filter P l = [x] -> x ∈ l /\ P x.
Proof.
  intros Hf. assert (x ∈ filter P l) as Hin by (rewrite Hf; left).
  apply list_elem_of_filter in Hin. tauto.
Qed.

(** A call of [voteOnPoll] that runs alone and succeeds returns the poll
    as [getPoll] reads it after the write: the poll voted on, with all its
    options as they stand in the store, the option voted on showing the
    count it had before the call plus one, and [total_votes] their sum. *)
Theorem voteOnPoll_returns_updated_snapshot (env : Env) (faults : Faults)
    (voteData : VoteData) (db db' : DB) (r : PollOperationResult Poll) :
  voteOnPoll env faults voteData db = (db', r) -> success r = true ->
  exists p before after,
    data r = Some p
    /\ id p = poll_id voteData
    /\ options p = optionsOfPoll (poll_id voteData) db'
    /\ total_votes p = sumVotes (options p)
    /\ before ∈ poll_options db
    /\ opt_id before = option_id voteData /\ opt_poll_id before = poll_id voteData
    /\ after ∈ options p
    /\ opt_id after = option_id voteData /\ text after = text before
    /\ votes after = votes before + 1.
Proof.
  intros Hcall Hsucc.
  destruct (voteOnPoll_success _ _ _ _ _ _ Hcall Hsucc)
    as (poll & opt & _ & _ & Hopt & _ & Hdb' & Hr).
  apply singleton_filter in Hopt as (Hin & Hid & Hpoll).
  destruct (data r) as [p|] eqn:Hdata.
  2:{ exfalso. rewrite Hr in Hdata, Hsucc. revert Hdata Hsucc. unfold getPoll.
      destruct (request (faults 3%nat) _); [|discriminate].
      by rewrite handleDatabaseError_failure. }
  rewrite Hr in Hdata. apply getPoll_data in Hdata as (row & Hrow & ->).
  assert (row_id row = poll_id voteData) as Hrid.
  { unfold request in Hrow. destruct (faults 3%nat); [discriminate|].
    apply single_inr in Hrow. by apply singleton_filter in Hrow as (_ & ?). }
  exists (completePoll row (optionsOfPoll (row_id row) db')
            (totalVotesOf (optionsOfPoll (row_id row) db'))),
         opt,
         (mkPollOption (opt_id opt) (opt_poll_id opt) (text opt) (votes opt + 1) (order_index opt)).
  simpl. rewrite Hrid. repeat split; try done.
  - apply totalVotesOf_sum.
  - unfold optionsOfPoll. apply list_elem_of_filter. split; [exact Hpoll|].
    rewrite Hdb'. by apply setVotes_bumps.
Qed.

Lemma voteOnPoll_returns_updated_snapshot_witness :
  success (snd (voteOnPoll alice no_faults (mkVoteData "p1" "a") (store 41))) = true
  /\ exists p before after,
       data (snd (voteOnPoll alice no_faults (mkVoteData "p1" "a") (store 41))) = Some p
       /\ id p = "p1"
       /\ options p
          = optionsOfPoll "p1" (fst (voteOnPoll alice no_faults (mkVoteData "p1" "a") (store 41)))
       /\ total_votes p = sumVotes (options p)
       /\ before ∈ poll_options (store 41)
       /\ opt_id before = "a" /\ opt_poll_id before = "p1"
       /\ after ∈ options p
       /\ opt_id after = "a" /\ text after = text before
       /\ votes after = votes before + 1.
Proof.
  assert (success (snd (voteOnPoll alice no_faults (mkVoteData "p1" "a") (store 41))) = true)
    as H by (vm_compute; reflexivity).
  split; [exact H|].
  exact (voteOnPoll_returns_updated_snapshot alice no_faults (mkVoteData "p1" "a") (store 41)
           _ _ (surjective_pairing _) H).
Defined.

(** ** Calls in flight *)

(** Run alone, the steps of a call compose to [voteOnPoll]: the task
    always ends as [VoteReturned], with the result and the store of the
    function. *)
Lemma runAlone_voteOnPoll (env : Env) (faults : Faults) (voteData : VoteData) (db : DB) :
  runAlone env faults voteData db
  = (fst (voteOnPoll env faults voteData db),
     VoteReturned (snd (voteOnPoll env faults voteData db))).
Proof.
  unfold runAlone, voteOnPoll. cbn [voteStep].
  destruct (negb (success (validateVoteData voteData))); [reflexivity|].
  destruct (getAuthenticatedClient env); [reflexivity|].
  cbn [voteStep].
  destruct (request (faults 0%nat) _) as [e|poll]; [reflexivity|].
  destruct (isExpired (now env) (row_expires_at poll)); [reflexivity|].
  cbn [voteStep].
  destruct (request (faults 1%nat) _) as [e|opt]; [reflexivity|].
  cbn [voteStep].
  destruct (faults 2%nat); reflexivity.
Qed.

(** C1, on the code.  Two calls of [voteOnPoll] for the same option, their
    requests taken in turn: both read the option row with the count [n]
    and wait to write, both write [n + 1], both report success, and the
    option ends at [n + 1] instead of [n + 2]. *)
Theorem concurrent_votes_lose_an_update (n : Z) :
  let vote := VoteCalled (mkVoteData "p1" "a") in
  let st := runSchedule alice [0; 1; 0; 1; 0; 1; 0; 1; 0; 1]%nat (store n, [vote; vote]) in
  votesOf "a" (store n) = Some n
  /\ snd (runSchedule alice [0; 1; 0; 1; 0; 1]%nat (store n, [vote; vote]))
     = [VoteAwaitsUpdate (mkVoteData "p1" "a") (pizza n);
        VoteAwaitsUpdate (mkVoteData "p1" "a") (pizza n)]
  /\ map returnedSuccess (snd st) = [true; true]
  /\ votesOf "a" (fst st) = Some (n + 1).
Proof.
  vm_compute. repeat split.
Qed.

(** C3, on the code.  Three calls of [voteOnPoll] for the same option: the
    first reads the count [n] and is then overtaken by the two others,
    which bring the count to [n + 2]; its write then sets the count to
    [n + 1], lowering it, and it goes on to report success. *)
Theorem stale_write_lowers_a_count (n : Z) :
  let vote := VoteCalled (mkVoteData "p1" "a") in
  let overtaken :=
    runSchedule alice [0; 0; 0; 1; 1; 1; 1; 1; 2; 2; 2; 2; 2]%nat
                (store n, [vote; vote; vote]) in
  let written := stepTask alice 0 overtaken in
  let finished := stepTask alice 0 written in
  votesOf "a" (fst overtaken) = Some (n + 2)
  /\ votesOf "a" (fst written) = Some (n + 1)
  /\ map returnedSuccess (snd finished) = [true; true; true].
Proof.
  replace (n + 2) with (n + 1 + 1) by lia.
  vm_compute. repeat split.
Qed.

(** C6, on the code.  Three calls of [voteOnPoll] for the same option.
    The second reads the count [n] and waits to write; the third runs to
    its end and leaves [n + 1]; the first then reads [n + 1] and writes
    [n + 2].  Now the second writes its [n + 1], and the first, reading the
    poll back, returns with success a poll in which the option stands at
    [n + 1]: the count it had read, without the increment it has just
    made. *)
Theorem interleaved_vote_returns_stale_snapshot (n : Z) :
  let vote := VoteCalled (mkVoteData "p1" "a") in
  let read :=
    runSchedule alice [1; 1; 1; 2; 2; 2; 2; 2; 0; 0; 0]%nat (store n, [vote; vote; vote]) in
  let written := stepTask alice 0 read in
  let overwritten := stepTask alice 1 written in
  let finished := stepTask alice 0 overwritten in
  snd read !! 0%nat = Some (VoteAwaitsUpdate (mkVoteData "p1" "a") (pizza (n + 1)))
  /\ votesOf "a" (fst written) = Some (n + 1 + 1)
  /\ votesOf "a" (fst overwritten) = Some (n + 1)
  /\ exists r p,
       snd finished !! 0%nat = Some (VoteReturned r)
       /\ success r = true
       /\ data r = Some p
       /\ id p = "p1"
       /\ map opt_id (options p) = ["a"; "b"]
       /\ map votes (options p) = [n + 1; 0].
Proof.
  vm_compute. repeat split. eexists _, _. repeat split.
Qed.

(** C4, on the code.  When the write of the count is done and the read of
    [getPoll] that follows is refused by the store, [voteOnPoll] reports a
    failure although the count has been incremented. *)
Theorem vote_counted_yet_reported_failed (n : Z) :
  let call := voteOnPoll alice last_read_fails (mkVoteData "p1" "a") (store n) in
  success (snd call) = false
  /\ votesOf "a" (store n) = Some n
  /\ votesOf "a" (fst call) = Some (n + 1).
Proof.
  vm_compute. repeat split.
Qed.

(** ** One call at a time *)

Lemma setVotes_ids (optionId : string) (v : Z) (db : DB) :
  map opt_id (poll_options (setVotes optionId v db)) = map opt_id (poll_options db).
Proof.
  unfold setVotes. simpl. rewrite map_map. apply map_ext.
  intros o. by destruct (decide (opt_id o = optionId)).
Qed.

Lemma optionsByIdAndPoll_unique (db : DB) (o : PollOption) :
  NoDup (map opt_id (poll_options db)) -> o ∈ poll_options db ->
  optionsByIdAndPoll (opt_id o) (opt_poll_id o) db = [o].
Proof.
  intros Hnd Hin. unfold optionsByIdAndPoll.
  rewrite (filter_key opt_id (fun y => opt_poll_id y = opt_poll_id o) (poll_options db) o Hnd Hin).
  by rewrite decide_True.
Qed.

Lemma votesOf_unique (db : DB) (o : PollOption) :
  NoDup (map opt_id (poll_options db)) -> o ∈ poll_options db ->
  votesOf (opt_id o) db = Some (votes o).
Proof.
  intros Hnd Hin. unfold votesOf.
  pose proof (filter_key opt_id (fun _ => True) (poll_options db) o Hnd Hin) as Hf.
  simpl in Hf.
  rewrite (list_filter_iff _ (fun y => opt_id y = opt_id o /\ True)) by tauto.
  by rewrite Hf.
Qed.

(** A call that fails before its last request, or whose last request is
    answered, leaves the store as it was. *)
Lemma voteOnPoll_failure_keeps_store (env : Env) (faults : Faults) (voteData : VoteData)
    (db db' : DB) (r : PollOperationResult Poll) :
  NoDup (map row_id (polls db)) -> faults 3%nat = None ->
  voteOnPoll env faults voteData db = (db', r) -> success r = false -> db' = db.
Proof.
  intros Hkey Hf3. unfold voteOnPoll.
  destruct (negb (success (validateVoteData voteData))); [by intros [= <- <-]|].
  destruct (getAuthenticatedClient env); [by intros [= <- <-]|].
  destruct (request (faults 0%nat) _) as [e|poll] eqn:Hpoll; [by intros [= <- <-]|].
  destruct (isExpired (now env) (row_expires_at poll)); [by intros [= <- <-]|].
  destruct (request (faults 1%nat) _) as [e|opt]; [by intros [= <- <-]|].
  destruct (faults 2%nat); [by intros [= <- <-]|].
  intros [= <- <-]. rewrite Hf3.
  unfold request in Hpoll. destruct (faults 0%nat); [discriminate|].
  apply single_inr, singleton_filter in Hpoll as (Hin & Hid & _).
  unfold getPoll, pollsById. cbn [setVotes polls request].
  fold (pollsById (poll_id voteData) db).
  rewrite <- Hid, (pollsById_unique db poll Hkey Hin). discriminate.
Qed.

(** Run to its end without a fault, a call never lowers a count: every
    option row is still there, with its count or one more. *)
Lemma voteOnPoll_alone_never_lowers (env : Env) (faults : Faults) (voteData : VoteData)
    (db db' : DB) (r : PollOperationResult Poll) (o : PollOption) :
  NoDup (map opt_id (poll_options db)) ->
  voteOnPoll env faults voteData db = (db', r) ->
  o ∈ poll_options db ->
  exists o', o' ∈ poll_options db'
             /\ opt_id o' = opt_id o /\ opt_poll_id o' = opt_poll_id o /\ text o' = text o
             /\ votes o <= votes o' <= votes o + 1.
Proof.
  intros Hkey Hcall Hin.
  assert (db' = db \/ exists opt, optionsByIdAndPoll (option_id voteData) (poll_id voteData) db = [opt]
                                  /\ db' = setVotes (option_id voteData) (votes opt + 1) db)
    as [-> | (opt & Hopt & ->)].
  { revert Hcall. unfold voteOnPoll.
    destruct (negb (success (validateVoteData voteData))); [intros [= <- <-]; by left|].
    destruct (getAuthenticatedClient env); [intros [= <- <-]; by left|].
    destruct (request (faults 0%nat) _) as [e|poll]; [intros [= <- <-]; by left|].
    destruct (isExpired (now env) (row_expires_at poll)); [intros [= <- <-]; by left|].
    destruct (request (faults 1%nat) _) as [e|opt] eqn:Hopt; [intros [= <- <-]; by left|].
    destruct (faults 2%nat); [intros [= <- <-]; by left|].
    intros [= <- <-]. right. exists opt. split; [|reflexivity].
    unfold request in Hopt. destruct (faults 1%nat); [discriminate|]. by apply single_inr. }
  - exists o. repeat split; [exact Hin|lia|lia].
  - apply singleton_filter in Hopt as (Hoin & Hoid & _).
    destruct (decide (opt_id o = option_id voteData)) as [Hsame|Hother].
    + assert (o = opt) as ->.
      { assert (opt ∈ filter (fun y => opt_id y = opt_id o /\ True) (poll_options db)) as Hm.
        { apply list_elem_of_filter. split; [split; [congruence|exact I]|exact Hoin]. }
        rewrite (filter_key opt_id (fun _ => True) (poll_options db) o Hkey Hin) in Hm.
        simpl in Hm. by apply list_elem_of_singleton in Hm. }
      eexists. split; [by apply setVotes_bumps|]. simpl. repeat split; lia.
    + exists o. repeat split; try lia.
      unfold setVotes. simpl. apply list_elem_of_fmap. exists o.
      split; [|exact Hin]. by rewrite decide_False.
Qed.

Section OneAtATime.

Variables (env : Env) (voteData : VoteData).

Hypothesis signed_in : is_Some (session env).
Hypothesis poll_id_given : ~ blank (poll_id voteData).
Hypothesis option_id_given : ~ blank (option_id voteData).

Lemma vote_alone_increments (db : DB) (o : PollOption) :
  votable env voteData db o ->
  exists r, voteOnPoll env no_faults voteData db
            = (setVotes (option_id voteData) (votes o + 1) db, r)
            /\ success r = true.
Proof.
  intros ((Hpk & Hok) & (p & Hp & Hpid & Hact & Hexp) & Ho & Hoid & Hopoll).
  rewrite (vote_passes_the_gate env no_faults voteData db
             signed_in poll_id_given option_id_given).
  unfold no_faults. cbn [request].
  rewrite <- Hpid, (activePollsById_unique db p Hpk Hp), Hact. cbn [single].
  rewrite Hexp, Hpid, <- Hoid, <- Hopoll, (optionsByIdAndPoll_unique db o Hok Ho).
  cbn [single]. eexists. split; [reflexivity|].
  unfold getPoll, pollsById. cbn [setVotes polls request].
  fold (pollsById (opt_poll_id o) db).
  rewrite Hopoll, <- Hpid, (pollsById_unique db p Hpk Hp). reflexivity.
Qed.

Lemma votable_after_vote (db : DB) (o : PollOption) :
  votable env voteData db o ->
  votable env voteData (setVotes (option_id voteData) (votes o + 1) db)
          (mkPollOption (opt_id o) (opt_poll_id o) (text o) (votes o + 1) (order_index o)).
Proof.
  intros ((Hpk & Hok) & Hpoll & Ho & Hoid & Hopoll).
  split; [split|split; [|split]].
  - exact Hpk.
  - by rewrite setVotes_ids.
  - exact Hpoll.
  - by apply setVotes_bumps.
  - by split.
Qed.

(** [m] calls, one at a time, all succeed and leave the count at the
    count before plus [m]. *)
Lemma votesInTurn_counts (m : nat) (db : DB) (o : PollOption) :
  votable env voteData db o ->
  exists db', votesInTurn env voteData m db = (db', true)
              /\ votesOf (option_id voteData) db' = Some (votes o + Z.of_nat m).
Proof.
  revert db o. induction m as [|m IH]; intros db o Hv.
  - exists db. split; [reflexivity|].
    destruct Hv as ((_ & Hok) & _ & Ho & <- & _).
    rewrite (votesOf_unique db o Hok Ho). f_equal. lia.
  - destruct (vote_alone_increments db o Hv) as (r & Hcall & Hsucc).
    destruct (IH _ _ (votable_after_vote db o Hv)) as (db' & Hrest & Hcount).
    exists db'. cbn [votesInTurn]. rewrite Hcall, Hrest, Hsucc.
    split; [reflexivity|]. rewrite Hcount. cbn [votes]. f_equal. lia.
Qed.

End OneAtATime.

(** ** Ownership *)

(** [updatePoll] and [deletePoll] hand [checkPollOwnership] the user's
    identifier, a string; the comparison then reads [user.id] off that
    string, and the answer is [false] whatever the store holds. *)
Lemma checkPollOwnership_given_id (env : Env) (fault : option DbError)
    (pollId userId : string) (db : DB) :
  truthy userId = true ->
  checkPollOwnership env fault pollId (Some userId) db = inr false.
Proof.
  intros Hid. unfold checkPollOwnership. rewrite Hid.
  by destruct (request fault (single (pollsById pollId db))).
Qed.

Lemma updatePoll_changes_nothing (env : Env) (faults : Faults) (pollId : string)
    (updateData : UpdatePollData) (db : DB) (user : User) :
  session env = Some user -> truthy (user_id user) = true ->
  fst (updatePoll env faults pollId updateData db) = db
  /\ success (snd (updatePoll env faults pollId updateData db)) = false.
Proof.
  intros Hs Hid. unfold updatePoll.
  destruct (success (validateUpdatePollData (now env) updateData)) eqn:Hchk; cbn [negb].
  2:{ cbn [fst snd]. by rewrite Hchk. }
  unfold getAuthenticatedClient. rewrite Hs.
  by rewrite (checkPollOwnership_given_id _ _ _ _ _ Hid).
Qed.

Lemma deletePoll_changes_nothing (env : Env) (faults : Faults) (pollId : string)
    (db : DB) (user : User) :
  session env = Some user -> truthy (user_id user) = true ->
  fst (deletePoll env faults pollId db) = db
  /\ success (snd (deletePoll env faults pollId db)) = false.
Proof.
  intros Hs Hid. unfold deletePoll, getAuthenticatedClient. rewrite Hs.
  by rewrite (checkPollOwnership_given_id _ _ _ _ _ Hid).
Qed.

(** ** The in-memory route *)

Lemma incrementFound_head (optionId : string) (opts : list MemOption) (o : MemOption) :
  head (filter (fun x => mo_id x = optionId) opts) = Some o ->
  exists opts',
    incrementFound optionId opts = Some opts'
    /\ head (filter (fun x => mo_id x = optionId) opts')
       = Some (mkMemOption (mo_id o) (mo_text o) (mo_votes o + 1)).
Proof.
  induction opts as [|x rest IH]; [discriminate|].
  cbn [incrementFound]. destruct (decide (mo_id x = optionId)) as [Hid|Hid].
  - rewrite filter_cons_True by exact Hid. intros [= ->].
    eexists. split; [reflexivity|]. by rewrite filter_cons_True.
  - rewrite filter_cons_False by exact Hid. intros Hhead.
    destruct (IH Hhead) as (opts' & -> & Hhead').
    eexists. split; [reflexivity|]. by rewrite filter_cons_False.
Qed.

(** The handler finds the option and counts the vote in one go. *)
Lemma POST_counts (wss : option (list Client)) (pollId optionId : string)
    (polls : gmap string MemPoll) (n : Z) :
  memVotesOf pollId optionId polls = Some n ->
  exists polls' sent poll',
    POST wss pollId (Some optionId) polls = (polls', sent, Ok200 poll')
    /\ memVotesOf pollId optionId polls' = Some (n + 1).
Proof.
  unfold memVotesOf, POST. destruct (polls !! pollId) as [poll|]; [|discriminate].
  destruct (head (filter _ (mp_options poll))) as [o|] eqn:Hhead; [|discriminate].
  intros [= <-]. destruct (incrementFound_head _ _ _ Hhead) as (opts' & -> & Hhead').
  eexists _, _, _. split; [reflexivity|].
  rewrite lookup_insert_eq. cbn [mp_options]. by rewrite Hhead'.
Qed.

(** The handler runs from the lookup to the increment without suspension,
    so that requests are handled one after the other: [m] of them for one
    option all succeed and leave its count at the count before plus [m]. *)
Lemma postsInTurn_counts (wss : option (list Client)) (pollId optionId : string)
    (m : nat) (polls : gmap string MemPoll) (n : Z) :
  memVotesOf pollId optionId polls = Some n ->
  exists polls', postsInTurn wss pollId optionId m polls = (polls', true)
                 /\ memVotesOf pollId optionId polls' = Some (n + Z.of_nat m).
Proof.
  revert polls n. induction m as [|m IH]; intros polls n Hn.
  - exists polls. split; [reflexivity|]. rewrite Hn. f_equal. lia.
  - destruct (POST_counts wss _ _ _ _ Hn) as (polls1 & sent & poll' & Hpost & Hn1).
    destruct (IH _ _ Hn1) as (polls' & Hrest & Hcount).
    exists polls'. cbn [postsInTurn]. rewrite Hpost, Hrest.
    split; [reflexivity|]. rewrite Hcount. f_equal. lia.
Qed.

(* ===================================================================== *)
(** * Part III: further properties of the code *)
(* ===================================================================== *)

(** ** Well-formed stores *)

Lemma gen_id_inj (j k : nat) : gen_id j = gen_id k -> j = k.
Proof. unfold gen_id. apply (inj pretty). Qed.

Lemma setVotes_poll_ids (optionId : string) (v : Z) (db : DB) :
  map opt_poll_id (poll_options (setVotes optionId v db)) = map opt_poll_id (poll_options db).
Proof.
  unfold setVotes. simpl. rewrite map_map. apply map_ext.
  intros o. by destruct (decide (opt_id o = optionId)).
Qed.

Lemma wellFormed_emptyStore : wellFormed emptyStore.
Proof.
  repeat split; simpl; try constructor; try (intros o Ho; by apply not_elem_of_nil in Ho);
    apply not_elem_of_nil.
Qed.

Lemma wellFormed_setVotes (optionId : string) (v : Z) (db : DB) :
  0 <= v -> wellFormed db -> wellFormed (setVotes optionId v db).
Proof.
  intros Hv ((Hpk & Hok) & Hfk & Hfresh & Hvotes).
  split; [split|split; [|split]].
  - exact Hpk.
  - by rewrite setVotes_ids.
  - intros o Ho.
    assert (opt_poll_id o ∈ map opt_poll_id (poll_options (setVotes optionId v db))) as Hin
      by (by apply list_elem_of_fmap_2).
    rewrite setVotes_poll_ids in Hin.
    apply list_elem_of_fmap in Hin as (o0 & -> & Ho0). by apply Hfk.
  - intros k Hk. rewrite setVotes_ids, setVotes_poll_ids. by apply Hfresh.
  - intros o Ho. unfold setVotes in Ho. simpl in Ho.
    apply list_elem_of_fmap in Ho as (o0 & -> & Ho0).
    destruct (decide (opt_id o0 = optionId)); simpl; [exact Hv|by apply Hvotes].
Qed.

Lemma wellFormed_insertPoll (now : Z) (r : PollInsert) (db : DB) :
  wellFormed db -> wellFormed (snd (insertPoll now r db)).
Proof.
  intros ((Hpk & Hok) & Hfk & Hfresh & Hvotes). unfold insertPoll. simpl.
  destruct (Hfresh (next_id db) (le_n _)) as (Hnew & _ & _).
  split; [split|split; [|split]]; simpl.
  - rewrite map_app. apply NoDup_app. split; [exact Hpk|]. split.
    + intros x Hx Hx'. simpl in Hx'. apply list_elem_of_singleton in Hx'. by subst.
    + apply NoDup_singleton.
  - exact Hok.
  - intros o Ho. rewrite map_app. apply elem_of_app. left. by apply Hfk.
  - intros k Hk. simpl in Hk. destruct (Hfresh k ltac:(lia)) as (H1 & H2 & H3).
    repeat split; [|exact H2|exact H3].
    cbn [polls]. rewrite map_app. intros [Hin|Hin]%elem_of_app; [by apply H1|].
    simpl in Hin. apply list_elem_of_singleton, gen_id_inj in Hin. lia.
  - exact Hvotes.
Qed.

Lemma assignIds_poll_ids (n : nat) (rows : list OptionInsert) :
  map opt_poll_id (assignIds n rows) = map ins_poll_id rows.
Proof. revert n. induction rows as [|r rows IH]; intros n; simpl; [|rewrite IH]; reflexivity. Qed.

Lemma wellFormed_insertOptions (rows : list OptionInsert) (db db' : DB)
    (created : list PollOption) :
  wellFormed db -> (forall r, r ∈ rows -> 0 <= ins_votes r) ->
  insertOptions rows db = inr (created, db') -> wellFormed db'.
Proof.
  intros ((Hpk & Hok) & Hfk & Hfresh & Hvotes) Hrows. unfold insertOptions.
  destruct (forallb _ rows) eqn:Hall; [|discriminate]. intros [= <- <-].
  assert (forall r, r ∈ rows -> ins_poll_id r ∈ map row_id (polls db)) as Hexists.
  { intros r Hr. rewrite forallb_forall in Hall.
    apply list_elem_of_In, Hall in Hr. unfold pollExists in Hr.
    by apply bool_decide_eq_true in Hr. }
  split; [split|split; [|split]]; simpl.
  - exact Hpk.
  - rewrite map_app. apply NoDup_app. split; [exact Hok|]. split; [|apply assignIds_NoDup].
    intros x Hx. rewrite assignIds_ids. intros (k & -> & Hk)%list_elem_of_fmap.
    apply elem_of_seq in Hk. destruct (Hfresh k ltac:(lia)) as (_ & H2 & _). by apply H2.
  - intros o [Ho|Ho]%elem_of_app; [by apply Hfk|].
    assert (opt_poll_id o ∈ map opt_poll_id (assignIds (next_id db) rows)) as Hin
      by (by apply list_elem_of_fmap_2).
    rewrite assignIds_poll_ids in Hin.
    apply list_elem_of_fmap in Hin as (r & -> & Hr). by apply Hexists.
  - intros k Hk. simpl in Hk. destruct (Hfresh k ltac:(lia)) as (H1 & H2 & H3).
    repeat split; [exact H1| |]; cbn [poll_options].
    + rewrite map_app. intros [Hin|Hin]%elem_of_app; [by apply H2|].
      rewrite assignIds_ids in Hin. apply list_elem_of_fmap in Hin as (j & Hj & Hin).
      apply gen_id_inj in Hj. apply elem_of_seq in Hin. lia.
    + rewrite map_app. intros [Hin|Hin]%elem_of_app; [by apply H3|].
      rewrite assignIds_poll_ids in Hin. apply list_elem_of_fmap in Hin as (r & Hr & Hin).
      apply H1. rewrite Hr. by apply Hexists.
  - intros o [Ho|Ho]%elem_of_app; [by apply Hvotes|].
    apply assignIds_votes in Ho as (r & Hr & ->). by apply Hrows.
Qed.

Lemma NoDup_map_filter {A} (key : A -> string) (P : A -> Prop) `{forall x, Decision (P x)}
    (l : list A) :
  NoDup (map key l) -> NoDup (map key (filter P l)).
Proof.
  intros Hnd. eapply sublist_NoDup; [exact Hnd|].
  apply (fmap_sublist key), sublist_filter.
Qed.

Lemma not_in_map_filter {A} (key : A -> string) (P : A -> Prop) `{forall x, Decision (P x)}
    (l : list A) (x : string) :
  x ∉ map key l -> x ∉ map key (filter P l).
Proof.
  intros Hx (y & -> & Hy)%list_elem_of_fmap. apply Hx.
  apply list_elem_of_filter in Hy as (_ & Hy). by apply list_elem_of_fmap_2.
Qed.

Lemma wellFormed_deletePollRow (pollId : string) (db : DB) :
  wellFormed db -> wellFormed (deletePollRow pollId db).
Proof.
  intros ((Hpk & Hok) & Hfk & Hfresh & Hvotes). unfold deletePollRow.
  split; [split|split; [|split]]; simpl.
  - by apply NoDup_map_filter.
  - by apply NoDup_map_filter.
  - intros o (Hne & Ho)%list_elem_of_filter.
    apply Hfk, list_elem_of_fmap in Ho as (p & Hp & Hin).
    apply list_elem_of_fmap. exists p. split; [exact Hp|].
    apply list_elem_of_filter. split; [congruence|exact Hin].
  - intros k Hk. destruct (Hfresh k Hk) as (H1 & H2 & H3).
    repeat split; by apply not_in_map_filter.
  - intros o (_ & Ho)%list_elem_of_filter. by apply Hvotes.
Qed.

Lemma wellFormed_deleteOptionsOfPoll (pollId : string) (db : DB) :
  wellFormed db -> wellFormed (deleteOptionsOfPoll pollId db).
Proof.
  intros ((Hpk & Hok) & Hfk & Hfresh & Hvotes). unfold deleteOptionsOfPoll.
  split; [split|split; [|split]]; simpl.
  - exact Hpk.
  - by apply NoDup_map_filter.
  - intros o (_ & Ho)%list_elem_of_filter. by apply Hfk.
  - intros k Hk. destruct (Hfresh k Hk) as (H1 & H2 & H3).
    repeat split; [exact H1|by apply not_in_map_filter..].
  - intros o (_ & Ho)%list_elem_of_filter. by apply Hvotes.
Qed.

Lemma updatePollRows_ids (now : Z) (updateData : UpdatePollData) (pollId : string) (db : DB) :
  map row_id (polls (updatePollRows now updateData pollId db)) = map row_id (polls db).
Proof.
  unfold updatePollRows. simpl. rewrite map_map. apply map_ext.
  intros p. by destruct (decide (row_id p = pollId)).
Qed.

Lemma wellFormed_updatePollRows (now : Z) (updateData : UpdatePollData) (pollId : string)
    (db : DB) :
  wellFormed db -> wellFormed (updatePollRows now updateData pollId db).
Proof.
  intros ((Hpk & Hok) & Hfk & Hfresh & Hvotes).
  split; [split|split; [|split]]; rewrite ?updatePollRows_ids; try done.
  intros k Hk. rewrite updatePollRows_ids. by apply Hfresh.
Qed.

Lemma createPoll_keeps_wellFormed (env : Env) (faults : Faults) (pollData : CreatePollData)
    (db : DB) :
  wellFormed db -> wellFormed (fst (createPoll env faults pollData db)).
Proof.
  intros Hwf. unfold createPoll.
  destruct (negb (success _)); [exact Hwf|].
  destruct (getAuthenticatedClient env) as [thrown|user]; [exact Hwf|].
  destruct (faults 0%nat); cbn [request]; [exact Hwf|].
  set (inserted := insertPoll _ _ db).
  assert (wellFormed (snd inserted)) as Hwf1 by (by apply wellFormed_insertPoll).
  destruct inserted as [poll db1]. cbn [snd] in Hwf1.
  match goal with |- context [insertOptions ?rows db1] =>
    destruct (insertOptions rows db1) as [e|[created db2]] eqn:Hins end.
  - assert (wellFormed
              (match request (faults 2%nat) (inr (deletePollRow (row_id poll) db1)) with
               | inl _ => db1 | inr cleaned => cleaned end)) as Hclean.
    { destruct (faults 2%nat); cbn [request];
        [exact Hwf1|by apply wellFormed_deletePollRow]. }
    by destruct (faults 1%nat).
  - destruct (faults 1%nat); cbn [request fst].
    + destruct (faults 2%nat); cbn [request];
        [exact Hwf1|by apply wellFormed_deletePollRow].
    + eapply wellFormed_insertOptions; [exact Hwf1| |exact Hins].
      intros r (i & Hi)%list_elem_of_lookup. rewrite list_lookup_imap in Hi.
      destruct (new_options pollData !! i); [|discriminate]. by injection Hi as <-.
Qed.

Lemma updatePoll_keeps_wellFormed (env : Env) (faults : Faults) (pollId : string)
    (updateData : UpdatePollData) (db : DB) :
  wellFormed db -> wellFormed (fst (updatePoll env faults pollId updateData db)).
Proof.
  intros Hwf. unfold updatePoll.
  destruct (negb (success _)); [exact Hwf|].
  destruct (getAuthenticatedClient env) as [thrown|user]; [exact Hwf|].
  destruct (checkPollOwnership _ _ _ _ _) as [thrown|[|]]; [exact Hwf| |exact Hwf].
  set (db1 := applied (faults 1%nat) db _).
  assert (wellFormed db1) as Hwf1.
  { subst db1. unfold applied. destruct (faults 1%nat); [exact Hwf|].
    by apply wellFormed_updatePollRows. }
  destruct (request (faults 1%nat) _) as [e|poll]; [exact Hwf1|].
  destruct (upd_options updateData) as [newOptions|]; [|exact Hwf1].
  destruct (faults 2%nat); [exact Hwf1|].
  assert (wellFormed (deleteOptionsOfPoll pollId db1)) as Hwf2
    by (by apply wellFormed_deleteOptionsOfPoll).
  match goal with |- context [insertOptions ?rows ?d] =>
    destruct (insertOptions rows d) as [e|[created db3]] eqn:Hins end.
  - by destruct (faults 3%nat).
  - destruct (faults 3%nat); cbn [request fst]; [exact Hwf2|].
    eapply wellFormed_insertOptions; [exact Hwf2| |exact Hins].
    intros r (i & Hi)%list_elem_of_lookup. rewrite list_lookup_imap in Hi.
    destruct (newOptions !! i); [|discriminate]. by injection Hi as <-.
Qed.

Lemma deletePoll_keeps_wellFormed (env : Env) (faults : Faults) (pollId : string) (db : DB) :
  wellFormed db -> wellFormed (fst (deletePoll env faults pollId db)).
Proof.
  intros Hwf. unfold deletePoll.
  destruct (getAuthenticatedClient env) as [thrown|user]; [exact Hwf|].
  destruct (checkPollOwnership _ _ _ _ _) as [thrown|[|]]; [exact Hwf| |exact Hwf].
  destruct (faults 1%nat); [exact Hwf|]. by apply wellFormed_deletePollRow.
Qed.

Lemma voteOnPoll_keeps_wellFormed (env : Env) (faults : Faults) (voteData : VoteData)
    (db : DB) :
  wellFormed db -> wellFormed (fst (voteOnPoll env faults voteData db)).
Proof.
  intros Hwf. unfold voteOnPoll.
  destruct (negb (success _)); [exact Hwf|].
  destruct (getAuthenticatedClient env) as [thrown|user]; [exact Hwf|].
  destruct (request (faults 0%nat) _) as [e|poll]; [exact Hwf|].
  destruct (isExpired _ _); [exact Hwf|].
  destruct (request (faults 1%nat) _) as [e|opt] eqn:Hopt; [exact Hwf|].
  destruct (faults 2%nat); [exact Hwf|]. cbn [fst].
  apply wellFormed_setVotes; [|exact Hwf].
  unfold request in Hopt. destruct (faults 1%nat); [discriminate|].
  apply single_inr, singleton_filter in Hopt as (Hin & _).
  destruct Hwf as (_ & _ & _ & Hvotes). specialize (Hvotes _ Hin). lia.
Qed.

(** X1.  Every operation that writes keeps the store well-formed, whatever
    the session, the input and the faults of the store: the keys stay
    unique, every option belongs to a poll of the store, the identifiers
    still to be assigned occur nowhere, and no count is negative. *)
Theorem operations_keep_store_wellFormed (env : Env) (faults : Faults) (db : DB) :
  wellFormed db ->
  (forall pollData, wellFormed (fst (createPoll env faults pollData db)))
  /\ (forall pollId updateData, wellFormed (fst (updatePoll env faults pollId updateData db)))
  /\ (forall pollId, wellFormed (fst (deletePoll env faults pollId db)))
  /\ (forall voteData, wellFormed (fst (voteOnPoll env faults voteData db))).
Proof.
  intros Hwf. split; [|split; [|split]]; intros.
  - by apply createPoll_keeps_wellFormed.
  - by apply updatePoll_keeps_wellFormed.
  - by apply deletePoll_keeps_wellFormed.
  - by apply voteOnPoll_keeps_wellFormed.
Qed.

Lemma operations_keep_store_wellFormed_witness :
  wellFormed emptyStore
  /\ wellFormed (fst (createPoll alice no_faults
                        (mkCreatePollData "Dessert?" None ["Cake"; "Fruit"] None) emptyStore))
  /\ length (poll_options (fst (createPoll alice no_faults
                        (mkCreatePollData "Dessert?" None ["Cake"; "Fruit"] None) emptyStore)))
     = 2%nat.
Proof.
  split; [exact wellFormed_emptyStore|]. split; [|vm_compute; reflexivity].
  exact (proj1 (operations_keep_store_wellFormed alice no_faults emptyStore
                  wellFormed_emptyStore) _).
Defined.

(** ** Session and ownership *)

Lemma validationOutcome_failure {T} (errs : gmap string string) :
  success (validationOutcome (T := T) errs) = false ->
  failsWith "Validation failed" (validationOutcome (T := T) errs).
Proof.
  unfold validationOutcome, failsWith. cbn [success error].
  destruct (negb (bool_decide (errs = ∅))); [by split|discriminate].
Qed.

Lemma authentication_required {T} :
  failsWith "Authentication required"
    (createErrorResponse (T := T)
       (ofFormError (createFormError "Authentication required" Api))).
Proof. by split. Qed.

(** X2.  Without a signed-in user no operation writes: [createPoll],
    [updatePoll], [deletePoll] and [voteOnPoll] leave the store as it was
    and fail.  The input is validated before the session is looked at: an
    input the validator refuses gets the result of the validator, with
    "Validation failed"; an input it accepts gets "Authentication
    required".  [deletePoll], which validates nothing, always answers
    "Authentication required". *)
Theorem unauthenticated_calls_change_nothing (env : Env) (faults : Faults) (db : DB) :
  session env = None ->
  (forall pollData,
     let call := createPoll env faults pollData db in
     let checked := validateCreatePollData (T := Poll) (now env) pollData in
     fst call = db
     /\ (success checked = false ->
         snd call = checked /\ failsWith "Validation failed" (snd call))
     /\ (success checked = true -> failsWith "Authentication required" (snd call)))
  /\ (forall pollId updateData,
        let call := updatePoll env faults pollId updateData db in
        let checked := validateUpdatePollData (T := Poll) (now env) updateData in
        fst call = db
        /\ (success checked = false ->
            snd call = checked /\ failsWith "Validation failed" (snd call))
        /\ (success checked = true -> failsWith "Authentication required" (snd call)))
  /\ (forall pollId,
        let call := deletePoll env faults pollId db in
        fst call = db /\ failsWith "Authentication required" (snd call))
  /\ (forall voteData,
        let call := voteOnPoll env faults voteData db in
        let checked := validateVoteData (T := Poll) voteData in
        fst call = db
        /\ (success checked = false ->
            snd call = checked /\ failsWith "Validation failed" (snd call))
        /\ (success checked = true -> failsWith "Authentication required" (snd call))).
Proof.
  intros Hs. split; [|split; [|split]]; intros; subst call; try subst checked.
  - unfold createPoll, getAuthenticatedClient. rewrite Hs.
    destruct (success (validateCreatePollData (now env) pollData)) eqn:Hchk; cbn [negb fst snd].
    + split; [reflexivity|]. split; [discriminate|]. intros _. apply authentication_required.
    + split; [reflexivity|]. split; [|discriminate]. intros _. split; [reflexivity|].
      by apply validationOutcome_failure.
  - unfold updatePoll, getAuthenticatedClient. rewrite Hs.
    destruct (success (validateUpdatePollData (now env) updateData)) eqn:Hchk;
      cbn [negb fst snd].
    + split; [reflexivity|]. split; [discriminate|]. intros _. apply authentication_required.
    + split; [reflexivity|]. split; [|discriminate]. intros _. split; [reflexivity|].
      by apply validationOutcome_failure.
  - unfold deletePoll, getAuthenticatedClient. rewrite Hs.
    split; [reflexivity|]. apply authentication_required.
  - unfold voteOnPoll, getAuthenticatedClient. rewrite Hs.
    destruct (success (validateVoteData voteData)) eqn:Hchk; cbn [negb fst snd].
    + split; [reflexivity|]. split; [discriminate|]. intros _. apply authentication_required.
    + split; [reflexivity|]. split; [|discriminate]. intros _. split; [reflexivity|].
      by apply validationOutcome_failure.
Qed.

Lemma unauthenticated_calls_change_nothing_witness :
  fst (voteOnPoll (mkEnv None 1000) no_faults (mkVoteData "p1" "a") (store 3)) = store 3
  /\ failsWith "Authentication required"
       (snd (voteOnPoll (mkEnv None 1000) no_faults (mkVoteData "p1" "a") (store 3)))
  /\ failsWith "Validation failed"
       (snd (voteOnPoll (mkEnv None 1000) no_faults (mkVoteData "p1" " ") (store 3)))
  /\ failsWith "Authentication required"
       (snd (deletePoll (mkEnv None 1000) no_faults "p1" (store 3))).
Proof.
  destruct (unauthenticated_calls_change_nothing (mkEnv None 1000) no_faults (store 3) eq_refl)
    as (_ & _ & Hdelete & Hvote).
  split; [exact (proj1 (Hvote (mkVoteData "p1" "a")))|].
  split; [exact (proj2 (proj2 (Hvote (mkVoteData "p1" "a"))) eq_refl)|].
  split; [exact (proj2 (proj1 (proj2 (Hvote (mkVoteData "p1" " "))) eq_refl))|].
  exact (proj2 (Hdelete "p1")).
Defined.

(** X3.  For a signed-in user, whose identifier is never empty,
    [updatePoll] and [deletePoll] never take effect, not even on a poll the
    user created: the ownership check is handed the identifier and compares
    [created_by] with the [id] property of that string.  The store is left
    as it was; [updatePoll] fails with the validation failure or with "You
    can only update your own polls", [deletePoll] with "You can only delete
    your own polls". *)
Theorem owner_operations_always_refused (env : Env) (faults : Faults) (db : DB)
    (user : User) :
  session env = Some user -> truthy (user_id user) = true ->
  (forall pollId updateData,
     let call := updatePoll env faults pollId updateData db in
     fst call = db
     /\ (failsWith "Validation failed" (snd call)
         \/ failsWith "You can only update your own polls" (snd call)))
  /\ (forall pollId,
        let call := deletePoll env faults pollId db in
        fst call = db /\ failsWith "You can only delete your own polls" (snd call)).
Proof.
  intros Hs Hid. split; intros; subst call.
  - unfold updatePoll, getAuthenticatedClient. rewrite Hs.
    rewrite (checkPollOwnership_given_id _ _ _ _ _ Hid).
    destruct (success (validateUpdatePollData (now env) updateData)) eqn:Hchk;
      cbn [negb fst snd].
    + split; [reflexivity|]. right. by apply apiError_failsWith.
    + split; [reflexivity|]. left. by apply validationOutcome_failure.
  - unfold deletePoll, getAuthenticatedClient. rewrite Hs.
    rewrite (checkPollOwnership_given_id _ _ _ _ _ Hid).
    split; [reflexivity|]. by apply apiError_failsWith.
Qed.

Lemma owner_operations_always_refused_witness :
  row_created_by lunch = "u1" /\ lunch ∈ polls (store 3)
  /\ fst (deletePoll alice no_faults "p1" (store 3)) = store 3
  /\ failsWith "You can only delete your own polls"
       (snd (deletePoll alice no_faults "p1" (store 3)))
  /\ fst (updatePoll alice no_faults "p1"
            (mkUpdatePollData (Some "Lunch today?") None None None None) (store 3)) = store 3.
Proof.
  destruct (owner_operations_always_refused alice no_faults (store 3) (mkUser "u1")
              eq_refl eq_refl) as (Hupdate & Hdelete).
  split; [reflexivity|]. split; [compute_done|].
  split; [exact (proj1 (Hdelete "p1"))|]. split; [exact (proj2 (Hdelete "p1"))|].
  exact (proj1 (Hupdate "p1" _)).
Defined.

(** X4.  Asked without a [userId], [checkPollOwnership] answers for the
    user of the session: [true] exactly when the poll is in the store and
    was created by that user; it throws when there is no session. *)
Theorem checkPollOwnership_of_session (env : Env) (pollId : string) (db : DB) :
  NoDup (map row_id (polls db)) ->
  match session env with
  | None => exists thrown, checkPollOwnership env None pollId None db = inl thrown
  | Some user =>
      exists answer,
        checkPollOwnership env None pollId None db = inr answer
        /\ (answer = true <->
            exists p, p ∈ polls db /\ row_id p = pollId
                      /\ row_created_by p = user_id user)
  end.
Proof.
  intros Hkey. unfold checkPollOwnership, currentOwner, getCurrentUser, getAuthenticatedClient.
  destruct (session env) as [user|]; [|eauto]. cbn [request].
  destruct (single (pollsById pollId db)) as [e|poll] eqn:Hsingle.
  - exists false. split; [reflexivity|]. split; [discriminate|].
    intros (p & Hin & <- & _). rewrite (pollsById_unique db p Hkey Hin) in Hsingle.
    discriminate.
  - apply single_inr in Hsingle.
    destruct (singleton_filter _ _ _ Hsingle) as (Hin & Hid).
    eexists. split; [reflexivity|]. rewrite bool_decide_eq_true. split.
    + intros Hby. by exists poll.
    + intros (p & Hp & Hpid & Hby).
      assert (p ∈ pollsById pollId db) as Hmem
        by (apply list_elem_of_filter; by split).
      rewrite Hsingle in Hmem. apply list_elem_of_singleton in Hmem. by subst.
Qed.

Lemma checkPollOwnership_of_session_witness :
  checkPollOwnership alice None "p1" None (store 0) = inr true
  /\ checkPollOwnership (mkEnv (Some (mkUser "u2")) 1000) None "p1" None (store 0) = inr false
  /\ exists answer,
       checkPollOwnership alice None "p1" None (store 0) = inr answer
       /\ (answer = true <->
           exists p, p ∈ polls (store 0) /\ row_id p = "p1" /\ row_created_by p = "u1").
Proof.
  split; [reflexivity|]. split; [reflexivity|].
  assert (NoDup (map row_id (polls (store 0)))) as Hkey by compute_done.
  exact (checkPollOwnership_of_session alice "p1" (store 0) Hkey).
Defined.

(** ** The effect of a vote *)

(** Rewriting the count of the one row selected by identifier and poll
    changes the sum over the poll by the difference. *)
Lemma sumVotes_after_write (optionId pollId : string) (v : Z) (opt : PollOption)
    (rows : list PollOption) :
  filter (fun o => opt_id o = optionId /\ opt_poll_id o = pollId) rows = [opt] ->
  sumVotes (filter (fun o => opt_poll_id o = pollId)
              (map (fun o => if decide (opt_id o = optionId)
                             then mkPollOption (opt_id o) (opt_poll_id o) (text o) v
                                               (order_index o)
                             else o) rows))
  = sumVotes (filter (fun o => opt_poll_id o = pollId) rows) - votes opt + v.
Proof.
  revert opt.
  assert (forall l, filter (fun o => opt_id o = optionId /\ opt_poll_id o = pollId) l = [] ->
            sumVotes (filter (fun o => opt_poll_id o = pollId)
              (map (fun o => if decide (opt_id o = optionId)
                             then mkPollOption (opt_id o) (opt_poll_id o) (text o) v
                                               (order_index o)
                             else o) l))
            = sumVotes (filter (fun o => opt_poll_id o = pollId) l)) as Hnone.
  { induction l as [|h l IH]; [reflexivity|]. intros Hf. cbn [map].
    destruct (decide (opt_id h = optionId /\ opt_poll_id h = pollId)) as [Hboth|Hnot].
    { rewrite filter_cons_True in Hf by exact Hboth. discriminate. }
    rewrite filter_cons_False in Hf by exact Hnot. specialize (IH Hf).
    destruct (decide (opt_poll_id h = pollId)) as [Hp|Hp].
    - rewrite decide_False by tauto.
      rewrite !filter_cons_True by exact Hp. simpl. by rewrite IH.
    - rewrite (filter_cons_False _ h) by exact Hp.
      rewrite filter_cons_False; [exact IH|]. by destruct (decide (opt_id h = optionId)). }
  induction rows as [|h rows IH]; intros opt Hf; [discriminate|]. cbn [map].
  destruct (decide (opt_id h = optionId /\ opt_poll_id h = pollId)) as [[Hi Hp]|Hnot].
  - rewrite filter_cons_True in Hf by done. injection Hf as -> Hrest.
    rewrite decide_True by exact Hi.
    rewrite !filter_cons_True by done. simpl. rewrite (Hnone _ Hrest). lia.
  - rewrite filter_cons_False in Hf by exact Hnot. specialize (IH _ Hf).
    destruct (decide (opt_poll_id h = pollId)) as [Hp|Hp].
    + rewrite decide_False by tauto.
      rewrite !filter_cons_True by exact Hp. simpl. rewrite IH. lia.
    + rewrite (filter_cons_False _ h) by exact Hp.
      rewrite filter_cons_False; [exact IH|]. by destruct (decide (opt_id h = optionId)).
Qed.

Lemma reportedTotal_sum (pollId : string) (db : DB) (row : PollRow) :
  pollsById pollId db = [row] ->
  reportedTotal pollId db = sumVotes (optionsOfPoll pollId db).
Proof.
  intros Hrow. unfold reportedTotal, getPoll. cbn [request]. rewrite Hrow. cbn [single].
  destruct (singleton_filter _ _ _ Hrow) as (_ & ->).
  cbn [data createSuccessResponse completePoll total_votes]. apply totalVotesOf_sum.
Qed.

(** X5.  A call of [voteOnPoll] that runs alone, with no request of
    another call between its own, and succeeds raises the total that
    [getPoll] reports for the poll by exactly one.  It leaves the table of
    polls and every option row with another identifier as they were, adds
    and removes no row, and, option identifiers being unique, leaves the
    total of every other poll unchanged.  Between calls in flight together
    this does not hold, as the section on calls in flight shows. *)
Theorem vote_raises_total_by_one (env : Env) (faults : Faults) (voteData : VoteData)
    (db db' : DB) (r : PollOperationResult Poll) :
  NoDup (map opt_id (poll_options db)) ->
  runAlone env faults voteData db = (db', VoteReturned r) -> success r = true ->
  reportedTotal (poll_id voteData) db' = reportedTotal (poll_id voteData) db + 1
  /\ polls db' = polls db
  /\ map opt_id (poll_options db') = map opt_id (poll_options db)
  /\ (forall o, o ∈ poll_options db -> opt_id o <> option_id voteData ->
                o ∈ poll_options db')
  /\ (forall other, other <> poll_id voteData ->
                    optionsOfPoll other db' = optionsOfPoll other db).
Proof.
  intros Hkey Hrun Hsucc.
  assert (voteOnPoll env faults voteData db = (db', r)) as Hcall.
  { rewrite runAlone_voteOnPoll in Hrun. injection Hrun as <- <-.
    apply surjective_pairing. }
  clear Hrun.
  destruct (voteOnPoll_success _ _ _ _ _ _ Hcall Hsucc)
    as (poll & opt & Hpoll & _ & Hopt & _ & -> & Hr).
  assert (exists row, pollsById (poll_id voteData) db = [row]) as (row & Hrow).
  { rewrite Hr in Hsucc. revert Hsucc. unfold getPoll.
    destruct (request (faults 3%nat) _) as [e|row] eqn:Hrow;
      [by rewrite handleDatabaseError_failure|].
    intros _. unfold request in Hrow. destruct (faults 3%nat); [discriminate|].
    apply single_inr in Hrow. by exists row. }
  split; [|split; [|split; [|split]]].
  - rewrite (reportedTotal_sum _ _ row) by exact Hrow.
    rewrite (reportedTotal_sum _ _ row) by exact Hrow.
    unfold optionsOfPoll, setVotes. cbn [poll_options].
    rewrite (sumVotes_after_write _ _ _ opt) by exact Hopt. lia.
  - reflexivity.
  - apply setVotes_ids.
  - intros o Ho Hne. unfold setVotes. cbn [poll_options].
    apply list_elem_of_fmap. exists o. split; [|exact Ho]. by rewrite decide_False.
  - intros other Hother. unfold optionsOfPoll, setVotes. cbn [poll_options].
    destruct (singleton_filter _ _ _ Hopt) as (Hin & Hid & Hpid).
    assert (forall o, o ∈ poll_options db -> opt_id o = option_id voteData -> o = opt) as Honly.
    { intros o Ho Hoid.
      assert (o ∈ filter (fun y => opt_id y = opt_id opt /\ True) (poll_options db)) as Hm.
      { apply list_elem_of_filter. split; [split; [congruence|exact I]|exact Ho]. }
      rewrite (filter_key opt_id (fun _ => True) (poll_options db) opt Hkey Hin) in Hm.
      simpl in Hm. by apply list_elem_of_singleton in Hm. }
    revert Honly. generalize (poll_options db). intros l Honly.
    induction l as [|h l IH]; [reflexivity|]. cbn [map].
    assert (forall o, o ∈ l -> opt_id o = option_id voteData -> o = opt) as Honly'
      by (intros o Ho; apply Honly; by right).
    destruct (decide (opt_id h = option_id voteData)) as [Hh|Hh].
    + assert (h = opt) as -> by (apply Honly; [left|exact Hh]).
      rewrite !filter_cons_False by (simpl; congruence). by apply IH.
    + destruct (decide (opt_poll_id h = other)) as [Hp|Hp].
      * rewrite !filter_cons_True by exact Hp. f_equal. by apply IH.
      * rewrite !filter_cons_False by exact Hp. by apply IH.
Qed.

Lemma vote_raises_total_by_one_witness :
  exists db' r,
    runAlone alice no_faults (mkVoteData "p1" "a") (store 5) = (db', VoteReturned r)
    /\ success r = true
    /\ reportedTotal "p1" (store 5) = 5
    /\ reportedTotal "p1" db' = 5 + 1
    /\ optionsOfPoll "p3" db' = optionsOfPoll "p3" (store 5).
Proof.
  assert (NoDup (map opt_id (poll_options (store 5)))) as Hkey by compute_done.
  eassert (runAlone alice no_faults (mkVoteData "p1" "a") (store 5) = (_, VoteReturned _))
    as Hrun by (vm_compute; reflexivity).
  eexists _, _. split; [exact Hrun|].
  match goal with
  | |- success ?result = true /\ _ =>
      assert (success result = true) as Hsucc by (vm_compute; reflexivity)
  end.
  split; [exact Hsucc|].
  destruct (vote_raises_total_by_one alice no_faults (mkVoteData "p1" "a") (store 5) _ _
              Hkey Hrun Hsucc) as (Htotal & _ & _ & _ & Hother).
  split; [vm_compute; reflexivity|]. split; [exact Htotal|].
  apply Hother. discriminate.
Defined.

(** X6.  The poll returned by a call of [voteOnPoll] that runs alone,
    with no request of another call between its own, and succeeds is one
    [isPollActive] accepts at the time of the call, and [getPollOption]
    finds in it, under the identifier voted for, the option with its count
    before the call plus one.  A call overtaken between its requests may
    return another count, as the section on calls in flight shows. *)
Theorem voted_poll_is_active_and_shows_the_vote (env : Env) (faults : Faults)
    (voteData : VoteData) (db db' : DB) (r : PollOperationResult Poll) :
  runAlone env faults voteData db = (db', VoteReturned r) -> success r = true ->
  exists p before after,
    data r = Some p
    /\ isPollActive (now env) p = true
    /\ optionsByIdAndPoll (option_id voteData) (poll_id voteData) db = [before]
    /\ getPollOption p (option_id voteData) = Some after
    /\ votes after = votes before + 1
    /\ text after = text before.
Proof.
  intros Hrun Hsucc.
  assert (voteOnPoll env faults voteData db = (db', r)) as Hcall.
  { rewrite runAlone_voteOnPoll in Hrun. injection Hrun as <- <-.
    apply surjective_pairing. }
  clear Hrun.
  destruct (voteOnPoll_success _ _ _ _ _ _ Hcall Hsucc)
    as (poll & opt & Hpoll & Hexp & Hopt & _ & Hdb' & Hr).
  destruct (singleton_filter _ _ _ Hpoll) as (Hpin & Hpid & Hact).
  destruct (singleton_filter _ _ _ Hopt) as (Hoin & Hoid & Hopoll).
  destruct (data r) as [p|] eqn:Hdata.
  2:{ exfalso. rewrite Hr in Hdata, Hsucc. revert Hdata Hsucc. unfold getPoll.
      destruct (request (faults 3%nat) _); [|discriminate].
      by rewrite handleDatabaseError_failure. }
  rewrite Hr in Hdata. apply getPoll_data in Hdata as (row & Hrow & ->).
  unfold request in Hrow. destruct (faults 3%nat); [discriminate|].
  apply single_inr in Hrow.
  assert (row = poll) as ->.
  { assert (poll ∈ pollsById (poll_id voteData) db') as Hm.
    { apply list_elem_of_filter. split; [exact Hpid|]. by rewrite Hdb'. }
    rewrite Hrow in Hm. by apply list_elem_of_singleton in Hm. }
  set (after := mkPollOption (opt_id opt) (opt_poll_id opt) (text opt) (votes opt + 1)
                             (order_index opt)).
  assert (after ∈ optionsOfPoll (row_id poll) db') as Hafter.
  { apply list_elem_of_filter. split; [simpl; congruence|].
    rewrite Hdb'. by apply setVotes_bumps. }
  assert (forall o, o ∈ optionsOfPoll (row_id poll) db' -> opt_id o = option_id voteData ->
                    o = after) as Honly.
  { intros o (Hop & Ho)%list_elem_of_filter Hid. rewrite Hdb' in Ho.
    unfold setVotes in Ho. cbn [poll_options] in Ho.
    apply list_elem_of_fmap in Ho as (o0 & -> & Ho0).
    destruct (decide (opt_id o0 = option_id voteData)) as [Hid0|Hid0]; [|contradiction].
    assert (o0 ∈ optionsByIdAndPoll (option_id voteData) (poll_id voteData) db) as Hm.
    { apply list_elem_of_filter. split; [|exact Ho0]. split; [exact Hid0|].
      simpl in Hop. congruence. }
    rewrite Hopt in Hm. apply list_elem_of_singleton in Hm. by subst. }
  eexists _, opt, after. split; [reflexivity|]. repeat split; try done.
  - unfold isPollActive. cbn [completePoll is_active expires_at].
    by rewrite Hact, Hexp.
  - unfold getPollOption. cbn [completePoll options].
    destruct (List.find _ (optionsOfPoll (row_id poll) db')) as [o|] eqn:Hfind.
    + apply find_some in Hfind as (Ho & Hid%bool_decide_eq_true).
      f_equal. apply Honly; [by apply list_elem_of_In|exact Hid].
    + exfalso. pose proof (find_none _ _ Hfind after) as Hnone.
      specialize (Hnone ltac:(by apply list_elem_of_In)). cbv beta in Hnone.
      rewrite bool_decide_eq_true_2 in Hnone by exact Hoid. discriminate.
Qed.

Lemma voted_poll_is_active_and_shows_the_vote_witness :
  exists db' r,
    runAlone alice no_faults (mkVoteData "p1" "a") (store 8) = (db', VoteReturned r)
    /\ success r = true
    /\ exists p before after,
         data r = Some p
         /\ isPollActive (now alice) p = true
         /\ optionsByIdAndPoll "a" "p1" (store 8) = [before]
         /\ getPollOption p "a" = Some after
         /\ votes after = votes before + 1
         /\ text after = text before.
Proof.
  eassert (runAlone alice no_faults (mkVoteData "p1" "a") (store 8) = (_, VoteReturned _))
    as Hrun by (vm_compute; reflexivity).
  eexists _, _. split; [exact Hrun|].
  match goal with
  | |- success ?result = true /\ _ =>
      assert (success result = true) as Hsucc by (vm_compute; reflexivity)
  end.
  split; [exact Hsucc|].
  exact (voted_poll_is_active_and_shows_the_vote alice no_faults (mkVoteData "p1" "a")
           (store 8) _ _ Hrun Hsucc).
Defined.

(** X7.  Calls of [voteOnPoll] for one option, each run to its end before
    the next starts, all succeed and leave the option at its count before
    plus their number. *)
Theorem votes_in_turn_all_count (env : Env) (voteData : VoteData) (m : nat) (db : DB)
    (o : PollOption) :
  is_Some (session env) ->
  ~ blank (poll_id voteData) -> ~ blank (option_id voteData) ->
  votable env voteData db o ->
  exists db', votesInTurn env voteData m db = (db', true)
              /\ votesOf (option_id voteData) db' = Some (votes o + Z.of_nat m).
Proof. intros Hs Hp Ho. by apply votesInTurn_counts. Qed.

Lemma votes_in_turn_all_count_witness :
  votable alice (mkVoteData "p1" "a") (store 10) (pizza 10)
  /\ exists db', votesInTurn alice (mkVoteData "p1" "a") 3 (store 10) = (db', true)
                 /\ votesOf "a" db' = Some (10 + 3).
Proof.
  assert (votable alice (mkVoteData "p1" "a") (store 10) (pizza 10)) as Hv.
  { split; [split; compute_done|]. split; [exists lunch; repeat split; compute_done|].
    repeat split; compute_done. }
  assert (forall s, truthy (trim s) = true -> ~ blank s) as Hgiven
    by (unfold blank; congruence).
  split; [exact Hv|].
  exact (votes_in_turn_all_count alice (mkVoteData "p1" "a") 3 (store 10) (pizza 10)
           (ex_intro _ _ eq_refl) (Hgiven "p1" eq_refl) (Hgiven "a" eq_refl) Hv).
Defined.

(** X8.  A call of [voteOnPoll] that fails while its last request, the read
    of [getPoll], is answered leaves the store exactly as it was: every
    refusal that comes before the write, and a refused write, change
    nothing. *)
Theorem failed_vote_leaves_store (env : Env) (faults : Faults) (voteData : VoteData)
    (db : DB) :
  NoDup (map row_id (polls db)) -> faults 3%nat = None ->
  success (snd (voteOnPoll env faults voteData db)) = false ->
  fst (voteOnPoll env faults voteData db) = db.
Proof.
  intros Hkey Hf Hfail.
  exact (voteOnPoll_failure_keeps_store env faults voteData db _ _
           Hkey Hf (surjective_pairing _) Hfail).
Qed.

Lemma failed_vote_leaves_store_witness :
  success (snd (voteOnPoll alice no_faults (mkVoteData "p3" "c") (store 2))) = false
  /\ fst (voteOnPoll alice no_faults (mkVoteData "p3" "c") (store 2)) = store 2.
Proof.
  assert (NoDup (map row_id (polls (store 2)))) as Hkey by compute_done.
  assert (success (snd (voteOnPoll alice no_faults (mkVoteData "p3" "c") (store 2))) = false)
    as Hfail by (vm_compute; reflexivity).
  split; [exact Hfail|].
  exact (failed_vote_leaves_store alice no_faults (mkVoteData "p3" "c") (store 2)
           Hkey eq_refl Hfail).
Defined.

(** ** Reading polls *)

#[local] Instance notOlder_transitive : Transitive notOlder.
Proof. unfold notOlder. intros a b c. lia. Qed.

#[local] Instance notOlder_total : Total notOlder.
Proof. unfold notOlder. intros a b. lia. Qed.

Lemma StronglySorted_range {A} (R : relation A) (from to : Z) (l : list A) :
  StronglySorted R l -> StronglySorted R (range from to l).
Proof.
  intros Hs. unfold range.
  assert (StronglySorted R (drop (Z.to_nat from) l)) as Hd.
  { rewrite <- (take_drop (Z.to_nat from) l) in Hs. by apply StronglySorted_app_1_r in Hs. }
  rewrite <- (take_drop (Z.to_nat (to - from + 1)) (drop (Z.to_nat from) l)) in Hd.
  by apply StronglySorted_app_1_l in Hd.
Qed.

Lemma StronglySorted_map {A B} (R : relation A) (R' : relation B) (f : A -> B) (l : list A) :
  (forall a b, R a b -> R' (f a) (f b)) ->
  StronglySorted R l -> StronglySorted R' (map f l).
Proof.
  intros Hf. induction 1 as [|a l Hs IH Hall]; simpl; constructor; [exact IH|].
  apply Forall_fmap. eapply Forall_impl; [exact Hall|]. intros b. apply Hf.
Qed.

Lemma elem_of_range {A} (from to : Z) (l : list A) (x : A) : x ∈ range from to l -> x ∈ l.
Proof.
  unfold range. intros Hx.
  eapply elem_of_sublist; [exact Hx|].
  etrans; [apply sublist_take|apply sublist_drop].
Qed.

(** X9.  A page of [getPolls] (page 1 or later, a limit that is not
    negative) holds at most [limit] polls, newest first; each is a poll of
    the store, of the user asked for when one is given, with the options of
    that poll; and [total] counts all polls selected, whatever the page. *)
Theorem getPolls_page (fault : option DbError) (page limit : Z) (userId : option string)
    (db : DB) (r : PollListResult) :
  1 <= page -> 0 <= limit ->
  data (getPolls fault page limit userId db) = Some r ->
  (length (list_polls r) <= Z.to_nat limit)%nat
  /\ total r = Z.of_nat (length (pollsOf userId db))
  /\ StronglySorted (fun a b => created_at b <= created_at a) (list_polls r)
  /\ (forall p, p ∈ list_polls r ->
        exists row, row ∈ polls db /\ id p = row_id row
                    /\ options p = optionsOfPoll (row_id row) db
                    /\ created_by p = row_created_by row
                    /\ match userId with
                       | Some u => truthy u = true -> created_by p = u
                       | None => True
                       end).
Proof.
  intros Hpage Hlimit. unfold getPolls. fold (pollsOf userId db).
  destruct fault as [e|]; cbn [request]; [by rewrite handleDatabaseError_no_data|].
  intros [= <-]. cbn [list_polls total].
  split; [|split; [|split]].
  - rewrite length_map. unfold range. rewrite length_take.
    replace ((page - 1) * limit + limit - 1 - (page - 1) * limit + 1) with limit by lia. lia.
  - apply orZero_id.
  - apply (StronglySorted_map notOlder); [intros a b Hab; exact Hab|].
    apply StronglySorted_range. unfold newestFirst.
    apply StronglySorted_merge_sort; apply _.
  - intros p (row & -> & Hrow)%list_elem_of_fmap.
    apply elem_of_range in Hrow. unfold newestFirst in Hrow.
    rewrite merge_sort_Permutation in Hrow.
    exists row. cbn [completePoll id options created_by].
    assert (row ∈ polls db /\ match userId with
                              | Some u => truthy u = true -> row_created_by row = u
                              | None => True end) as [Hin Hby].
    { unfold pollsOf in Hrow. destruct userId as [u|]; [|by split].
      destruct (truthy u); [|by split].
      apply list_elem_of_filter in Hrow as (Hby & Hin). by split. }
    by repeat split.
Qed.

Lemma getPolls_page_witness :
  exists r, data (getPolls None 2 3 (Some "u1") (store 0)) = Some r
            /\ (length (list_polls r) <= Z.to_nat 3)%nat
            /\ total r = 4
            /\ length (list_polls r) = 1%nat.
Proof.
  eexists. split; [vm_compute; reflexivity|].
  destruct (getPolls_page None 2 3 (Some "u1") (store 0) _ ltac:(lia) ltac:(lia) eq_refl)
    as (Hlen & _).
  split; [exact Hlen|]. split; vm_compute; reflexivity.
Defined.

(** ** Statistics *)

Lemma sumVotes_filter_cons (i : string) (ids : list string) (opts : list PollOption) :
  i ∉ ids ->
  sumVotes (filter (fun o => opt_poll_id o ∈ i :: ids) opts)
  = sumVotes (filter (fun o => opt_poll_id o = i) opts)
    + sumVotes (filter (fun o => opt_poll_id o ∈ ids) opts).
Proof.
  intros Hi. induction opts as [|o opts IH]; [reflexivity|].
  destruct (decide (opt_poll_id o = i)) as [Heq|Hne].
  - rewrite (filter_cons_True (fun o => opt_poll_id o ∈ i :: ids)) by (rewrite Heq; left).
    rewrite (filter_cons_True (fun o => opt_poll_id o = i)) by exact Heq.
    rewrite (filter_cons_False (fun o => opt_poll_id o ∈ ids)) by (by rewrite Heq).
    simpl. rewrite IH. lia.
  - rewrite (filter_cons_False (fun o => opt_poll_id o = i)) by exact Hne.
    destruct (decide (opt_poll_id o ∈ ids)) as [Hin|Hnin].
    + rewrite (filter_cons_True (fun o => opt_poll_id o ∈ i :: ids)) by (by right).
      rewrite (filter_cons_True (fun o => opt_poll_id o ∈ ids)) by exact Hin.
      simpl. rewrite IH. lia.
    + rewrite (filter_cons_False (fun o => opt_poll_id o ∈ i :: ids)).
      * rewrite (filter_cons_False (fun o => opt_poll_id o ∈ ids)) by exact Hnin. exact IH.
      * intros [?|?]%elem_of_cons; contradiction.
Qed.

(** The counts of the options of a set of polls add up poll by poll. *)
Lemma sumVotes_by_poll (ids : list string) (opts : list PollOption) :
  NoDup ids ->
  sumVotes (filter (fun o => opt_poll_id o ∈ ids) opts)
  = sumZ (map (fun i => sumVotes (filter (fun o => opt_poll_id o = i) opts)) ids).
Proof.
  induction 1 as [|i ids Hi Hnd IH]; simpl.
  - rewrite filter_none; [reflexivity|]. intros o _ Ho. by apply not_elem_of_nil in Ho.
  - by rewrite sumVotes_filter_cons, IH.
Qed.

(** X10.  The statistics [getPollStats] returns add up: [total_polls] counts
    the polls selected (all polls, or those of the user given),
    [active_polls] is at most that, [user_polls] equals it when a user is
    given and is 0 otherwise, and [total_votes] is the sum of the totals
    [getPoll] reports for the polls selected. *)
Theorem getPollStats_add_up (faults : Faults) (userId : option string) (db : DB)
    (s : PollStats) :
  NoDup (map row_id (polls db)) ->
  data (getPollStats faults userId db) = Some s ->
  total_polls s = Z.of_nat (length (pollsOf userId db))
  /\ 0 <= active_polls s <= total_polls s
  /\ user_polls s = match userId with
                    | Some u => if truthy u then total_polls s else 0
                    | None => 0
                    end
  /\ stats_total_votes s
     = sumZ (map (fun p => reportedTotal (row_id p) db) (pollsOf userId db)).
Proof.
  intros Hkey. unfold getPollStats.
  destruct (faults 0%nat); cbn [request]; [by rewrite handleDatabaseError_no_data|].
  destruct (faults 1%nat); cbn [request]; [by rewrite handleDatabaseError_no_data|].
  intros [= <-]. cbn [total_polls active_polls user_polls stats_total_votes].
  rewrite !orZero_id.
  assert (forall p, p ∈ pollsOf userId db -> p ∈ polls db) as Hsub.
  { intros p Hp. unfold pollsOf in Hp. destruct userId as [u|]; [|exact Hp].
    destruct (truthy u); [|exact Hp]. by apply list_elem_of_filter in Hp as (_ & ?). }
  assert (NoDup (map row_id (pollsOf userId db))) as Hkey'.
  { unfold pollsOf. destruct userId as [u|]; [|exact Hkey].
    destruct (truthy u); [|exact Hkey]. by apply NoDup_map_filter. }
  split; [reflexivity|]. split; [|split].
  - split; [lia|]. apply inj_le. rewrite length_filter. lia.
  - by destruct userId as [u|]; [destruct (truthy u)|].
  - rewrite fold_left_votes. unfold optionsIn.
    rewrite (sumVotes_by_poll _ _ Hkey'), map_map, Z.add_0_l. f_equal.
    apply map_ext_in. intros p Hp%list_elem_of_In.
    symmetry. apply (reportedTotal_sum _ _ p). by apply pollsById_unique, Hsub.
Qed.

Lemma getPollStats_add_up_witness :
  exists s, data (getPollStats no_faults (Some "u1") (store 6)) = Some s
            /\ total_polls s = 4 /\ active_polls s = 2 /\ user_polls s = 4
            /\ stats_total_votes s = 10
            /\ stats_total_votes s
               = sumZ (map (fun p => reportedTotal (row_id p) (store 6))
                           (pollsOf (Some "u1") (store 6))).
Proof.
  eexists. split; [vm_compute; reflexivity|].
  assert (NoDup (map row_id (polls (store 6)))) as Hkey by compute_done.
  destruct (getPollStats_add_up no_faults (Some "u1") (store 6) _ Hkey eq_refl)
    as (_ & _ & _ & Hvotes).
  split; [reflexivity|]. split; [reflexivity|]. split; [reflexivity|].
  split; [reflexivity|]. exact Hvotes.
Defined.

(** ** Creating a poll *)

Lemma filter_all {A} (P : A -> Prop) `{forall x, Decision (P x)} (l : list A) :
  (forall x, x ∈ l -> P x) -> filter P l = l.
Proof.
  induction l as [|y l IH]; intros Hall; [reflexivity|].
  rewrite filter_cons_True by (apply Hall; left). f_equal.
  apply IH. intros x Hx. apply Hall. by right.
Qed.

(** Removing the poll just inserted, when nothing else carries its
    identifier, gives back the tables as they were. *)
Lemma deletePollRow_insertPoll (now : Z) (r : PollInsert) (db : DB) :
  freshIds db ->
  polls (deletePollRow (row_id (fst (insertPoll now r db))) (snd (insertPoll now r db)))
  = polls db
  /\ poll_options (deletePollRow (row_id (fst (insertPoll now r db)))
                     (snd (insertPoll now r db)))
     = poll_options db.
Proof.
  intros Hfresh. destruct (Hfresh (next_id db) (le_n _)) as (Hp & _ & Ho).
  unfold insertPoll, deletePollRow. cbn [fst snd polls poll_options row_id]. split.
  - rewrite filter_app, filter_cons_False, filter_nil, app_nil_r by (intros Hne; by apply Hne).
    apply filter_all. intros p Hin Heq. apply Hp. rewrite <- Heq.
    by apply list_elem_of_fmap_2.
  - apply filter_all. intros o Hin Heq. apply Ho. rewrite <- Heq.
    by apply list_elem_of_fmap_2.
Qed.

(** X11.  A [createPoll] that fails leaves no poll behind: when the store
    answers the clean-up request, the tables of polls and of options are
    after the call what they were before, whichever step failed. *)
Theorem failed_createPoll_leaves_no_poll (env : Env) (faults : Faults)
    (pollData : CreatePollData) (db : DB) :
  freshIds db -> faults 2%nat = None ->
  success (snd (createPoll env faults pollData db)) = false ->
  polls (fst (createPoll env faults pollData db)) = polls db
  /\ poll_options (fst (createPoll env faults pollData db)) = poll_options db.
Proof.
  intros Hfresh Hf2. unfold createPoll.
  destruct (negb (success _)); [by split|].
  destruct (getAuthenticatedClient env) as [thrown|user]; [by split|].
  destruct (faults 0%nat); cbn [request]; [by split|].
  set (record := mkPollInsert _ _ _ _ _).
  pose proof (deletePollRow_insertPoll (now env) record db Hfresh) as Hclean.
  destruct (insertPoll (now env) record db) as [poll db1]. cbn [fst snd] in Hclean.
  rewrite Hf2. cbn [request].
  destruct (request (faults 1%nat) _) as [e|[created db2]]; cbn [fst snd].
  - intros _. exact Hclean.
  - discriminate.
Qed.

Lemma failed_createPoll_leaves_no_poll_witness :
  success (snd (createPoll alice
                  (fun k => if Nat.eqb k 1 then Some (mkDbError "57014" "timeout") else None)
                  (mkCreatePollData "Dessert?" None ["Cake"; "Fruit"] None) emptyStore)) = false
  /\ polls (fst (createPoll alice
                  (fun k => if Nat.eqb k 1 then Some (mkDbError "57014" "timeout") else None)
                  (mkCreatePollData "Dessert?" None ["Cake"; "Fruit"] None) emptyStore)) = [].
Proof.
  assert (success (snd (createPoll alice
                  (fun k => if Nat.eqb k 1 then Some (mkDbError "57014" "timeout") else None)
                  (mkCreatePollData "Dessert?" None ["Cake"; "Fruit"] None) emptyStore)) = false)
    as Hfail by (vm_compute; reflexivity).
  split; [exact Hfail|].
  destruct wellFormed_emptyStore as (_ & _ & Hfresh & _).
  exact (proj1 (failed_createPoll_leaves_no_poll alice _ _ emptyStore Hfresh eq_refl Hfail)).
Defined.





(** ** Error values *)

Lemma orElse_truthy (a : option string) (b : string) :
  truthy b = true -> truthy (orElse a b) = true.
Proof.
  intros Hb. unfold orElse. destruct a as [s|]; [|exact Hb].
  by destruct (truthy s) eqn:Hs.
Qed.

Lemma parseApiError_message (e : ErrorValue) :
  truthy (message (parseApiError e)) = true /\ field (parseApiError e) = None.
Proof.
  unfold parseApiError. destruct (ev_response e) as [[status srv]|].
  - repeat match goal with |- context [if ?c then _ else _] => destruct c end;
      (split; [|reflexivity]); first [reflexivity | by apply orElse_truthy].
  - destruct (ev_request e); [by split|]. split; [|reflexivity]. by apply orElse_truthy.
Qed.

(** Without a [response] and a [request] the parsed error is of type
    ['general']: the type of the form error it came from is not kept. *)
Lemma parseApiError_general (e : ErrorValue) :
  ev_response e = None -> ev_request e = false -> type (parseApiError e) = General.
Proof. intros Hr Hq. unfold parseApiError. by rewrite Hr, Hq. Qed.

Lemma isRetryableError_general (e : FormError) :
  type e = General \/ type e = Validation -> isRetryableError e = false.
Proof. unfold isRetryableError. by intros [-> | ->]. Qed.

Lemma reported_createErrorResponse {T} (e : ErrorValue) :
  ev_response e = None -> ev_request e = false ->
  reported (createErrorResponse (T := T) e).
Proof.
  intros Hr Hq _. eexists. split; [reflexivity|]. split; [|split].
  - apply parseApiError_message.
  - right. by apply parseApiError_general.
  - apply isRetryableError_general. left. by apply parseApiError_general.
Qed.

Lemma reported_handleDatabaseError {T} (e : DbError) :
  reported (handleDatabaseError (T := T) e).
Proof.
  unfold handleDatabaseError.
  repeat (match goal with |- context [if ?c then _ else _] => destruct c end;
          [by apply reported_createErrorResponse|]).
  by apply reported_createErrorResponse.
Qed.

Lemma reported_validationOutcome {T} (errs : gmap string string) :
  reported (validationOutcome (T := T) errs).
Proof.
  unfold reported, validationOutcome. cbn [success error].
  destruct (negb (bool_decide (errs = ∅))); [|discriminate].
  intros _. eexists. split; [reflexivity|]. split; [reflexivity|].
  split; [by left|reflexivity].
Qed.

Lemma reported_success {T} (x : T) : reported (createSuccessResponse x).
Proof. intros H. discriminate. Qed.

Create HintDb reported.

#[local] Hint Resolve reported_handleDatabaseError reported_validationOutcome
  reported_success : reported.

#[local] Hint Extern 1 (reported (createErrorResponse _)) =>
  apply reported_createErrorResponse; reflexivity : reported.

#[local] Hint Extern 1 (reported (apiError _)) =>
  apply reported_createErrorResponse; reflexivity : reported.



(** ** Retrying *)

(** X14.  Which errors [withRetry] takes for worth another attempt, as
    [isRetryableError] sees them after [parseApiError]: an error with an
    HTTP response when the status is 500, never when it is 400, 401, 403,
    404, 409, 422 or 429, and for any other status when the message (the
    server's, or "Server error occurred" in its absence) contains "Server
    error"; an error without a response exactly when it has a [request],
    that is for a network failure. *)
Theorem retryable_errors (e : ErrorValue) :
  isRetryableError (parseApiError e)
  = match ev_response e with
    | Some (status, srv) =>
        if bool_decide (status ∈ [400; 401; 403; 404; 409; 422; 429]) then false
        else if status =? 500 then true
        else includes (orElse srv "Server error occurred") "Server error"
    | None => ev_request e
    end.
Proof.
  unfold parseApiError. destruct (ev_response e) as [[status srv]|].
  - destruct (decide (status ∈ [400; 401; 403; 404; 409; 422; 429])) as [Hin|Hnot].
    + rewrite bool_decide_eq_true_2 by exact Hin.
      repeat (apply elem_of_cons in Hin as [-> | Hin]; [reflexivity|]).
      by apply not_elem_of_nil in Hin.
    + rewrite bool_decide_eq_false_2 by exact Hnot.
      destruct (Z.eqb_spec status 400) as [->|_]; [exfalso; apply Hnot; compute_done|].
      destruct (Z.eqb_spec status 401) as [->|_]; [exfalso; apply Hnot; compute_done|].
      destruct (Z.eqb_spec status 403) as [->|_]; [exfalso; apply Hnot; compute_done|].
      destruct (Z.eqb_spec status 404) as [->|_]; [exfalso; apply Hnot; compute_done|].
      destruct (Z.eqb_spec status 409) as [->|_]; [exfalso; apply Hnot; compute_done|].
      destruct (Z.eqb_spec status 422) as [->|_]; [exfalso; apply Hnot; compute_done|].
      destruct (Z.eqb_spec status 429) as [->|_]; [exfalso; apply Hnot; compute_done|].
      by destruct (status =? 500).
  - by destruct (ev_request e).
Qed.

(** The loop of [withRetry], from any attempt on: the calls made, the
    delays waited and the outcome. *)
Lemma retryLoop_spec {T} (fn : nat -> ErrorValue + T) (config : RetryConfig)
    (remaining attempt : nat) (lastError : option ErrorValue) :
  (1 <= attempt)%nat -> (1 <= remaining)%nat ->
  Z.of_nat attempt + Z.of_nat remaining = maxAttempts config + 1 ->
  let run := retryLoop fn config remaining attempt lastError in
  (1 <= calls run <= remaining)%nat
  /\ waits run
     = map (fun i => delay config * backoffMultiplier config ^ (Z.of_nat (attempt + i) - 1))
           (seq 0 (calls run - 1))
  /\ outcome run = match fn (attempt + calls run - 2)%nat with
                   | inr value => inr value
                   | inl error => inl (Some error)
                   end
  /\ (forall j, (j < calls run - 1)%nat ->
                exists error, fn (attempt - 1 + j)%nat = inl error
                              /\ isRetryableError (parseApiError error) = true)
  /\ ((calls run < remaining)%nat ->
      match fn (attempt + calls run - 2)%nat with
      | inr _ => True
      | inl error => isRetryableError (parseApiError error) = false
      end).
Proof.
  revert attempt lastError. induction remaining as [|rest IH];
    intros attempt lastError Hattempt Hremaining Hsum; [lia|].
  cbn [retryLoop].
  destruct (fn (attempt - 1)%nat) as [error|value] eqn:Hfn.
  2:{ cbn [calls waits outcome].
      replace (attempt + 1 - 2)%nat with (attempt - 1)%nat by lia. rewrite Hfn.
      repeat split; try lia; try (intros; lia); try (intros; assumption). }
  destruct (Z.eqb_spec (Z.of_nat attempt) (maxAttempts config)) as [Hlast|Hmore].
  { cbn [calls waits outcome].
    replace (attempt + 1 - 2)%nat with (attempt - 1)%nat by lia. rewrite Hfn.
    repeat split; try lia; try (intros; lia); try (intros; assumption). }
  destruct (isRetryableError (parseApiError error)) eqn:Hretry; cbn [negb].
  2:{ cbn [calls waits outcome].
      replace (attempt + 1 - 2)%nat with (attempt - 1)%nat by lia. rewrite Hfn.
      repeat split; try lia; try (intros; lia); try (intros; assumption). }
  destruct (IH (S attempt) (Some error) ltac:(lia) ltac:(lia) ltac:(lia))
    as (Hcalls & Hwaits & Hout & Hearlier & Hstop).
  set (run := retryLoop fn config rest (S attempt) (Some error)) in *.
  cbn [calls waits outcome].
  replace (attempt + S (calls run) - 2)%nat with (S attempt + calls run - 2)%nat by lia.
  split; [lia|]. split; [|split; [exact Hout|split]].
  - rewrite Hwaits. replace (S (calls run) - 1)%nat with (S (calls run - 1)) by lia.
    cbn [seq map]. f_equal; [f_equal; f_equal; lia|].
    rewrite <- seq_shift, map_map. apply map_ext. intros i. do 3 f_equal. lia.
  - intros [|j] Hj.
    + exists error. rewrite Nat.add_0_r. by split.
    + destruct (Hearlier j ltac:(lia)) as (e' & He' & Hr').
      exists e'. split; [|exact Hr'].
      by replace (attempt - 1 + S j)%nat with (S attempt - 1 + j)%nat by lia.
  - intros Hless. apply Hstop. lia.
Qed.

(** With no attempt allowed, [withRetry] never calls the function and throws
    the error it never recorded. *)
Lemma withRetry_no_attempts {T} (fn : nat -> ErrorValue + T) (config : RetryConfig) :
  maxAttempts config <= 0 ->
  withRetry fn config = mkRetryRun (inl None) 0 [].
Proof.
  intros Hmax. unfold withRetry.
  by replace (Z.to_nat (maxAttempts config)) with 0%nat by lia.
Qed.

(** X15. [withRetry] calls the function at least once and at most
    [maxAttempts] times, and waits between two calls only: after the [i]-th
    failed call (counting from 0) it waits [delay * backoffMultiplier ^ i],
    and it never waits after its last call. *)
Theorem withRetry_attempts_and_delays {T} (fn : nat -> ErrorValue + T)
    (config : RetryConfig) :
  1 <= maxAttempts config ->
  let run := withRetry fn config in
  1 <= Z.of_nat (calls run) <= maxAttempts config
  /\ waits run
     = map (fun i => delay config * backoffMultiplier config ^ Z.of_nat i)
           (seq 0 (calls run - 1)).
Proof.
  intros Hmax.
  destruct (retryLoop_spec fn config (Z.to_nat (maxAttempts config)) 1 None
              ltac:(lia) ltac:(lia) ltac:(lia)) as (Hcalls & Hwaits & _).
  unfold withRetry. cbv zeta. split; [lia|].
  rewrite Hwaits. apply map_ext. intros i. do 2 f_equal. lia.
Qed.

Lemma withRetry_attempts_and_delays_witness :
  let fn := fun k : nat => if (k <? 2)%nat then inl (httpError 500) else inr "success" in
  let run := withRetry fn defaultRetryConfig in
  calls run = 3%nat /\ waits run = [1000; 2000]
  /\ 1 <= Z.of_nat (calls run) <= 3
  /\ waits run
     = map (fun i => 1000 * 2 ^ Z.of_nat i) (seq 0 (calls run - 1)).
Proof.
  split; [reflexivity|]. split; [reflexivity|].
  exact (withRetry_attempts_and_delays
           (fun k : nat => if (k <? 2)%nat then inl (httpError 500) else inr "success")
           defaultRetryConfig ltac:(simpl; lia)).
Defined.

(** X16. What [withRetry] returns or throws is what its last call returned
    or threw; every call before the last threw an error that
    [isRetryableError] accepts; and when it stops before [maxAttempts] calls,
    the last call either succeeded or threw an error that is not
    retryable. *)
Theorem withRetry_outcome {T} (fn : nat -> ErrorValue + T) (config : RetryConfig) :
  1 <= maxAttempts config ->
  let run := withRetry fn config in
  outcome run = match fn (calls run - 1)%nat with
                | inr value => inr value
                | inl error => inl (Some error)
                end
  /\ (forall j, (j < calls run - 1)%nat ->
                exists error, fn j = inl error
                              /\ isRetryableError (parseApiError error) = true)
  /\ (Z.of_nat (calls run) < maxAttempts config ->
      match fn (calls run - 1)%nat with
      | inr _ => True
      | inl error => isRetryableError (parseApiError error) = false
      end).
Proof.
  intros Hmax.
  destruct (retryLoop_spec fn config (Z.to_nat (maxAttempts config)) 1 None
              ltac:(lia) ltac:(lia) ltac:(lia))
    as (Hcalls & _ & Hout & Hearlier & Hstop).
  unfold withRetry. cbv zeta.
  set (run := retryLoop fn config (Z.to_nat (maxAttempts config)) 1 None) in *.
  replace (1 + calls run - 2)%nat with (calls run - 1)%nat in * by lia.
  split; [exact Hout|]. split.
  - intros j Hj. destruct (Hearlier j Hj) as (error & Hfn & Hretry).
    exists error. by split.
  - intros Hless. apply Hstop. lia.
Qed.

Lemma withRetry_outcome_witness :
  let fn := fun k : nat => if (k <? 1)%nat then inl (httpError 500)
                           else inl (httpError 400) : ErrorValue + string in
  let run := withRetry fn defaultRetryConfig in
  calls run = 2%nat
  /\ outcome run = inl (Some (httpError 400))
  /\ (forall j, (j < calls run - 1)%nat ->
                exists error, fn j = inl error
                              /\ isRetryableError (parseApiError error) = true)
  /\ (Z.of_nat (calls run) < 3 ->
      match fn (calls run - 1)%nat with
      | inr _ => True
      | inl error => isRetryableError (parseApiError error) = false
      end).
Proof.
  split; [reflexivity|].
  exact (withRetry_outcome
           (fun k : nat => if (k <? 1)%nat then inl (httpError 500)
                           else inl (httpError 400) : ErrorValue + string)
           defaultRetryConfig ltac:(simpl; lia)).
Defined.

(** ** Validation of the options of a poll *)

Lemma truthy_strlen (s : string) : truthy s = true <-> 1 <= strlen s.
Proof.
  unfold strlen. destruct s as [|c s]; simpl; split; try discriminate; try lia; reflexivity.
Qed.

Lemma validatePollOption_accepts (o : string) :
  isValid (validatePollOption o) = true <-> 1 <= strlen (trim o) <= 100.
Proof.
  unfold validatePollOption.
  destruct (truthy (trim o)) eqn:Htruthy; cbn [negb].
  - apply truthy_strlen in Htruthy.
    destruct (Z.ltb_spec (strlen (trim o)) 1); [lia|].
    destruct (Z.ltb_spec 100 (strlen (trim o))); simpl; split; intros; try lia; try done.
  - simpl. split; [discriminate|]. intros [Hlen _]. apply truthy_strlen in Hlen. congruence.
Qed.

Lemma validatePollOption_message (o : string) :
  isValid (validatePollOption o) = false ->
  reason (validatePollOption o)
  = Some (if truthy (trim o) then "Option text must be less than 100 characters"
          else "Option text is required").
Proof.
  unfold validatePollOption.
  destruct (truthy (trim o)) eqn:Htruthy; cbn [negb]; [|reflexivity].
  apply truthy_strlen in Htruthy.
  destruct (Z.ltb_spec (strlen (trim o)) 1); [lia|].
  destruct (100 <? strlen (trim o)); [reflexivity|discriminate].
Qed.

Lemma validateEachOption_accepts (i : nat) (options : list string) :
  isValid (validateEachOption i options) = true
  <-> Forall (fun o => isValid (validatePollOption o) = true) options.
Proof.
  revert i. induction options as [|o rest IH]; intros i; simpl.
  - split; [constructor|reflexivity].
  - destruct (isValid (validatePollOption o)) eqn:Ho; cbn [negb].
    + rewrite IH. split; [by constructor|by inversion 1].
    + simpl. split; [discriminate|]. inversion 1; congruence.
Qed.

Lemma validateEachOption_first_offender (k i : nat) (options : list string) (o : string) :
  options !! i = Some o ->
  isValid (validatePollOption o) = false ->
  (forall j o', (j < i)%nat -> options !! j = Some o' ->
                isValid (validatePollOption o') = true) ->
  validateEachOption k options
  = invalid ("Option " ++ pretty (k + i + 1)%nat ++ ": "
             ++ default "undefined" (reason (validatePollOption o))).
Proof.
  revert k i. induction options as [|o' rest IH]; intros k i Hi Ho Hbefore; [done|].
  destruct i as [|i]; simpl in Hi.
  - injection Hi as ->. simpl. rewrite Ho. simpl. by rewrite Nat.add_0_r.
  - simpl. rewrite (Hbefore 0%nat o' ltac:(lia) eq_refl). cbn [negb].
    rewrite (IH (S k) i Hi Ho).
    + by replace (S k + i + 1)%nat with (k + S i + 1)%nat by lia.
    + intros j o'' Hj Hlook. apply (Hbefore (S j) o''); [lia|exact Hlook].
Qed.

Lemma validatePollOptions_each (options : list string) :
  (2 <= length options <= 10)%nat -> NoDup (map normalized options) ->
  validatePollOptions options = validateEachOption 0 options.
Proof.
  intros Hlen Hnd. unfold validatePollOptions.
  destruct (Nat.ltb_spec (length options) 2); [lia|].
  destruct (Nat.ltb_spec 10 (length options)); [lia|].
  cbv zeta.
  apply (size_list_to_set_NoDup (map normalized options)) in Hnd.
  unfold normalized in Hnd. rewrite Hnd, Nat.eqb_refl. reflexivity.
Qed.

(** X17.  [validatePollOptions] accepts a list of options exactly when it
    has between 2 and 10 entries, no two of which are equal once trimmed
    and lowercased, and every entry has between 1 and 100 characters once
    trimmed. *)
Theorem validatePollOptions_accepts_iff (options : list string) :
  isValid (validatePollOptions options) = true
  <-> (2 <= length options <= 10)%nat
      /\ NoDup (map normalized options)
      /\ Forall (fun o => 1 <= strlen (trim o) <= 100) options.
Proof.
  split.
  - intros Hok. destruct (validatePollOptions_accepted options Hok) as [Hlen Hnd].
    split; [exact Hlen|]. split; [exact Hnd|].
    rewrite (validatePollOptions_each options Hlen Hnd) in Hok.
    apply validateEachOption_accepts in Hok.
    eapply Forall_impl; [exact Hok|]. intros o. apply validatePollOption_accepts.
  - intros (Hlen & Hnd & Heach).
    rewrite (validatePollOptions_each options Hlen Hnd).
    apply validateEachOption_accepts.
    eapply Forall_impl; [exact Heach|]. intros o. apply validatePollOption_accepts.
Qed.

(** X18.  When the number of options is within bounds and there is no
    duplicate, [validatePollOptions] reports the first option that is blank
    or longer than 100 characters once trimmed, under its position counted
    from 1: "Option k: Option text is required" for a blank one, "Option k:
    Option text must be less than 100 characters" otherwise. *)
Theorem validatePollOptions_reports_first_offender (options : list string) (i : nat)
    (o : string) :
  (2 <= length options <= 10)%nat ->
  NoDup (map normalized options) ->
  options !! i = Some o ->
  ~ 1 <= strlen (trim o) <= 100 ->
  (forall j o', (j < i)%nat -> options !! j = Some o' -> 1 <= strlen (trim o') <= 100) ->
  validatePollOptions options
  = invalid ("Option " ++ pretty (i + 1)%nat ++ ": "
             ++ (if truthy (trim o) then "Option text must be less than 100 characters"
                 else "Option text is required")).
Proof.
  intros Hlen Hnd Hi Ho Hbefore.
  assert (isValid (validatePollOption o) = false) as Hbad.
  { apply not_true_is_false. intros Hok. by apply Ho, validatePollOption_accepts. }
  rewrite (validatePollOptions_each options Hlen Hnd).
  rewrite (validateEachOption_first_offender 0 i options o Hi Hbad).
  - by rewrite (validatePollOption_message o Hbad).
  - intros j o' Hj Hlook. apply validatePollOption_accepts. by apply (Hbefore j).
Qed.

Lemma validatePollOptions_reports_first_offender_witness :
  validatePollOptions ["Option 1"; ""] = invalid "Option 2: Option text is required".
Proof.
  assert ("Option " ++ pretty (1 + 1)%nat ++ ": "
          ++ (if truthy (trim "") then "Option text must be less than 100 characters"
              else "Option text is required")
          = "Option 2: Option text is required") as Hmessage by (vm_compute; reflexivity).
  rewrite <- Hmessage.
  apply (validatePollOptions_reports_first_offender ["Option 1"; ""] 1 "").
  - simpl. lia.
  - vm_compute. repeat constructor; set_solver.
  - reflexivity.
  - vm_compute. intros [H _]. by apply H.
  - intros [|[|j]] o' Hj Hlook; [|lia|lia].
    injection Hlook as <-. vm_compute. split; discriminate.
Defined.

(** ** What the validators of [createPoll] let through *)








Lemma validatePollTitle_accepts (t : string) :
  isValid (validatePollTitle t) = true <-> 3 <= strlen (trim t) <= 200.
Proof.
  unfold validatePollTitle.
  destruct (truthy (trim t)) eqn:Htruthy; cbn [negb].
  - destruct (Z.ltb_spec (strlen (trim t)) 3); [simpl; split; [discriminate|lia]|].
    destruct (Z.ltb_spec 200 (strlen (trim t))); simpl; split; intros; try lia; done.
  - simpl. split; [discriminate|]. intros [Hlen _].
    assert (truthy (trim t) = true) by (apply truthy_strlen; lia). congruence.
Qed.

Lemma validatePollTitle_reason (t : string) :
  isValid (validatePollTitle t) = false ->
  exists e, reason (validatePollTitle t) = Some e /\ truthy e = true.
Proof.
  unfold validatePollTitle.
  destruct (negb _); [eexists; split; reflexivity|].
  destruct (_ <? 3); [eexists; split; reflexivity|].
  destruct (200 <? _); [eexists; split; reflexivity|discriminate].
Qed.

Lemma validatePollDescription_accepts (d : string) :
  isValid (validatePollDescription d) = true <-> strlen d <= 1000.
Proof.
  unfold validatePollDescription.
  destruct (truthy d) eqn:Htruthy; cbn [andb].
  - destruct (Z.ltb_spec 1000 (strlen d)); simpl; split; intros; try lia; done.
  - destruct d; [|discriminate]. simpl. split; [intros _; unfold strlen; simpl; lia|done].
Qed.

Lemma validatePollDescription_reason (d : string) :
  isValid (validatePollDescription d) = false ->
  exists e, reason (validatePollDescription d) = Some e /\ truthy e = true.
Proof.
  unfold validatePollDescription.
  destruct (_ && _); [eexists; split; reflexivity|discriminate].
Qed.

(** A validator that always explains its refusals leaves the record of
    errors empty exactly when it accepts. *)
Lemma addError_empty (key : string) (r : ValidationResult) (errs : gmap string string) :
  (isValid r = false -> exists e, reason r = Some e /\ truthy e = true) ->
  addError key r errs = ∅ <-> isValid r = true /\ errs = ∅.
Proof.
  intros Hreason. unfold addError. destruct (isValid r) eqn:Hvalid.
  - destruct (reason r); cbn [negb andb]; split; (intros [_ H] || intros H); try done.
  - destruct (Hreason eq_refl) as (e & -> & ->). cbn [negb andb]. split.
    + intros Hempty. exfalso. by apply (insert_non_empty errs key e).
    + by intros [? _].
Qed.

Lemma addExpiry_empty (now : Z) (expires : option Z) (errs : gmap string string) :
  addExpiry now expires errs = ∅ <-> (forall t, expires = Some t -> now < t) /\ errs = ∅.
Proof.
  unfold addExpiry. destruct expires as [t|].
  - destruct (Z.leb_spec t now).
    + split.
      * intros Hempty. exfalso.
        by apply (insert_non_empty errs "expires_at" "Expiration date must be in the future").
      * intros [Hlater _]. specialize (Hlater t eq_refl). lia.
    + split; [intros ->; split; [by intros ? [= <-]|done]|by intros [_ ->]].
  - split; [intros ->; split; [discriminate|done]|by intros [_ ->]].
Qed.

Lemma validationOutcome_success_iff {T} (errs : gmap string string) :
  success (validationOutcome (T := T) errs) = true <-> errs = ∅.
Proof.
  unfold validationOutcome. cbn [success]. rewrite negb_involutive.
  apply bool_decide_eq_true.
Qed.

(** What [validateCreatePollData] accepts, on the data as read. *)
Lemma validateCreatePollData_accepts (now : Z) (data : CreatePollData) :
  success (validateCreatePollData (T := Poll) now data) = true
  <-> 3 <= strlen (trim (new_title data)) <= 200
      /\ (forall d, new_description data = Some d -> strlen d <= 1000)
      /\ isValid (validatePollOptions (new_options data)) = true
      /\ (forall t, new_expires_at data = Some t -> now < t).
Proof.
  unfold validateCreatePollData. cbv zeta.
  rewrite validationOutcome_success_iff, addExpiry_empty.
  rewrite (addError_empty "options") by apply validatePollOptions_reason.
  rewrite <- validatePollTitle_accepts.
  assert (addError "title" (validatePollTitle (new_title data)) ∅ = ∅
          <-> isValid (validatePollTitle (new_title data)) = true) as Htitle.
  { rewrite (addError_empty "title") by apply validatePollTitle_reason. naive_solver. }
  destruct (new_description data) as [d|].
  - assert ((if truthy d
             then addError "description" (validatePollDescription d)
                    (addError "title" (validatePollTitle (new_title data)) ∅)
             else addError "title" (validatePollTitle (new_title data)) ∅) = ∅
            <-> isValid (validatePollTitle (new_title data)) = true /\ strlen d <= 1000)
      as Hdescription.
    { destruct (truthy d) eqn:Htruthy.
      - rewrite (addError_empty "description") by apply validatePollDescription_reason.
        rewrite validatePollDescription_accepts, Htitle. naive_solver.
      - destruct d; [|discriminate]. rewrite Htitle. unfold strlen. simpl. intuition lia. }
    rewrite Hdescription. split.
    + intros (Hexp & Hopts & Ht & Hd). repeat split; try done. by intros ? [= <-].
    + intros (Ht & Hd & Hopts & Hexp). repeat split; try done. by apply Hd.
  - rewrite Htitle. naive_solver.
Qed.

(** On the data as passed, the validator is the validator on the data as
    read: an expiry that is empty or no date is not compared at all. *)
Lemma validateCreatePollData_as_read {T} (dateOf : string -> option Z) (now : Z)
    (data : Passed.CreatePollData) :
  Passed.validateCreatePollData (T := T) dateOf now data
  = validateCreatePollData now (asRead dateOf data).
Proof.
  unfold Passed.validateCreatePollData, validateCreatePollData, asRead.
  cbn [new_title new_description new_options new_expires_at]. cbv zeta. f_equal.
  unfold Passed.addExpiry, Passed.instant, addExpiry.
  destruct (Passed.expires_at data) as [s|]; [|reflexivity].
  destruct (truthy s); [|reflexivity]. by destruct (dateOf s).
Qed.

(** X19.  What [validateCreatePollData] accepts, on the data as the caller
    passes it: a title of 3 to 200 characters once trimmed, a description
    (if any) of at most 1000 characters, options that [validatePollOptions]
    accepts, and an expiry that, if it is a non-empty string and a date,
    lies after the time of the call.  An expiry that is no date is let
    through: its comparison with the time of the call is false. *)
Theorem validateCreatePollData_accepts_iff (dateOf : string -> option Z) (now : Z)
    (data : Passed.CreatePollData) :
  success (Passed.validateCreatePollData (T := Poll) dateOf now data) = true
  <-> 3 <= strlen (trim (Passed.title data)) <= 200
      /\ (forall d, Passed.description data = Some d -> strlen d <= 1000)
      /\ isValid (validatePollOptions (Passed.options data)) = true
      /\ (forall s t, Passed.expires_at data = Some s -> truthy s = true ->
                      dateOf s = Some t -> now < t).
Proof.
  rewrite validateCreatePollData_as_read, validateCreatePollData_accepts.
  unfold asRead, Passed.instant.
  cbn [new_title new_description new_options new_expires_at].
  split; intros (Htitle & Hdescription & Hoptions & Hexpiry);
    (split; [exact Htitle|split; [exact Hdescription|split; [exact Hoptions|]]]).
  - intros s t Hs Htruthy Hdate. apply Hexpiry. by rewrite Hs, Htruthy.
  - intros t. destruct (Passed.expires_at data) as [s|] eqn:Hs; [|discriminate].
    destruct (truthy s) eqn:Htruthy; [|discriminate]. intros Hdate.
    by apply (Hexpiry s t).
Qed.

Lemma validateCreatePollData_accepts_iff_witness :
  let dateOf := fun s : string =>
                  if String.eqb s "2030-01-01T00:00:00Z" then Some 1893456000000 else None in
  success (Passed.validateCreatePollData (T := Poll) dateOf 1000
             (Passed.mkCreatePollData "Dessert?" None ["Cake"; "Fruit"] (Some "soon"))) = true
  /\ success (Passed.validateCreatePollData (T := Poll) dateOf 1893456000000
                (Passed.mkCreatePollData "Dessert?" None ["Cake"; "Fruit"]
                                         (Some "2030-01-01T00:00:00Z"))) = false.
Proof.
  intros dateOf. split.
  - apply (proj2 (validateCreatePollData_accepts_iff dateOf 1000 _)).
    split; [vm_compute; split; discriminate|]. split; [discriminate|].
    split; [reflexivity|]. intros s t [= <-] _. discriminate.
  - apply not_true_is_false. intros Haccepted.
    apply (proj1 (validateCreatePollData_accepts_iff dateOf 1893456000000 _)) in Haccepted
      as (_ & _ & _ & Hexpiry).
    specialize (Hexpiry "2030-01-01T00:00:00Z" 1893456000000 eq_refl eq_refl eq_refl). lia.
Defined.





(** ** The form for a new poll *)

Lemma addError_valid (key : string) (r : ValidationResult) (errs : gmap string string) :
  isValid r = true -> addError key r errs = errs.
Proof. intros Hvalid. unfold addError. rewrite Hvalid. by destruct (reason r). Qed.

(** X21.  The form for a new poll and [createPoll] validate alike: for
    the data of the form, submitted without an expiry, [validateForm]
    accepts exactly when [validateCreatePollData] does, and when they
    refuse they record the same errors under the same keys. *)
Theorem form_and_createPoll_validate_alike (now : Z)
    (formData : NewPollForm.PollFormData) :
  success (validateCreatePollData (T := Poll) now (NewPollForm.submitted formData))
  = NewPollForm.validateForm formData
  /\ validationErrors (validateCreatePollData (T := Poll) now (NewPollForm.submitted formData))
     = (if NewPollForm.validateForm formData then None
        else Some (NewPollForm.newErrors formData)).
Proof.
  unfold validateCreatePollData, NewPollForm.validateForm, NewPollForm.newErrors,
    NewPollForm.submitted.
  cbn [new_title new_description new_options new_expires_at addExpiry].
  destruct formData as [t d os]. cbn [NewPollForm.form_title NewPollForm.form_description
                                      NewPollForm.form_options].
  assert ((if truthy d
           then addError "description" (validatePollDescription d)
                  (addError "title" (validatePollTitle t) ∅)
           else addError "title" (validatePollTitle t) ∅)
          = addError "description" (validatePollDescription d)
              (addError "title" (validatePollTitle t) ∅)) as ->.
  { destruct d; [|reflexivity]. cbn [truthy]. symmetry. by apply addError_valid. }
  unfold validationOutcome. cbn [success validationErrors].
  rewrite negb_involutive. split; [reflexivity|].
  by destruct (bool_decide _).
Qed.

Lemma length_delete_bounds {A} (l : list A) (i : nat) :
  (length l - 1 <= length (delete i l) <= length l)%nat.
Proof.
  revert i. induction l as [|x l IH]; intros i; [simpl; lia|].
  destruct i as [|i]; simpl; [lia|]. specialize (IH i). lia.
Qed.

Lemma handleEvent_options (event : NewPollForm.FormEvent)
    (formData formData' : NewPollForm.PollFormData) :
  (2 <= length (NewPollForm.form_options formData) <= 10)%nat ->
  NewPollForm.handleEvent event formData = Some formData' ->
  (2 <= length (NewPollForm.form_options formData') <= 10)%nat.
Proof.
  intros Hlen. destruct event as [v|v|i v| |i]; simpl.
  - by intros [= <-].
  - by intros [= <-].
  - unfold NewPollForm.handleOptionChange.
    destruct (_ <? _)%nat; [|discriminate]. intros [= <-]. simpl.
    by rewrite length_insert.
  - intros [= <-]. unfold NewPollForm.addOption.
    destruct (Nat.ltb_spec (length (NewPollForm.form_options formData)) 10); [|exact Hlen].
    simpl. rewrite length_app. simpl. lia.
  - intros [= <-]. unfold NewPollForm.removeOption.
    destruct (Nat.ltb_spec 2 (length (NewPollForm.form_options formData))); [|exact Hlen].
    simpl. pose proof (length_delete_bounds (NewPollForm.form_options formData) i). lia.
Qed.

Lemma validateEachOption_message (i : nat) (options : list string) (e : string) :
  reason (validateEachOption i options) = Some e -> exists rest, e = "Option " ++ rest.
Proof.
  revert i. induction options as [|o rest IH]; intros i; simpl; [discriminate|].
  destruct (negb _); [|apply IH]. simpl. intros [= <-]. eauto.
Qed.

(** X22.  The form for a new poll always holds between 2 and 10 options:
    whatever the user changes, adds and removes, starting from the two empty
    options of the initial form.  So [validatePollOptions] never refuses
    the options of the form for their number. *)
Theorem form_keeps_two_to_ten_options (events : list NewPollForm.FormEvent)
    (formData : NewPollForm.PollFormData) :
  NewPollForm.handleEvents events NewPollForm.initialFormData = Some formData ->
  (2 <= length (NewPollForm.form_options formData) <= 10)%nat
  /\ reason (validatePollOptions (NewPollForm.form_options formData))
     <> Some "At least 2 options are required"
  /\ reason (validatePollOptions (NewPollForm.form_options formData))
     <> Some "Maximum 10 options allowed".
Proof.
  assert (forall start,
             (2 <= length (NewPollForm.form_options start) <= 10)%nat ->
             NewPollForm.handleEvents events start = Some formData ->
             (2 <= length (NewPollForm.form_options formData) <= 10)%nat) as Hinv.
  { induction events as [|event rest IH]; intros start Hlen; simpl.
    - by intros [= <-].
    - destruct (NewPollForm.handleEvent event start) as [next|] eqn:Hevent; [|discriminate].
      apply IH. eapply handleEvent_options; eauto. }
  intros Hrun.
  assert (2 <= length (NewPollForm.form_options formData) <= 10)%nat as Hlen.
  { apply (Hinv NewPollForm.initialFormData); [simpl; lia|exact Hrun]. }
  split; [exact Hlen|].
  unfold validatePollOptions.
  destruct (Nat.ltb_spec (length (NewPollForm.form_options formData)) 2); [lia|].
  destruct (Nat.ltb_spec 10 (length (NewPollForm.form_options formData))); [lia|].
  cbv zeta. destruct (negb _); [split; discriminate|].
  split; intros Hreason; apply validateEachOption_message in Hreason as [rest Hrest];
    discriminate.
Qed.

Lemma form_keeps_two_to_ten_options_witness :
  let events := [NewPollForm.RemoveOption 0; NewPollForm.AddOption;
                 NewPollForm.OptionChange 2 "Tea"; NewPollForm.RemoveOption 5] in
  exists formData,
    NewPollForm.handleEvents events NewPollForm.initialFormData = Some formData
    /\ NewPollForm.form_options formData = [""; ""; "Tea"]
    /\ (2 <= length (NewPollForm.form_options formData) <= 10)%nat.
Proof.
  eexists. split; [reflexivity|]. split; [reflexivity|].
  exact (proj1 (form_keeps_two_to_ten_options
                  [NewPollForm.RemoveOption 0; NewPollForm.AddOption;
                   NewPollForm.OptionChange 2 "Tea"; NewPollForm.RemoveOption 5]
                  _ eq_refl)).
Defined.

(** ** The in-memory route: responses, store and messages *)

Lemma incrementFound_Some (optionId : string) (opts : list MemOption) :
  is_Some (incrementFound optionId opts) <-> optionId ∈ map mo_id opts.
Proof.
  induction opts as [|o rest IH]; simpl.
  - split; [by intros [? ?]|by intros ?%not_elem_of_nil].
  - destruct (decide (mo_id o = optionId)) as [Hid|Hid].
    + split; [intros _; rewrite Hid; left|eauto].
    + rewrite fmap_is_Some, IH. split; [by right|].
      intros [Heq|Hin]%elem_of_cons; [congruence|exact Hin].
Qed.

Lemma incrementFound_effect (optionId : string) (opts opts' : list MemOption) :
  incrementFound optionId opts = Some opts' ->
  map mo_id opts' = map mo_id opts
  /\ map mo_text opts' = map mo_text opts
  /\ sumZ (map mo_votes opts') = sumZ (map mo_votes opts) + 1
  /\ Forall2 (fun o o' => mo_votes o <= mo_votes o'
                          /\ (mo_id o <> optionId -> o' = o)) opts opts'.
Proof.
  revert opts'. induction opts as [|o rest IH]; intros opts'; simpl; [discriminate|].
  destruct (decide (mo_id o = optionId)) as [Hid|Hid].
  - intros [= <-]. simpl. repeat split; [lia|].
    constructor; [simpl; split; [lia|done]|].
    apply Forall_Forall2_diag, Forall_forall. intros x _. split; [lia|done].
  - destruct (incrementFound optionId rest) as [rest'|]; [|discriminate].
    intros [= <-]. destruct (IH rest' eq_refl) as (Hids & Htexts & Hsum & Hall).
    simpl. rewrite Hids, Htexts, Hsum. repeat split; [lia|].
    constructor; [split; [lia|done]|exact Hall].
Qed.

(** X23.  The refusals of the [POST] handler of the in-memory route
    change no poll and send no message.  A body that does not parse is
    answered 400.  A poll id under which the object holds no poll is
    answered 404 "Poll not found", unless it is a name inherited from
    [Object.prototype], such as [constructor] or [toString]: then the
    lookup finds a value that is no poll, the search of its options throws,
    and the answer is 400 "Invalid request", while [GET] answers 200 with
    no poll in it.  An option id that is not among the options of the poll
    is answered 404 "Option not found". *)
Theorem POST_refusals (wss : option (list Client)) (pollId : string)
    (body : option string) (polls : gmap string MemPoll) :
  (body = None ->
   POST wss pollId body polls = (polls, [], BadRequest400 "Invalid request"))
  /\ (forall optionId,
        body = Some optionId -> polls !! pollId = None ->
        (pollId ∈ objectPrototypeKeys ->
         POST wss pollId body polls = (polls, [], BadRequest400 "Invalid request")
         /\ GET pollId polls = FoundInherited)
        /\ (pollId ∉ objectPrototypeKeys ->
            POST wss pollId body polls = (polls, [], NotFound404 "Poll not found")
            /\ GET pollId polls = Missing "Poll not found"))
  /\ (forall optionId poll,
        body = Some optionId -> polls !! pollId = Some poll ->
        optionId ∉ map mo_id (mp_options poll) ->
        POST wss pollId body polls = (polls, [], NotFound404 "Option not found")).
Proof.
  split; [by intros ->|]. split.
  - intros optionId -> Hpoll. unfold POST, GET. rewrite Hpoll. split.
    + intros Hin. by rewrite bool_decide_eq_true_2.
    + intros Hnot. by rewrite bool_decide_eq_false_2.
  - intros optionId poll -> Hpoll Hnot. unfold POST. rewrite Hpoll.
    destruct (incrementFound optionId (mp_options poll)) as [opts|] eqn:Hfound;
      [|reflexivity].
    exfalso. apply Hnot, incrementFound_Some. by rewrite Hfound.
Qed.

Lemma POST_refusals_witness :
  let polls : gmap string MemPoll :=
    {[ "1" := mkMemPoll "1" "What should we build next?"
                [mkMemOption "1" "Mobile App" 12; mkMemOption "2" "Web Dashboard" 8] ]} in
  (POST None "constructor" (Some "1") polls = (polls, [], BadRequest400 "Invalid request")
   /\ GET "constructor" polls = FoundInherited)
  /\ (POST None "2" (Some "1") polls = (polls, [], NotFound404 "Poll not found")
      /\ GET "2" polls = Missing "Poll not found")
  /\ POST None "1" (Some "3") polls = (polls, [], NotFound404 "Option not found").
Proof.
  intros polls.
  destruct (POST_refusals None "constructor" (Some "1") polls) as (_ & Hinherited & _).
  destruct (POST_refusals None "2" (Some "1") polls) as (_ & Hmissing & _).
  destruct (POST_refusals None "1" (Some "3") polls) as (_ & _ & Hoption).
  split; [apply (Hinherited "1" eq_refl eq_refl); compute_done|].
  split; [apply (Hmissing "1" eq_refl eq_refl); compute_done|].
  eapply (Hoption "3" _ eq_refl); [reflexivity|compute_done].
Defined.

(** X24.  A [POST] answered with 200 stores the poll it answers with, so
    that a [GET] for the same id returns it and a [GET] for any other id
    answers as before.  That poll differs from the one before by one vote:
    same id and title, the same options with the same ids and texts in the
    same order, no count lowered, options with another id untouched, and a
    sum of counts one higher.  Every client whose socket is open is sent
    one message with this poll, in the order of the server's clients, and no
    other client is sent anything. *)
Theorem POST_success (wss : option (list Client)) (pollId : string)
    (body : option string) (polls polls' : gmap string MemPoll)
    (sent : list (nat * VoteUpdate)) (poll' : MemPoll) :
  POST wss pollId body polls = (polls', sent, Ok200 poll') ->
  GET pollId polls' = Found poll'
  /\ (forall other, other <> pollId -> GET other polls' = GET other polls)
  /\ (exists optionId poll,
        body = Some optionId /\ polls !! pollId = Some poll
        /\ mp_id poll' = mp_id poll /\ mp_title poll' = mp_title poll
        /\ map mo_id (mp_options poll') = map mo_id (mp_options poll)
        /\ map mo_text (mp_options poll') = map mo_text (mp_options poll)
        /\ sumZ (map mo_votes (mp_options poll')) = sumZ (map mo_votes (mp_options poll)) + 1
        /\ Forall2 (fun o o' => mo_votes o <= mo_votes o'
                                /\ (mo_id o <> optionId -> o' = o))
                   (mp_options poll) (mp_options poll'))
  /\ sent = map (fun c => (client c, mkVoteUpdate pollId poll'))
                (filter (fun c => readyState c = 1) (default [] wss)).
Proof.
  unfold POST. destruct body as [optionId|]; [|discriminate].
  destruct (polls !! pollId) as [poll|] eqn:Hpoll; [|by destruct (bool_decide _)].
  destruct (incrementFound optionId (mp_options poll)) as [opts|] eqn:Hfound; [|discriminate].
  intros [= <- <- <-].
  destruct (incrementFound_effect _ _ _ Hfound) as (Hids & Htexts & Hsum & Hall).
  split; [unfold GET; by rewrite lookup_insert_eq|].
  split; [intros other Hother; unfold GET; by rewrite lookup_insert_ne|].
  split; [exists optionId, poll; by repeat split|].
  unfold broadcast. by destruct wss.
Qed.

Lemma POST_success_witness :
  let polls : gmap string MemPoll :=
    {[ "1" := mkMemPoll "1" "What should we build next?"
                [mkMemOption "1" "Mobile App" 12; mkMemOption "2" "Web Dashboard" 8;
                 mkMemOption "3" "API Service" 15] ]} in
  let wss := Some [mkClient 0 1; mkClient 1 3; mkClient 2 1] in
  exists polls' sent poll',
    POST wss "1" (Some "2") polls = (polls', sent, Ok200 poll')
    /\ map mo_votes (mp_options poll') = [12; 9; 15]
    /\ map fst sent = [0%nat; 2%nat]
    /\ GET "1" polls' = Found poll'.
Proof.
  intros polls wss.
  eassert (POST wss "1" (Some "2") polls = (_, _, Ok200 _)) as Hpost
    by (vm_compute; reflexivity).
  eexists _, _, _. split; [exact Hpost|]. split; [reflexivity|]. split; [reflexivity|].
  exact (proj1 (POST_success _ _ _ _ _ _ _ Hpost)).
Defined.

(** ** Regular expressions: the matcher finds what the pattern matches *)

Lemma append_nil_l (s : string) : "" ++ s = s.
Proof. reflexivity. Qed.

Lemma append_cons (c : ascii) (s1 s2 : string) : String c s1 ++ s2 = String c (s1 ++ s2).
Proof. reflexivity. Qed.

Lemma append_eq_nil (s1 s2 : string) : s1 ++ s2 = "" -> s1 = "" /\ s2 = "".
Proof. destruct s1; [by split|discriminate]. Qed.

Lemma nullable_Matches (r : RegExp) : nullable r = true <-> Matches r "".
Proof.
  split.
  - induction r as [| |f|r1 IH1 r2 IH2|r1 IH1 r2 IH2|r IH]; simpl; try discriminate.
    + intros _. constructor.
    + intros [H1 H2]%andb_true_iff. apply (Matches_Cat r1 r2 "" ""); auto.
    + intros [H|H]%orb_true_iff; [apply Matches_Or_l|apply Matches_Or_r]; auto.
    + intros _. constructor.
  - intros H. remember "" as s eqn:Hs. induction H as [|f c Hc|r1 r2 s1 s2 H1 IH1 H2 IH2
        |r1 r2 s H IH|r1 r2 s H IH|r|r s1 s2 H1 IH1 H2 IH2]; simpl; try reflexivity.
    + discriminate.
    + apply append_eq_nil in Hs as [-> ->]. by rewrite IH1, IH2.
    + by rewrite IH.
    + rewrite IH by exact Hs. apply orb_true_r.
Qed.

Lemma Matches_derive (c : ascii) (r : RegExp) (s : string) :
  Matches (derive c r) s -> Matches r (String c s).
Proof.
  revert s. induction r as [| |f|r1 IH1 r2 IH2|r1 IH1 r2 IH2|r IH]; intros s; simpl.
  - inversion 1.
  - inversion 1.
  - destruct (f c) eqn:Hc; inversion 1; subst. by constructor.
  - assert (Matches (Cat (derive c r1) r2) s -> Matches (Cat r1 r2) (String c s)) as Hcat.
    { inversion 1 as [| |? ? s1 s2 H1 H2| | | |]; subst.
      apply (Matches_Cat r1 r2 (String c s1) s2); auto. }
    destruct (nullable r1) eqn:Hnull; [|exact Hcat].
    inversion 1 as [| | |? ? ? Hl|? ? ? Hr| |]; subst; [by apply Hcat|].
    apply (Matches_Cat r1 r2 "" (String c s)); [by apply nullable_Matches|auto].
  - inversion 1; subst; [apply Matches_Or_l|apply Matches_Or_r]; auto.
  - inversion 1 as [| |? ? s1 s2 H1 H2| | | |]; subst.
    apply (Matches_Many_cons r (String c s1) s2); auto.
Qed.

Lemma derive_Matches (c : ascii) (r : RegExp) (s : string) :
  Matches r (String c s) -> Matches (derive c r) s.
Proof.
  intros H. remember (String c s) as s0 eqn:Hs. revert s Hs.
  induction H as [|f c' Hc|r1 r2 s1 s2 H1 IH1 H2 IH2
      |r1 r2 s' H IH|r1 r2 s' H IH|r|r s1 s2 H1 IH1 H2 IH2]; intros s Hs; simpl.
  - discriminate.
  - injection Hs as -> <-. rewrite Hc. constructor.
  - destruct s1 as [|c1 s1]; rewrite ?append_nil_l, ?append_cons in Hs.
    + subst s2. apply nullable_Matches in H1. rewrite H1.
      apply Matches_Or_r. by apply IH2.
    + injection Hs as -> <-.
      assert (Matches (Cat (derive c r1) r2) (s1 ++ s2)) as Hcat
        by (apply Matches_Cat; auto).
      destruct (nullable r1); [by apply Matches_Or_l|exact Hcat].
  - apply Matches_Or_l. by apply IH.
  - apply Matches_Or_r. by apply IH.
  - discriminate.
  - destruct s1 as [|c1 s1]; rewrite ?append_nil_l, ?append_cons in Hs.
    + by apply IH2.
    + injection Hs as -> <-. apply Matches_Cat; auto.
Qed.

(** [testWhole] decides whether the pattern matches the string. *)
Lemma testWhole_Matches (r : RegExp) (s : string) :
  testWhole r s = true <-> Matches r s.
Proof.
  revert r. induction s as [|c s IH]; intros r; simpl.
  - apply nullable_Matches.
  - rewrite IH. split; [apply Matches_derive|apply derive_Matches].
Qed.

Lemma testPrefix_Matches (r : RegExp) (s : string) :
  testPrefix r s = true <-> exists s1 s2, s = s1 ++ s2 /\ Matches r s1.
Proof.
  revert r. induction s as [|c s IH]; intros r; simpl.
  - rewrite orb_false_r, nullable_Matches. split.
    + intros H. by exists "", "".
    + intros (s1 & s2 & Hs & H). symmetry in Hs. by apply append_eq_nil in Hs as [-> _].
  - rewrite orb_true_iff, nullable_Matches, IH. split.
    + intros [H|(s1 & s2 & -> & H)].
      * by exists "", (String c s).
      * exists (String c s1), s2. split; [reflexivity|by apply Matches_derive].
    + intros (s1 & s2 & Hs & H). destruct s1 as [|c1 s1]; [by left|].
      injection Hs as <- ->. right. exists s1, s2. split; [reflexivity|by apply derive_Matches].
Qed.

Lemma testAhead_Matches (r : RegExp) (s : string) :
  testAhead r s = true <-> exists s0 s1 s2, s = s0 ++ s1 ++ s2 /\ Matches r s1.
Proof.
  induction s as [|c s IH]; simpl.
  - rewrite !orb_false_r, nullable_Matches. split.
    + intros H. by exists "", "", "".
    + intros (s0 & s1 & s2 & Hs & H). symmetry in Hs.
      apply append_eq_nil in Hs as [_ Hs]. by apply append_eq_nil in Hs as [-> _].
  - rewrite orb_true_iff, IH. split.
    + intros [H|(s0 & s1 & s2 & -> & H)].
      * apply (testPrefix_Matches r (String c s)) in H as (s1 & s2 & Hs & H).
        by exists "", s1, s2.
      * by exists (String c s0), s1, s2.
    + intros (s0 & s1 & s2 & Hs & H). destruct s0 as [|c0 s0].
      * left. apply (testPrefix_Matches r (String c s)). by exists s1, s2.
      * injection Hs as <- ->. right. by exists s0, s1, s2.
Qed.

Lemma Matches_Cat_inv (r1 r2 : RegExp) (s : string) :
  Matches (Cat r1 r2) s <-> exists s1 s2, s = s1 ++ s2 /\ Matches r1 s1 /\ Matches r2 s2.
Proof.
  split.
  - inversion 1; subst. eauto.
  - intros (s1 & s2 & -> & H1 & H2). by constructor.
Qed.

Lemma Matches_Class_inv (f : ascii -> bool) (s : string) :
  Matches (Class f) s <-> exists c, s = String c "" /\ f c = true.
Proof.
  split.
  - inversion 1; subst. eauto.
  - intros (c & -> & Hc). by constructor.
Qed.

Lemma Matches_Many_Class (f : ascii -> bool) (s : string) :
  Matches (Many (Class f)) s <-> allOf f s = true.
Proof.
  split.
  - intros H. remember (Many (Class f)) as r eqn:Hr.
    induction H as [| | | | | |r s1 s2 H1 _ H2 IH2]; try discriminate; [reflexivity|].
    injection Hr as ->. inversion H1; subst. rewrite append_cons, append_nil_l. simpl.
    rewrite IH2 by reflexivity.
    by rewrite andb_true_r.
  - induction s as [|c s IH]; simpl; [constructor|].
    intros [Hc Hs]%andb_true_iff.
    apply (Matches_Many_cons (Class f) (String c "") s); [by constructor|auto].
Qed.

Lemma Matches_Some1_Class (f : ascii -> bool) (s : string) :
  Matches (Some1 (Class f)) s <-> s <> "" /\ allOf f s = true.
Proof.
  unfold Some1. rewrite Matches_Cat_inv. split.
  - intros (s1 & s2 & -> & (c & -> & Hc)%Matches_Class_inv & H2%Matches_Many_Class).
    rewrite append_cons, append_nil_l. simpl. by rewrite Hc, H2.
  - intros [Hne Hall]. destruct s as [|c s]; [done|]. simpl in Hall.
    apply andb_true_iff in Hall as [Hc Hs].
    exists (String c ""), s. split; [reflexivity|].
    split; [by constructor|by apply Matches_Many_Class].
Qed.

Lemma contains_app (f : ascii -> bool) (s1 s2 : string) :
  contains f (s1 ++ s2) = contains f s1 || contains f s2.
Proof.
  induction s1 as [|c s1 IH]; simpl; [reflexivity|]. by rewrite IH, orb_assoc.
Qed.

(** A look-ahead for a character of a class succeeds exactly on the
    strings that contain one. *)
Lemma testAhead_anywhere (f : ascii -> bool) (s : string) :
  testAhead (anywhere f) s = contains f s.
Proof.
  apply eq_true_iff_eq. rewrite testAhead_Matches. split.
  - intros (s0 & s1 & s2 & -> & H). unfold anywhere in H.
    apply Matches_Cat_inv in H as (a & b & -> & _ & (c & -> & Hc)%Matches_Class_inv).
    rewrite !contains_app. simpl. rewrite Hc. simpl.
    by rewrite orb_true_r, orb_true_l, orb_true_r.
  - induction s as [|c s IH]; simpl; [discriminate|].
    intros [Hc|Hs]%orb_true_iff.
    + exists "", (String c ""), s. split; [reflexivity|].
      apply (Matches_Cat (Many (Class isDot)) (Class f) "" (String c ""));
        [constructor|by constructor].
    + destruct (IH Hs) as (s0 & s1 & s2 & -> & H). by exists (String c s0), s1, s2.
Qed.

(** X25.  [validatePassword] accepts exactly the passwords of at least 8
    characters that contain a lowercase letter, an uppercase letter, a digit
    and one of the characters [@$!%*?&]; there is no upper limit, and no
    other character counts as special. *)
Theorem validatePassword_accepts (password : string) :
  isValid (validatePassword password)
  = (8 <=? strlen password) && contains isLower password && contains isUpper password
    && contains isDigit password && contains isSpecial password.
Proof.
  unfold validatePassword. rewrite !testAhead_anywhere.
  destruct password as [|c rest]; [reflexivity|]. cbn [truthy negb].
  destruct (Z.ltb_spec (strlen (String c rest)) 8) as [Hshort|Hlong].
  - destruct (Z.leb_spec 8 (strlen (String c rest))); [lia|reflexivity].
  - destruct (Z.leb_spec 8 (strlen (String c rest))); [|lia]. cbn [andb].
    destruct (contains isLower _); [|reflexivity].
    destruct (contains isUpper _); [|reflexivity].
    destruct (contains isDigit _); [|reflexivity].
    by destruct (contains isSpecial _).
Qed.

(** X26.  [validateEmail] accepts exactly the addresses of the form
    [a@b.c] in which [a], [b] and [c] are non-empty and contain neither
    whitespace nor [@].  Nothing else is asked of the parts: they may hold
    dots anywhere, also two in a row. *)
Theorem validateEmail_accepts_iff (email : string) :
  isValid (validateEmail email) = true
  <-> exists a b c,
        email = a ++ "@" ++ b ++ "." ++ c
        /\ addressPart a /\ addressPart b /\ addressPart c.
Proof.
  assert (testWhole emailRegex email = true
          <-> exists a b c, email = a ++ "@" ++ b ++ "." ++ c
                            /\ addressPart a /\ addressPart b /\ addressPart c) as Hregex.
  { rewrite testWhole_Matches. unfold emailRegex, addressPart. split.
    - intros (a & s1 & -> & Ha%Matches_Some1_Class & H)%Matches_Cat_inv.
      apply Matches_Cat_inv in H as (at_ & s2 & -> & (x & -> & Hx)%Matches_Class_inv & H).
      apply Matches_Cat_inv in H as (b & s3 & -> & Hb%Matches_Some1_Class & H).
      apply Matches_Cat_inv in H as (dot & c & -> & (y & -> & Hy)%Matches_Class_inv
                                     & Hc%Matches_Some1_Class).
      apply Ascii.eqb_eq in Hx as <-. apply Ascii.eqb_eq in Hy as <-.
      by exists a, b, c.
    - intros (a & b & c & -> & Ha & Hb & Hc).
      apply Matches_Cat; [by apply Matches_Some1_Class|].
      apply (Matches_Cat _ _ "@"); [by constructor|].
      apply Matches_Cat; [by apply Matches_Some1_Class|].
      apply (Matches_Cat _ _ "."); [by constructor|by apply Matches_Some1_Class]. }
  split.
  - intros Hvalid. apply Hregex. unfold validateEmail in Hvalid.
    destruct (negb (truthy (trim email))); [discriminate|].
    destruct (testWhole emailRegex email); [reflexivity|discriminate].
  - intros Hparts. pose proof (proj2 Hregex Hparts) as Htest.
    destruct Hparts as (a & b & c & -> & [Hne Ha] & _).
    unfold validateEmail. rewrite Htest.
    assert (truthy (trim (a ++ "@" ++ b ++ "." ++ c)) = true) as ->; [|done].
    destruct a as [|x a]; [done|]. simpl in Ha. apply andb_true_iff in Ha as [Hx _].
    unfold isAddressChar in Hx. apply negb_true_iff, orb_false_iff in Hx as [Hx _].
    unfold trim. rewrite append_cons. cbn [trimStart]. rewrite Hx. simpl.
    destruct (trimEnd _); [by rewrite Hx|reflexivity].
Qed.

Lemma validateEmail_accepts_iff_witness :
  isValid (validateEmail "test..test@example..com") = true.
Proof.
  apply (proj2 (validateEmail_accepts_iff "test..test@example..com")).
  exists "test..test", "example", ".com". unfold addressPart. by repeat split.
Defined.

(** X27.  [validateName] accepts exactly the names that, once trimmed,
    have 2 to 50 characters, all of them letters [a-z], [A-Z], whitespace,
    hyphens or apostrophes. *)
Theorem validateName_accepts_iff (name : string) :
  isValid (validateName name) = true
  <-> 2 <= strlen (trim name) <= 50 /\ allOf isNameChar (trim name) = true.
Proof.
  unfold validateName.
  assert (testWhole nameRegex (trim name) = true
          <-> trim name <> "" /\ allOf isNameChar (trim name) = true) as Hregex.
  { rewrite testWhole_Matches. apply Matches_Some1_Class. }
  destruct (truthy (trim name)) eqn:Htruthy; cbn [negb].
  - destruct (Z.ltb_spec (strlen (trim name)) 2); [simpl; split; [discriminate|lia]|].
    destruct (Z.ltb_spec 50 (strlen (trim name))); [simpl; split; [discriminate|lia]|].
    split.
    + destruct (testWhole nameRegex (trim name)); [|discriminate].
      intros _. split; [lia|]. by apply Hregex.
    + intros [_ Hall]. rewrite (proj2 Hregex); [reflexivity|].
      split; [|exact Hall]. by destruct (trim name).
  - simpl. split; [discriminate|]. intros [[Hlen _] _].
    destruct (trim name); [unfold strlen in Hlen; simpl in Hlen; lia|discriminate].
Qed.

(** X28.  The sign-up page has validators of its own.  For e-mail
    addresses and passwords they give the verdicts and messages of the
    library's.  For names the page only asks for 2 characters after
    trimming: it accepts every name the library accepts, and also the
    longer ones and those with other characters, which the library
    refuses. *)
Theorem signup_page_and_library_validators (value : string) :
  SignUpPage.validateEmail value = reason (validateEmail value)
  /\ SignUpPage.validatePassword value = reason (validatePassword value)
  /\ (SignUpPage.validateName value = None <-> 2 <= strlen (trim value))
  /\ (isValid (validateName value) = true -> SignUpPage.validateName value = None)
  /\ (SignUpPage.validateName value = None -> isValid (validateName value) = false ->
      50 < strlen (trim value) \/ allOf isNameChar (trim value) = false).
Proof.
  assert (SignUpPage.validateName value = None <-> 2 <= strlen (trim value)) as Hpage.
  { unfold SignUpPage.validateName.
    destruct (truthy (trim value)) eqn:Htruthy; cbn [negb].
    - destruct (Z.ltb_spec (strlen (trim value)) 2); split; try done; lia.
    - split; [discriminate|]. destruct (trim value); [|discriminate].
      unfold strlen. simpl. lia. }
  split; [|split; [|split; [exact Hpage|split]]].
  - unfold SignUpPage.validateEmail, validateEmail.
    by repeat destruct (negb _).
  - unfold SignUpPage.validatePassword, validatePassword.
    destruct (negb (truthy value)); [reflexivity|].
    destruct (strlen value <? 8); [reflexivity|].
    by repeat destruct (negb _).
  - intros [[Hlen _] _]%validateName_accepts_iff. by apply Hpage.
  - intros Hlen%Hpage Hlib.
    destruct (Z.ltb_spec 50 (strlen (trim value))); [by left|right].
    apply not_true_is_false. intros Hall.
    assert (isValid (validateName value) = true); [|congruence].
    apply validateName_accepts_iff. split; [lia|exact Hall].
Qed.

Lemma signup_page_and_library_validators_witness :
  SignUpPage.validateName "R2-D2" = None
  /\ isValid (validateName "R2-D2") = false
  /\ (50 < strlen (trim "R2-D2") \/ allOf isNameChar (trim "R2-D2") = false).
Proof.
  split; [reflexivity|]. split; [reflexivity|].
  exact (proj2 (proj2 (proj2 (proj2 (signup_page_and_library_validators "R2-D2"))))
           eq_refl eq_refl).
Defined.

(** ** Errors shown by the forms *)

Lemma parseSupabaseAuthError_known (error : AnyError) :
  looksLikeAuthError error = true -> parseSupabaseAuthError error ∈ authMessages.
Proof.
  unfold looksLikeAuthError, parseSupabaseAuthError, messageOf, orElse, authMessages.
  destruct (ev_message (any_value error)) as [m|]; [|discriminate].
  destruct (truthy m); [|discriminate]. cbn [andb].
  destruct (includes m "already registered"); cbn [orb]; [intros _; set_solver|].
  destruct (includes m "User already registered"); cbn [orb].
  { intros _. repeat destruct (includes m _); set_solver. }
  destruct (includes m "Invalid email"); cbn [orb]; [intros _; set_solver|].
  destruct (includes m "Password should be at least"); cbn [orb]; [intros _; set_solver|].
  destruct (includes m "Unable to validate email address"); cbn [orb];
    [intros _; set_solver|].
  destruct (includes m "Signup is disabled"); cbn [orb]; [intros _; set_solver|].
  destruct (includes m "rate limit"); cbn [orb]; [intros _; set_solver|].
  destruct (includes m "too many requests"); cbn [orb].
  { intros _. repeat destruct (includes m _); set_solver. }
  destruct (includes m "Invalid login credentials"); cbn [orb]; [intros _; set_solver|].
  destruct (includes m "Email not confirmed"); cbn [orb]; [intros _; set_solver|].
  destruct (includes m "User not found"); cbn [orb]; [intros _; set_solver|].
  discriminate.
Qed.

Lemma authMessages_not_retryable (m : string) :
  m ∈ authMessages ->
  truthy m = true /\ isRetryableError (mkFormError None m Api) = false.
Proof.
  unfold authMessages. intros Hin.
  repeat (apply elem_of_cons in Hin as [-> | Hin]; [by vm_compute|]).
  by apply not_elem_of_nil in Hin.
Qed.

(** X29.  [handleFormError] called without field validators, as the forms
    do, always yields a message to show, never tied to a field.  An error of
    the authentication backend, recognised by its message, is shown with one
    of the nine fixed messages in place of the backend's, as an API error
    that is not retryable; every other error is shown as [parseApiError]
    reads it. *)
Theorem handleFormError_without_validators (error : AnyError) :
  let shown := handleFormError error false in
  field shown = None
  /\ truthy (message shown) = true
  /\ (looksLikeAuthError error = true ->
      type shown = Api /\ message shown ∈ authMessages /\ isRetryableError shown = false)
  /\ (looksLikeAuthError error = false -> shown = parseApiError (any_value error)).
Proof.
  cbv zeta.
  assert (handleFormError error false
          = if looksLikeAuthError error
            then mkFormError None (parseSupabaseAuthError error) Api
            else parseApiError (any_value error)) as ->.
  { unfold handleFormError. destruct (any_type error), (any_field error); try reflexivity.
    by rewrite andb_false_r. }
  destruct (looksLikeAuthError error) eqn:Hauth.
  - pose proof (parseSupabaseAuthError_known error Hauth) as Hknown.
    destruct (authMessages_not_retryable _ Hknown) as [Htruthy Hretry].
    cbn [field message type]. by repeat split.
  - destruct (parseApiError_message (any_value error)) as [Htruthy Hfield].
    by repeat split.
Qed.

Lemma handleFormError_without_validators_witness :
  let error := mkAnyError (mkErrorValue (Some (500, None)) false
                                        (Some "AuthApiError: User not found") None)
                          None None None in
  looksLikeAuthError error = true
  /\ message (handleFormError error false)
     = "No account found with this email address. Please sign up first."
  /\ type (handleFormError error false) = Api
  /\ message (handleFormError error false) ∈ authMessages
  /\ isRetryableError (handleFormError error false) = false.
Proof.
  intros error. split; [reflexivity|]. split; [reflexivity|].
  exact (proj1 (proj2 (proj2 (handleFormError_without_validators error))) eq_refl).
Defined.

(** ** Validation of a whole form *)

Lemma setError_fresh (field : string) (value : option string) (errors : ValidationErrors) :
  field ∉ map fst errors -> setError field value errors = (errors ++ [(field, value)])%list.
Proof.
  induction errors as [|[f v] rest IH]; simpl; [reflexivity|].
  intros Hfresh. apply not_elem_of_cons in Hfresh as [Hne Hrest].
  destruct (String.eqb_spec f field) as [->|_]; [done|]. by rewrite IH.
Qed.

Lemma recorded_field (data : string -> string)
    (entry : string * (string -> ValidationResult)) (item : string * option string) :
  recorded data entry = Some item -> fst item = fst entry.
Proof.
  unfold recorded. destruct (reason _); [|discriminate].
  destruct (_ && _); [|discriminate]. by intros [= <-].
Qed.

Lemma omap_cons {A B} (f : A -> option B) (x : A) (l : list A) :
  omap f (x :: l) = match f x with
                    | Some y => y :: omap f l
                    | None => omap f l
                    end.
Proof. reflexivity. Qed.

Lemma validateForm_from (data : string -> string)
    (validators : list (string * (string -> ValidationResult))) (errors : ValidationErrors) :
  NoDup (map fst errors ++ map fst validators) ->
  fold_left
    (fun errors '(field, validator) =>
       let result := validator (data field) in
       match reason result with
       | Some e => if negb (isValid result) && truthy e
                   then setError field (Some e) errors
                   else errors
       | None => errors
       end)
    validators errors
  = (errors ++ omap (recorded data) validators)%list.
Proof.
  revert errors. induction validators as [|[field validator] rest IH]; intros errors Hnd.
  - simpl. by rewrite app_nil_r.
  - cbn [fold_left]. rewrite omap_cons. unfold recorded at 1. cbn [fst snd]. cbv zeta.
    simpl in Hnd. apply NoDup_app in Hnd as (Herrors & Hdisjoint & Hrest).
    apply NoDup_cons in Hrest as [Hfield Hrest].
    assert (field ∉ map fst errors) as Hfresh.
    { intros Hin. apply (Hdisjoint field Hin). left. }
    destruct (reason (validator (data field))) as [e|].
    + destruct (negb (isValid (validator (data field))) && truthy e).
      * rewrite setError_fresh by exact Hfresh. rewrite IH.
        -- by rewrite <- app_assoc.
        -- rewrite map_app. simpl. rewrite <- app_assoc. simpl.
           apply NoDup_app. split; [exact Herrors|]. split; [|by constructor].
           intros x Hx. by apply Hdisjoint.
      * apply IH. apply NoDup_app. split; [exact Herrors|]. split; [|exact Hrest].
        intros x Hx Hin. apply (Hdisjoint x Hx). by right.
    + apply IH. apply NoDup_app. split; [exact Herrors|]. split; [|exact Hrest].
      intros x Hx Hin. apply (Hdisjoint x Hx). by right.
Qed.

(** X30.  [validateForm] records, in the order of the validators, the
    message of every validator that refuses its field with a non-empty
    message, and nothing else.  So [getFirstErrorField] names the field of
    the first such validator, and on these errors it finds a field exactly
    when [hasValidationErrors] says there are errors. *)
Theorem validateForm_records_refusals (data : string -> string)
    (validators : list (string * (string -> ValidationResult))) :
  NoDup (map fst validators) ->
  let errors := validateForm data validators in
  errors = omap (recorded data) validators
  /\ getFirstErrorField errors
     = fst <$> List.find (fun entry => bool_decide (is_Some (recorded data entry))) validators
  /\ (hasValidationErrors errors = true <-> is_Some (getFirstErrorField errors)).
Proof.
  intros Hnd. cbv zeta.
  assert (validateForm data validators = omap (recorded data) validators) as ->.
  { unfold validateForm. by rewrite validateForm_from. }
  split; [reflexivity|]. clear Hnd.
  induction validators as [|entry rest [IHfirst IHhas]]; [by split; [|split; [|intros []]]|].
  rewrite omap_cons. cbn [List.find].
  destruct (recorded data entry) as [[f [e|]]|] eqn:Hentry.
  - assert (truthy e = true /\ f = fst entry) as [He ->].
    { revert Hentry. unfold recorded. destruct (reason _) as [e'|]; [|discriminate].
      destruct (negb _); [|discriminate]. cbn [andb].
      destruct (truthy e') eqn:He'; [|discriminate]. by intros [= <- <-]. }
    rewrite bool_decide_eq_true_2 by eauto.
    unfold getFirstErrorField, hasValidationErrors. cbn [List.find existsb]. rewrite He.
    split; [reflexivity|]. by split; [eauto|].
  - exfalso. revert Hentry. unfold recorded. destruct (reason _); [|discriminate].
    by destruct (_ && _).
  - rewrite bool_decide_eq_false_2 by (by intros [? ?]). by split.
Qed.

Lemma validateForm_records_refusals_witness :
  let data := fun field : string =>
                if String.eqb field "email" then "invalid-email"
                else if String.eqb field "password" then "weak" else "Ann" in
  let validators := [("name", validateName); ("email", validateEmail);
                     ("password", validatePassword)] in
  validateForm data validators
  = [("email", Some "Please enter a valid email address");
     ("password", Some "Password must be at least 8 characters long")]
  /\ getFirstErrorField (validateForm data validators) = Some "email"
  /\ (hasValidationErrors (validateForm data validators) = true
      <-> is_Some (getFirstErrorField (validateForm data validators))).
Proof.
  intros data validators. split; [reflexivity|]. split; [reflexivity|].
  apply (validateForm_records_refusals data validators).
  vm_compute. repeat constructor; set_solver.
Defined.
